(** * StudyChat (VibeChat): a shallow embedding of the orchestration code

    The development follows the TypeScript sources:

    - [VoiceAssistant]  components/VoiceAssistant.tsx  (transcript assembly,
      playback cursor, teardown);
    - [App]             App.tsx  (conversation titles);
    - [Auth]            utils/auth.ts  (sign-up adapter);
    - [ChatBot]         components/ChatBot.tsx  (attachments, send, history).

    Conventions.  JavaScript strings are modelled as [string] (sequences of
    bytes); the character-level operations used by the sources ([trim],
    [split], [toUpperCase], the [\s] and [[^a-zA-Z0-9.\-]] classes) are
    modelled on the ASCII range.  JavaScript numbers that hold times are
    modelled as rationals [Q], numbers that hold sizes, indices and
    timestamps as [Z].  Hosted services are oracles: records of functions that
    take the external world to an answer and a new world; every property is
    proved for all of them.  A React state update that is a plain value, or
    an updater reading nothing but the previous value, is applied where the
    handler issues it; the transcript updaters of the voice assistant read
    refs when they run, so they are queued and run by an explicit render
    step.  A handler reads the state cells through its closure; the handlers
    that an event of the page runs come from the render that shows the
    current state and read it, while the title handler of [App], which the
    chat calls later, takes the list its render captured as a parameter. *)

From Stdlib Require Import List String Ascii Bool Arith NArith ZArith QArith
  Qminmax Lia.
Import ListNotations.
Close Scope Q_scope.
Open Scope string_scope.
Open Scope nat_scope.

(* ===================================================================== *)
(** * JavaScript values shared by the components *)
(* ===================================================================== *)

Module Js.

(** A thrown value: an [Error] instance carrying a message, or any other
    object (what [error instanceof Error] separates). *)
Inductive JsError : Type :=
| ErrorObj (message : string)
| Thrown (description : string).

Definition instanceofError (e : JsError) : bool :=
  match e with ErrorObj _ => true | Thrown _ => false end.

Definition errorMessage (e : JsError) : string :=
  match e with ErrorObj m => m | Thrown d => d end.

(** Truthiness of a string: only the empty string is falsy. *)
Definition truthy (s : string) : bool :=
  match s with EmptyString => false | String _ _ => true end.

(** Truthiness of a [string | null] value. *)
Definition truthyOpt (o : option string) : bool :=
  match o with Some s => truthy s | None => false end.

(** [a || b] on strings. *)
Definition orElse (a b : string) : string := if truthy a then a else b.

(** String concatenation with a possibly [undefined] right operand:
    [s += undefined] appends the text "undefined". *)
Definition concatText (s : string) (t : option string) : string :=
  match t with Some x => s ++ x | None => s ++ "undefined" end.

(** White space of the [\s] class and of [String.prototype.trim], ASCII part:
    tab, line feed, vertical tab, form feed, carriage return, space. *)
Definition isSpace (c : ascii) : bool :=
  let n := nat_of_ascii c in
  ((9 <=? n) && (n <=? 13)) || (n =? 32).

(** [s.replace(/\s+/g, ' ')]: every maximal run of white space becomes one
    space.  [inRun] tells that the previous character was white space. *)
Fixpoint replaceSpaceRuns (inRun : bool) (s : string) : string :=
  match s with
  | EmptyString => EmptyString
  | String c rest =>
      if isSpace c
      then if inRun then replaceSpaceRuns true rest
           else String " " (replaceSpaceRuns true rest)
      else String c (replaceSpaceRuns false rest)
  end.

Fixpoint trimStart (s : string) : string :=
  match s with
  | EmptyString => EmptyString
  | String c rest => if isSpace c then trimStart rest else s
  end.

Fixpoint trimEnd (s : string) : string :=
  match s with
  | EmptyString => EmptyString
  | String c rest =>
      match trimEnd rest with
      | EmptyString => if isSpace c then EmptyString else String c EmptyString
      | r => String c r
      end
  end.

(** [s.trim()]. *)
Definition trim (s : string) : string := trimEnd (trimStart s).

(** [s.split(sep)] for a one-character separator: never empty, the empty
    string splits into one empty piece. *)
Fixpoint split (sep : ascii) (s : string) : list string :=
  match s with
  | EmptyString => [EmptyString]
  | String c rest =>
      if Ascii.eqb c sep then EmptyString :: split sep rest
      else match split sep rest with
           | [] => [String c EmptyString]
           | w :: ws => String c w :: ws
           end
  end.

(** [xs.join(sep)]. *)
Fixpoint join (sep : string) (xs : list string) : string :=
  match xs with
  | [] => EmptyString
  | [x] => x
  | x :: rest => x ++ sep ++ join sep rest
  end.

(** [c.toUpperCase()] on one ASCII character. *)
Definition toUpperCaseChar (c : ascii) : ascii :=
  let n := nat_of_ascii c in
  if (97 <=? n) && (n <=? 122) then ascii_of_nat (n - 32) else c.

(** [s.charAt(0)]: the first character as a string, empty on the empty
    string. *)
Definition charAt0 (s : string) : string :=
  match s with
  | EmptyString => EmptyString
  | String c _ => String c EmptyString
  end.

Fixpoint toUpperCase (s : string) : string :=
  match s with
  | EmptyString => EmptyString
  | String c rest => String (toUpperCaseChar c) (toUpperCase rest)
  end.

(** [s.slice(1)]. *)
Definition slice1 (s : string) : string :=
  match s with
  | EmptyString => EmptyString
  | String _ rest => rest
  end.

(** Decimal rendering of a non-negative integer, as template literals do. *)
Fixpoint digitsAux (fuel : nat) (n : N) (acc : string) : string :=
  match fuel with
  | O => acc
  | S fuel' =>
      let d := ascii_of_N (48 + N.modulo n 10)%N in
      let acc' := String d acc in
      if N.ltb n 10%N then acc' else digitsAux fuel' (N.div n 10%N) acc'
  end.

Definition numberToString (z : Z) : string :=
  match z with
  | Z0 => "0"
  | Zpos p => digitsAux (S (N.to_nat (N.log2 (Npos p)))) (Npos p) ""
  | Zneg p => "-" ++ digitsAux (S (N.to_nat (N.log2 (Npos p)))) (Npos p) ""
  end.

(** The horizontal ellipsis U+2026, as its three UTF-8 bytes. *)
Definition ellipsis : string :=
  String (ascii_of_nat 226) (String (ascii_of_nat 128)
    (String (ascii_of_nat 166) EmptyString)).

End Js.

(* ===================================================================== *)
(** * components/VoiceAssistant.tsx *)
(* ===================================================================== *)

Module VoiceAssistant.

Inductive SessionStatus : Type :=
| IDLE | CONNECTING | LISTENING | ERROR | CLOSED.

(** One element of the [transcriptions] state. *)
Record Turn : Type := mkTurn {
  user : string;
  model : string;
  isFinal : bool
}.

(** Browser and SDK objects are handles; a media stream owns its tracks. *)
Record LiveSession : Type := { sessionId : nat }.
Record MediaStream : Type := { tracks : list nat }.
Record ScriptProcessorNode : Type := { processorId : nat }.
Record AudioContext : Type := { contextId : nat }.

(** A buffer source once [start] has been called on it: its identity, the
    time handed to [start] and the duration of its buffer. *)
Record AudioBufferSourceNode : Type := mkSource {
  sourceId : nat;
  startTime : Q;
  bufferDuration : Q
}.

(** What the component does to the outside, in program order: calls made on
    external objects, and an [async] handler that ends by throwing (its
    promise rejects, and nothing awaits or catches it). *)
Inductive Effect : Type :=
| SessionClose (s : LiveSession)
| TrackStop (track : nat)
| ProcessorDisconnect (p : ScriptProcessorNode)
| ContextClose (c : AudioContext)
| SourceStart (n : AudioBufferSourceNode)
| SourceStop (n : AudioBufferSourceNode)
| SendToolResponse (id name : option string) (result : string)
| UnhandledRejection.

(** The updates handed to [setTranscriptions].  React queues an update and
    runs it when it next renders the component; the three updaters of
    [onmessage] read the accumulator refs when they run, not where they are
    issued. *)
Inductive Update : Type :=
| ClearTranscript
| InputUpdate
| OutputUpdate
| CompleteUpdate.

(** Component state: the three [useState] cells and the nine refs.
    [sourcesCreated] numbers the buffer sources so that two sources are
    distinct objects in [audioSourcesRef]; [pendingUpdates] is React's queue
    of transcript updates that have been issued and not yet run. *)
Record VoiceState : Type := mkVoice {
  status : SessionStatus;
  transcriptions : list Turn;
  notifications : list string;
  sessionRef : option LiveSession;
  inputAudioContextRef : option AudioContext;
  outputAudioContextRef : option AudioContext;
  audioStreamRef : option MediaStream;
  processorRef : option ScriptProcessorNode;
  nextStartTimeRef : Q;
  audioSourcesRef : list AudioBufferSourceNode;
  currentInputTranscriptionRef : string;
  currentOutputTranscriptionRef : string;
  sourcesCreated : nat;
  pendingUpdates : list Update
}.

(** The state of a freshly mounted component. *)
Definition initialState : VoiceState :=
  {| status := IDLE; transcriptions := []; notifications := [];
     sessionRef := None; inputAudioContextRef := None;
     outputAudioContextRef := None; audioStreamRef := None;
     processorRef := None; nextStartTimeRef := 0%Q;
     audioSourcesRef := []; currentInputTranscriptionRef := "";
     currentOutputTranscriptionRef := ""; sourcesCreated := 0;
     pendingUpdates := [] |}.

(** ** Field updates

    [setStatus] is handed plain values and [setNotifications] updaters that
    read nothing but the previous list, so the cell ends with the same value
    whenever React runs them; they are applied where they are issued. *)

Definition setStatus (x : SessionStatus) (s : VoiceState) : VoiceState :=
  mkVoice x (transcriptions s) (notifications s) (sessionRef s)
    (inputAudioContextRef s) (outputAudioContextRef s) (audioStreamRef s)
    (processorRef s) (nextStartTimeRef s) (audioSourcesRef s)
    (currentInputTranscriptionRef s) (currentOutputTranscriptionRef s)
    (sourcesCreated s) (pendingUpdates s).

(** [setTranscriptions(update)]: the update joins the queue. *)
Definition setTranscriptions (u : Update) (s : VoiceState) : VoiceState :=
  mkVoice (status s) (transcriptions s) (notifications s) (sessionRef s)
    (inputAudioContextRef s) (outputAudioContextRef s) (audioStreamRef s)
    (processorRef s) (nextStartTimeRef s) (audioSourcesRef s)
    (currentInputTranscriptionRef s) (currentOutputTranscriptionRef s)
    (sourcesCreated s) (pendingUpdates s ++ [u])%list.

Definition setNotifications (f : list string -> list string) (s : VoiceState)
  : VoiceState :=
  mkVoice (status s) (transcriptions s) (f (notifications s)) (sessionRef s)
    (inputAudioContextRef s) (outputAudioContextRef s) (audioStreamRef s)
    (processorRef s) (nextStartTimeRef s) (audioSourcesRef s)
    (currentInputTranscriptionRef s) (currentOutputTranscriptionRef s)
    (sourcesCreated s) (pendingUpdates s).

Definition setSessionRef (x : option LiveSession) (s : VoiceState) : VoiceState :=
  mkVoice (status s) (transcriptions s) (notifications s) x
    (inputAudioContextRef s) (outputAudioContextRef s) (audioStreamRef s)
    (processorRef s) (nextStartTimeRef s) (audioSourcesRef s)
    (currentInputTranscriptionRef s) (currentOutputTranscriptionRef s)
    (sourcesCreated s) (pendingUpdates s).

Definition setInputAudioContextRef (x : option AudioContext) (s : VoiceState)
  : VoiceState :=
  mkVoice (status s) (transcriptions s) (notifications s) (sessionRef s)
    x (outputAudioContextRef s) (audioStreamRef s)
    (processorRef s) (nextStartTimeRef s) (audioSourcesRef s)
    (currentInputTranscriptionRef s) (currentOutputTranscriptionRef s)
    (sourcesCreated s) (pendingUpdates s).

Definition setOutputAudioContextRef (x : option AudioContext) (s : VoiceState)
  : VoiceState :=
  mkVoice (status s) (transcriptions s) (notifications s) (sessionRef s)
    (inputAudioContextRef s) x (audioStreamRef s)
    (processorRef s) (nextStartTimeRef s) (audioSourcesRef s)
    (currentInputTranscriptionRef s) (currentOutputTranscriptionRef s)
    (sourcesCreated s) (pendingUpdates s).

Definition setAudioStreamRef (x : option MediaStream) (s : VoiceState)
  : VoiceState :=
  mkVoice (status s) (transcriptions s) (notifications s) (sessionRef s)
    (inputAudioContextRef s) (outputAudioContextRef s) x
    (processorRef s) (nextStartTimeRef s) (audioSourcesRef s)
    (currentInputTranscriptionRef s) (currentOutputTranscriptionRef s)
    (sourcesCreated s) (pendingUpdates s).

Definition setProcessorRef (x : option ScriptProcessorNode) (s : VoiceState)
  : VoiceState :=
  mkVoice (status s) (transcriptions s) (notifications s) (sessionRef s)
    (inputAudioContextRef s) (outputAudioContextRef s) (audioStreamRef s)
    x (nextStartTimeRef s) (audioSourcesRef s)
    (currentInputTranscriptionRef s) (currentOutputTranscriptionRef s)
    (sourcesCreated s) (pendingUpdates s).

Definition setNextStartTimeRef (x : Q) (s : VoiceState) : VoiceState :=
  mkVoice (status s) (transcriptions s) (notifications s) (sessionRef s)
    (inputAudioContextRef s) (outputAudioContextRef s) (audioStreamRef s)
    (processorRef s) x (audioSourcesRef s)
    (currentInputTranscriptionRef s) (currentOutputTranscriptionRef s)
    (sourcesCreated s) (pendingUpdates s).

Definition setAudioSourcesRef (x : list AudioBufferSourceNode) (s : VoiceState)
  : VoiceState :=
  mkVoice (status s) (transcriptions s) (notifications s) (sessionRef s)
    (inputAudioContextRef s) (outputAudioContextRef s) (audioStreamRef s)
    (processorRef s) (nextStartTimeRef s) x
    (currentInputTranscriptionRef s) (currentOutputTranscriptionRef s)
    (sourcesCreated s) (pendingUpdates s).

Definition setCurrentInputTranscriptionRef (x : string) (s : VoiceState)
  : VoiceState :=
  mkVoice (status s) (transcriptions s) (notifications s) (sessionRef s)
    (inputAudioContextRef s) (outputAudioContextRef s) (audioStreamRef s)
    (processorRef s) (nextStartTimeRef s) (audioSourcesRef s)
    x (currentOutputTranscriptionRef s) (sourcesCreated s) (pendingUpdates s).

Definition setCurrentOutputTranscriptionRef (x : string) (s : VoiceState)
  : VoiceState :=
  mkVoice (status s) (transcriptions s) (notifications s) (sessionRef s)
    (inputAudioContextRef s) (outputAudioContextRef s) (audioStreamRef s)
    (processorRef s) (nextStartTimeRef s) (audioSourcesRef s)
    (currentInputTranscriptionRef s) x (sourcesCreated s) (pendingUpdates s).

Definition setSourcesCreated (x : nat) (s : VoiceState) : VoiceState :=
  mkVoice (status s) (transcriptions s) (notifications s) (sessionRef s)
    (inputAudioContextRef s) (outputAudioContextRef s) (audioStreamRef s)
    (processorRef s) (nextStartTimeRef s) (audioSourcesRef s)
    (currentInputTranscriptionRef s) (currentOutputTranscriptionRef s) x
    (pendingUpdates s).

(** ** Server messages *)

(** [inputTranscription] / [outputTranscription]: the optional [text]. *)
Record Transcription : Type := { text : option string }.

(** [fc.args], as far as the handler reads it: the truthiness of [on] and
    the text of [color] (absent, or a string). *)
Record Args : Type := {
  argOn : bool;
  argColor : option string
}.

(** One entry of [toolCall.functionCalls]; [id], [name] and [args] are
    optional. *)
Record FunctionCall : Type := {
  fcId : option string;
  fcName : option string;
  fcArgs : option Args
}.

(** [modelTurn?.parts[0]?.inlineData?.data].  A model turn without [parts]
    makes the expression throw; otherwise the data are absent (or empty), or
    a payload, [d] being the duration of the buffer that [decodeAudioData]
    produces from it. *)
Inductive AudioData : Type :=
| PartsMissing
| NoData
| Payload (d : Q).

(** [message.serverContent]. *)
Record ServerContent : Type := {
  inputTranscription : option Transcription;
  outputTranscription : option Transcription;
  turnComplete : bool;
  modelTurnAudio : AudioData
}.

(** [message.toolCall]; its [functionCalls] are optional. *)
Record ToolCall : Type := { functionCalls : option (list FunctionCall) }.

Record LiveServerMessage : Type := {
  serverContent : option ServerContent;
  toolCall : option ToolCall
}.

(** ** Transcript updaters (the functions handed to [setTranscriptions]) *)

Fixpoint lastTurn (l : list Turn) : option Turn :=
  match l with
  | [] => None
  | [t] => Some t
  | _ :: rest => lastTurn rest
  end.

(** Assignment to a field of [l[l.length - 1]]. *)
Fixpoint updateLast (f : Turn -> Turn) (l : list Turn) : list Turn :=
  match l with
  | [] => []
  | [t] => [f t]
  | t :: rest => t :: updateLast f rest
  end.

Definition withUser (x : string) (t : Turn) : Turn :=
  mkTurn x (model t) (isFinal t).
Definition withModel (x : string) (t : Turn) : Turn :=
  mkTurn (user t) x (isFinal t).
Definition withFinal (x : bool) (t : Turn) : Turn :=
  mkTurn (user t) (model t) x.

(** Lines 123-131; [current] is [currentInputTranscriptionRef.current] as
    the updater finds it when it runs. *)
Definition inputUpdater (current : string) (prev : list Turn) : list Turn :=
  match lastTurn prev with
  | None => prev ++ [mkTurn current "" false]
  | Some t =>
      if isFinal t then prev ++ [mkTurn current "" false]
      else updateLast (withUser current) prev
  end.

(** Lines 136-142; [current] is [currentOutputTranscriptionRef.current] as
    the updater finds it when it runs. *)
Definition outputUpdater (current : string) (prev : list Turn) : list Turn :=
  match prev with
  | [] => prev
  | _ :: _ => updateLast (withModel current) prev
  end.

(** Lines 146-152. *)
Definition completeUpdater (prev : list Turn) : list Turn :=
  match prev with
  | [] => prev
  | _ :: _ => updateLast (withFinal true) prev
  end.

(** One queued update run on [prev] while the accumulators hold [input] and
    [output]. *)
Definition applyUpdate (input output : string) (prev : list Turn) (u : Update)
  : list Turn :=
  match u with
  | ClearTranscript => []
  | InputUpdate => inputUpdater input prev
  | OutputUpdate => outputUpdater output prev
  | CompleteUpdate => completeUpdater prev
  end.

(** A render: React runs the queued updates in the order of issue, each on
    the result of the one before, and the component shows the outcome. *)
Definition render (s : VoiceState) : VoiceState :=
  mkVoice (status s)
    (fold_left
       (applyUpdate (currentInputTranscriptionRef s)
          (currentOutputTranscriptionRef s))
       (pendingUpdates s) (transcriptions s))
    (notifications s) (sessionRef s)
    (inputAudioContextRef s) (outputAudioContextRef s) (audioStreamRef s)
    (processorRef s) (nextStartTimeRef s) (audioSourcesRef s)
    (currentInputTranscriptionRef s) (currentOutputTranscriptionRef s)
    (sourcesCreated s) [].

(** Lines 121-155: the three transcript branches, in program order.  Each
    branch changes its accumulator at once and queues its updater; the
    turn-complete branch queues its updater and then resets both
    accumulators. *)
Definition onInputTranscription (t : Transcription) (s : VoiceState)
  : VoiceState :=
  let current := Js.concatText (currentInputTranscriptionRef s) (text t) in
  setTranscriptions InputUpdate (setCurrentInputTranscriptionRef current s).

Definition onOutputTranscription (t : Transcription) (s : VoiceState)
  : VoiceState :=
  let current := Js.concatText (currentOutputTranscriptionRef s) (text t) in
  setTranscriptions OutputUpdate (setCurrentOutputTranscriptionRef current s).

Definition onTurnComplete (s : VoiceState) : VoiceState :=
  setCurrentOutputTranscriptionRef ""
    (setCurrentInputTranscriptionRef ""
       (setTranscriptions CompleteUpdate s)).

Definition handleTranscripts (c : ServerContent) (s : VoiceState)
  : VoiceState :=
  let s1 := match inputTranscription c with
            | Some t => onInputTranscription t s
            | None => s
            end in
  let s2 := match outputTranscription c with
            | Some t => onOutputTranscription t s1
            | None => s1
            end in
  if turnComplete c then onTurnComplete s2 else s2.

(** ** Playback scheduling *)

(** Line 161, before the decode is awaited: the cursor is clamped to the
    context's current time. *)
Definition clampCursor (now : Q) (s : VoiceState) : VoiceState :=
  setNextStartTimeRef (Qmax (nextStartTimeRef s) now) s.

(** Lines 163-169, once the buffer of duration [d] is decoded: a new source
    is started at the cursor, the cursor advances by [d] and the source joins
    the tracked set. *)
Definition startSource (d : Q) (s : VoiceState) : VoiceState * list Effect :=
  let source := mkSource (sourcesCreated s) (nextStartTimeRef s) d in
  (setAudioSourcesRef (audioSourcesRef s ++ [source])%list
     (setNextStartTimeRef (nextStartTimeRef s + d)%Q
        (setSourcesCreated (S (sourcesCreated s)) s)),
   [SourceStart source]).

(** [source.onended]: the source leaves the tracked set. *)
Definition onSourceEnded (id : nat) (s : VoiceState) : VoiceState :=
  setAudioSourcesRef
    (filter (fun n => negb (sourceId n =? id)) (audioSourcesRef s)) s.

(** ** Tool calls and notifications *)

(** [addNotification]: the message is appended; the timer it arms fires
    later as [onNotificationTimeout]. *)
Definition addNotification (message : string) (s : VoiceState) : VoiceState :=
  setNotifications (fun prev => (prev ++ [message])%list) s.

Definition onNotificationTimeout (s : VoiceState) : VoiceState :=
  setNotifications (fun prev => tl prev) s.

(** [fc.name === 'set_light_state']. *)
Definition isLightCall (fc : FunctionCall) : bool :=
  match fcName fc with
  | Some n => String.eqb n "set_light_state"
  | None => false
  end.

(** Lines 174-186, one pass of the loop.  For a light call without [args]
    the destructuring of line 176 throws a TypeError before anything is done:
    [None]. *)
Definition handleFunctionCall (fc : FunctionCall) (s : VoiceState)
  : option (VoiceState * list Effect) :=
  if isLightCall fc then
    match fcArgs fc with
    | None => None
    | Some args =>
        let colorText := match argColor args with
                         | Some c => if Js.truthy c then " to " ++ c else ""
                         | None => ""
                         end in
        let stateText := if argOn args then "on" else "off" in
        Some (addNotification
                ("Function Call: Turning light " ++ stateText ++ colorText ++ ".")
                s,
              [SendToolResponse (fcId fc) (fcName fc)
                 ("Light turned " ++ stateText ++ ".")])
    end
  else Some (s, [SendToolResponse (fcId fc) (fcName fc) "ok"]).

(** The loop of lines 173-187.  A pass that throws ends the loop and the
    handler: the calls before it have been answered, that call and the ones
    after it are not. *)
Fixpoint handleFunctionCalls (fcs : list FunctionCall) (s : VoiceState)
  : VoiceState * list Effect :=
  match fcs with
  | [] => (s, [])
  | fc :: rest =>
      match handleFunctionCall fc s with
      | None => (s, [UnhandledRejection])
      | Some (s1, e1) =>
          let '(s2, e2) := handleFunctionCalls rest s1 in
          (s2, (e1 ++ e2)%list)
      end
  end.

(** Lines 172-188.  Iterating over absent [functionCalls] throws. *)
Definition handleToolCall (tc : option ToolCall) (s : VoiceState)
  : VoiceState * list Effect :=
  match tc with
  | Some call =>
      match functionCalls call with
      | Some fcs => handleFunctionCalls fcs s
      | None => (s, [UnhandledRejection])
      end
  | None => (s, [])
  end.

(** ** [onmessage], lines 117-189 *)

(** [now] is [outputCtx.currentTime] as read while the message is handled.
    A model turn without parts makes line 157 throw, and a message with
    audio but no output context returns from the handler; in both cases the
    transcript branches have run and the tool calls are not served. *)
Definition onmessage (now : Q) (m : LiveServerMessage) (s : VoiceState)
  : VoiceState * list Effect :=
  match serverContent m with
  | Some c =>
      let s1 := handleTranscripts c s in
      match modelTurnAudio c with
      | PartsMissing => (s1, [UnhandledRejection])
      | Payload d =>
          match outputAudioContextRef s1 with
          | None => (s1, [])
          | Some _ =>
              let '(s2, e2) := startSource d (clampCursor now s1) in
              let '(s3, e3) := handleToolCall (toolCall m) s2 in
              (s3, (e2 ++ e3)%list)
          end
      | NoData => handleToolCall (toolCall m) s1
      end
  | None => handleToolCall (toolCall m) s
  end.

(** ** [stopSession], lines 51-76 *)

Definition stopSession (s : VoiceState) : VoiceState * list Effect :=
  let '(s1, e1) := match sessionRef s with
                   | Some h => (setSessionRef None s, [SessionClose h])
                   | None => (s, [])
                   end in
  let '(s2, e2) := match audioStreamRef s1 with
                   | Some m => (setAudioStreamRef None s1,
                                map TrackStop (tracks m))
                   | None => (s1, [])
                   end in
  let '(s3, e3) := match processorRef s2 with
                   | Some p => (setProcessorRef None s2,
                                [ProcessorDisconnect p])
                   | None => (s2, [])
                   end in
  let '(s4, e4) := match inputAudioContextRef s3 with
                   | Some c => (setInputAudioContextRef None s3,
                                [ContextClose c])
                   | None => (s3, [])
                   end in
  let '(s5, e5) := match outputAudioContextRef s4 with
                   | Some c => (setOutputAudioContextRef None s4,
                                [ContextClose c])
                   | None => (s4, [])
                   end in
  let e6 := map SourceStop (audioSourcesRef s5) in
  let s6 := setAudioSourcesRef [] s5 in
  let s7 := setNextStartTimeRef 0%Q s6 in
  (setStatus IDLE s7, (e1 ++ e2 ++ e3 ++ e4 ++ e5 ++ e6)%list).

(** [onerror] (lines 190-195) and [onclose] (lines 196-199). *)
Definition onerror (message : string) (s : VoiceState)
  : VoiceState * list Effect :=
  stopSession (setStatus ERROR (addNotification ("Error: " ++ message) s)).

Definition onclose (s : VoiceState) : VoiceState * list Effect :=
  stopSession (setStatus CLOSED s).

(** The synchronous head of [startSession], lines 79-80. *)
Definition startSessionBegin (s : VoiceState) : VoiceState :=
  setTranscriptions ClearTranscript (setStatus CONNECTING s).

(** ** Runs *)

(** What can happen to a mounted component.  [Render] is React running the
    queued transcript updates; where it falls among the other events is up
    to React's scheduler. *)
Inductive VoiceEvent : Type :=
| Message (now : Q) (m : LiveServerMessage)
| Stop
| SessionError (message : string)
| SessionClosed
| StartRequested
| SourceEnded (id : nat)
| NotificationTimeout
| Render.

Definition step (ev : VoiceEvent) (s : VoiceState) : VoiceState * list Effect :=
  match ev with
  | Message now m => onmessage now m s
  | Stop => stopSession s
  | SessionError msg => onerror msg s
  | SessionClosed => onclose s
  | StartRequested => (startSessionBegin s, [])
  | SourceEnded id => (onSourceEnded id s, [])
  | NotificationTimeout => (onNotificationTimeout s, [])
  | Render => (render s, [])
  end.

Fixpoint run (evs : list VoiceEvent) (s : VoiceState) : VoiceState :=
  match evs with
  | [] => s
  | ev :: rest => run rest (fst (step ev s))
  end.

(** A render that React may or may not make at some point of a run. *)
Definition rendering (r : bool) : list VoiceEvent :=
  if r then [Render] else [].

(** The three kinds of transcript message used by the properties below. *)
Definition partialInput (t : string) : LiveServerMessage :=
  {| serverContent :=
       Some {| inputTranscription := Some {| text := Some t |};
               outputTranscription := None;
               turnComplete := false; modelTurnAudio := NoData |};
     toolCall := None |}.

Definition partialOutput (t : string) : LiveServerMessage :=
  {| serverContent :=
       Some {| inputTranscription := None;
               outputTranscription := Some {| text := Some t |};
               turnComplete := false; modelTurnAudio := NoData |};
     toolCall := None |}.

Definition turnCompleteMessage : LiveServerMessage :=
  {| serverContent :=
       Some {| inputTranscription := None; outputTranscription := None;
               turnComplete := true; modelTurnAudio := NoData |};
     toolCall := None |}.

Definition audioMessage (d : Q) : LiveServerMessage :=
  {| serverContent :=
       Some {| inputTranscription := None; outputTranscription := None;
               turnComplete := false; modelTurnAudio := Payload d |};
     toolCall := None |}.

(** Number of open (non-final) turns. *)
Definition openTurns (l : list Turn) : nat :=
  List.length (filter (fun t => negb (isFinal t)) l).

(** Every turn but the last is final. *)
Fixpoint sealedButLast (l : list Turn) : bool :=
  match l with
  | [] => true
  | [_] => true
  | t :: rest => isFinal t && sealedButLast rest
  end.

(** The controller at rest: every handle absent, nothing scheduled. *)
Definition atRest (s : VoiceState) : Prop :=
  status s = IDLE /\ sessionRef s = None /\ audioStreamRef s = None /\
  processorRef s = None /\ inputAudioContextRef s = None /\
  outputAudioContextRef s = None /\ audioSourcesRef s = [] /\
  nextStartTimeRef s = 0%Q.

End VoiceAssistant.

(* ===================================================================== *)
(** * Asynchronous code that may throw *)
(* ===================================================================== *)

(** An [async] function over a state [S]: it ends by returning a value or by
    throwing, and what it did to the state before throwing stays done. *)
Module Eff.

Definition M (S A : Type) : Type := S -> (Js.JsError + A) * S.

Definition ret {S A : Type} (a : A) : M S A := fun s => (inr a, s).

Definition throw {S A : Type} (e : Js.JsError) : M S A := fun s => (inl e, s).

Definition bind {S A B : Type} (c : M S A) (k : A -> M S B) : M S B :=
  fun s =>
    match c s with
    | (inr a, s1) => k a s1
    | (inl e, s1) => (inl e, s1)
    end.

(** [try { body } catch (error) { handler error }]. *)
Definition tryCatch {S A : Type} (body : M S A) (handler : Js.JsError -> M S A)
  : M S A :=
  fun s =>
    match body s with
    | (inr a, s1) => (inr a, s1)
    | (inl e, s1) => handler e s1
    end.

(** [try { body } finally { cleanup }] for a cleanup that cannot throw. *)
Definition finally {S A : Type} (body : M S A) (cleanup : S -> S) : M S A :=
  fun s => let '(r, s1) := body s in (r, cleanup s1).

Definition get {S : Type} : M S S := fun s => (inr s, s).

Definition modify {S : Type} (f : S -> S) : M S unit := fun s => (inr tt, f s).

(** [when b c]: [if (b) { c }]. *)
Definition when {S : Type} (b : bool) (c : M S unit) : M S unit :=
  if b then c else ret tt.

End Eff.

Declare Scope eff_scope.
Delimit Scope eff_scope with eff.
Notation "x <- c ;; k" := (Eff.bind c (fun x => k))
  (at level 61, c at next level, right associativity) : eff_scope.
Notation "c ;; k" := (Eff.bind c (fun _ => k))
  (at level 61, right associativity) : eff_scope.

(* ===================================================================== *)
(** * utils/auth.ts *)
(* ===================================================================== *)

Module Auth.
Import Js.

Record StoredUser : Type := mkStoredUser {
  id : string;
  email : string;
  name : option string
}.

(** [user_metadata?.name]: a string, or anything else (absent included). *)
Inductive MetadataValue : Type :=
| MetaString (s : string)
| MetaOther.

(** The provider's user object, as far as [mapUser] reads it. *)
Record ProviderUser : Type := {
  userId : string;
  userEmail : option string;
  metadataName : MetadataValue
}.

(** [{ data: { user }, error }]. *)
Record AuthResponse : Type := {
  dataUser : option ProviderUser;
  authError : option JsError
}.

(** Requests sent to the backend client. *)
Inductive Call : Type :=
| AuthSignUp (email password name : string)
| AuthSignInWithPassword (email password : string)
| ProfilesUpsert (id name : string).

(** The backend client over an external world [W]: each request takes the
    world to a new world and an answer. *)
Record Provider (W : Type) : Type := {
  auth_signUp : string -> string -> string -> W -> AuthResponse * W;
  auth_signInWithPassword : string -> string -> W -> AuthResponse * W;
  profiles_upsert : string -> string -> W -> option JsError * W
}.
Arguments auth_signUp {W}.
Arguments auth_signInWithPassword {W}.
Arguments profiles_upsert {W}.

(** The world together with the requests made so far, oldest first. *)
Record World (W : Type) : Type := mkWorld {
  ext : W;
  calls : list Call
}.
Arguments mkWorld {W}.
Arguments ext {W}.
Arguments calls {W}.

Definition request {W A : Type} (c : Call) (f : W -> A * W)
  : Eff.M (World W) A :=
  fun w => let '(a, x) := f (ext w) in
           (inr a, mkWorld x (calls w ++ [c])%list).

Record SignUpPayload : Type := {
  payloadName : string;
  payloadEmail : string;
  payloadPassword : string
}.

Record SignInPayload : Type := {
  signInEmail : string;
  signInPassword : string
}.

(** Lines 82-89. *)
Definition mapUser (user : ProviderUser) : StoredUser :=
  {| id := userId user;
     email := match userEmail user with Some e => e | None => "" end;
     name := match metadataName user with
             | MetaString s => Some s
             | MetaOther => None
             end |}.

Local Open Scope eff_scope.

(** Lines 9-40. *)
Definition signUp {W : Type} (p : Provider W) (payload : SignUpPayload)
  : Eff.M (World W) StoredUser :=
  r <- request (AuthSignUp (payloadEmail payload) (payloadPassword payload)
                  (payloadName payload))
         (auth_signUp p (payloadEmail payload) (payloadPassword payload)
            (payloadName payload)) ;;
  match authError r with
  | Some error => Eff.throw error
  | None =>
      match dataUser r with
      | None =>
          Eff.throw (ErrorObj "Sign up succeeded but no user was returned.")
      | Some user =>
          Eff.when (truthy (payloadName payload))
            (profileError <-
               request (ProfilesUpsert (userId user) (payloadName payload))
                 (profiles_upsert p (userId user) (payloadName payload)) ;;
             match profileError with
             | Some e => Eff.throw e
             | None => Eff.ret tt
             end) ;;
          Eff.ret (mapUser user)
      end
  end.

(** Lines 42-58. *)
Definition signIn {W : Type} (p : Provider W) (payload : SignInPayload)
  : Eff.M (World W) StoredUser :=
  r <- request (AuthSignInWithPassword (signInEmail payload)
                  (signInPassword payload))
         (auth_signInWithPassword p (signInEmail payload)
            (signInPassword payload)) ;;
  match authError r with
  | Some error => Eff.throw error
  | None =>
      match dataUser r with
      | None => Eff.throw (ErrorObj "Login failed. Please try again.")
      | Some user => Eff.ret (mapUser user)
      end
  end.

End Auth.

(* ===================================================================== *)
(** * App.tsx *)
(* ===================================================================== *)

Module App.
Import Js.

Definition DEFAULT_CONVERSATION_TITLE : string := "New chat".

Record Conversation : Type := mkConversation {
  id : string;
  title : string;
  created_at : string
}.

Inductive AuthMode : Type := login | signup.

(** The [useState] cells of the component that the handlers below touch. *)
Record AppState : Type := mkApp {
  user : option Auth.StoredUser;
  authMode : option AuthMode;
  isSidebarOpen : bool;
  conversations : list Conversation;
  activeConversationId : option string
}.

Definition setUser (x : option Auth.StoredUser) (a : AppState) : AppState :=
  mkApp x (authMode a) (isSidebarOpen a) (conversations a)
    (activeConversationId a).
Definition setAuthMode (x : option AuthMode) (a : AppState) : AppState :=
  mkApp (user a) x (isSidebarOpen a) (conversations a)
    (activeConversationId a).
Definition setIsSidebarOpen (x : bool) (a : AppState) : AppState :=
  mkApp (user a) (authMode a) x (conversations a) (activeConversationId a).
Definition setConversations (f : list Conversation -> list Conversation)
           (a : AppState) : AppState :=
  mkApp (user a) (authMode a) (isSidebarOpen a) (f (conversations a))
    (activeConversationId a).
Definition setActiveConversationId (x : option string) (a : AppState)
  : AppState :=
  mkApp (user a) (authMode a) (isSidebarOpen a) (conversations a) x.

(** Requests sent to the [conversations] table. *)
Inductive Call : Type :=
| ConversationsInsert (userId title : string)
| ConversationsUpdateTitle (conversationId title : string).

(** Lines 350-356. *)
Definition generateTitleFromMessage (message : string) : string :=
  let cleaned := trim (replaceSpaceRuns false message) in
  if negb (truthy cleaned) then DEFAULT_CONVERSATION_TITLE
  else
    let words := join " " (firstn 6 (split " " cleaned)) in
    let capitalized := toUpperCase (charAt0 words) ++ slice1 words in
    capitalized ++
      (if 6 <? List.length (split " " cleaned) then ellipsis else "").

Definition withTitle (x : string) (c : Conversation) : Conversation :=
  mkConversation (id c) x (created_at c).

(** Lines 140-154.  The guard reads [conversations] through the closure of
    the handler: [rendered] is the list of the render that created the
    handler, which an update made since then has not reached.  The write goes
    through the updater's [prev], the list as it stands.  The table update
    may fail; the failure is logged and changes nothing here. *)
Definition updateConversationTitle (rendered : list Conversation)
           (conversationId firstMessage : string)
           (a : AppState) : AppState * list Call :=
  match find (fun conv => String.eqb (id conv) conversationId)
             rendered with
  | None => (a, [])
  | Some conversation =>
      if negb (String.eqb (title conversation) DEFAULT_CONVERSATION_TITLE)
      then (a, [])
      else
        let cleanedTitle := generateTitleFromMessage firstMessage in
        (setConversations
           (map (fun conv => if String.eqb (id conv) conversationId
                             then withTitle cleanedTitle conv else conv)) a,
         [ConversationsUpdateTitle conversationId cleanedTitle])
  end.

(** Lines 320-324: the [onFirstUserMessage] handler that the render showing
    [rendered] gives to the chat; it reads the active id and the
    conversations of that render. *)
Definition onFirstUserMessage (rendered : AppState) (content : string)
           (a : AppState) : AppState * list Call :=
  match activeConversationId rendered with
  | Some conversationId =>
      if truthy conversationId
      then updateConversationTitle (conversations rendered) conversationId
             content a
      else (a, [])
  | None => (a, [])
  end.

(** Lines 335-348 and 121-133: [created] is the row the table answers with,
    [None] when the insert reports an error. *)
Definition handleCreateConversation (created : option Conversation)
           (a : AppState) : AppState * list Call :=
  match user a with
  | None => (a, [])
  | Some u =>
      (match created with
       | Some c =>
           setIsSidebarOpen false
             (setActiveConversationId (Some (id c))
                (setConversations (fun prev => c :: prev) a))
       | None => a
       end,
       [ConversationsInsert (Auth.id u) DEFAULT_CONVERSATION_TITLE])
  end.

(** The form payload: [name] is optional. *)
Record AuthPayload : Type := {
  payloadName : option string;
  payloadEmail : string;
  payloadPassword : string
}.

(** The component state next to the backend world. *)
Record Sys (W : Type) : Type := mkSys {
  app : AppState;
  world : Auth.World W
}.
Arguments mkSys {W}.
Arguments app {W}.
Arguments world {W}.

(** An adapter call run against the world part of the system. *)
Definition liftAuth {W A : Type} (c : Eff.M (Auth.World W) A)
  : Eff.M (Sys W) A :=
  fun s => let '(r, w) := c (world s) in (r, mkSys (app s) w).

Definition modifyApp {W : Type} (f : AppState -> AppState)
  : Eff.M (Sys W) unit :=
  Eff.modify (fun s => mkSys (f (app s)) (world s)).

Local Open Scope eff_scope.

(** Lines 83-106. *)
Definition handleAuthenticate {W : Type} (p : Auth.Provider W)
           (payload : AuthPayload) : Eff.M (Sys W) unit :=
  s <- Eff.get ;;
  match authMode (app s) with
  | None => Eff.ret tt
  | Some mode =>
      match mode with
      | signup =>
          match payloadName payload with
          | Some n =>
              if truthy n then
                signedUpUser <-
                  liftAuth (Auth.signUp p
                              {| Auth.payloadName := n;
                                 Auth.payloadEmail := payloadEmail payload;
                                 Auth.payloadPassword :=
                                   payloadPassword payload |}) ;;
                modifyApp (setUser (Some signedUpUser))
              else
                Eff.throw (ErrorObj
                  "Please share your name so we can personalize your study space.")
          | None =>
              Eff.throw (ErrorObj
                "Please share your name so we can personalize your study space.")
          end
      | login =>
          signedInUser <-
            liftAuth (Auth.signIn p
                        {| Auth.signInEmail := payloadEmail payload;
                           Auth.signInPassword := payloadPassword payload |}) ;;
          modifyApp (setUser (Some signedInUser))
      end ;;
      modifyApp (setAuthMode None) ;;
      modifyApp (setIsSidebarOpen false)
  end.

End App.

(* ===================================================================== *)
(** * types.ts and components/ChatBot.tsx *)
(* ===================================================================== *)

Module ChatBot.
Import Js.

(** ** Data *)

(** A browser [File], as far as the component reads it. *)
Module File.
Record t : Type := mk { name : string; type : string; size : Z }.
End File.

Module PendingAttachment.
Record t : Type := mk { file : File.t; previewUrl : string }.
End PendingAttachment.

Module PersistedAttachment.
Record t : Type := mk {
  name : string;
  type : string;
  size : Z;
  storagePath : string
}.
End PersistedAttachment.

Module ChatAttachment.
Record t : Type := mk {
  name : string;
  url : string;
  type : string;
  size : Z;
  storagePath : option string
}.
End ChatAttachment.

Module ChatMessage.
Inductive Role : Type := user | model.
Record t : Type := mk {
  role : Role;
  content : string;
  attachments : option (list ChatAttachment.t)
}.
End ChatMessage.

(** The environment default of [ATTACHMENT_BUCKET]. *)
Definition ATTACHMENT_BUCKET : string := "chat-attachments".
Definition SIGNED_URL_TTL_SECONDS : Z := 60 * 60 * 24.

(** A row written to the [messages] table. *)
Record MessageRow : Type := {
  rowUserId : option string;
  rowRole : ChatMessage.Role;
  rowContent : string;
  rowAttachments : option (list PersistedAttachment.t)
}.

(** A row read back from it: [entryAttachments] is [Some] when the stored
    value is an array. *)
Record Entry : Type := {
  entryRole : ChatMessage.Role;
  entryContent : string;
  entryAttachments : option (list PersistedAttachment.t)
}.

(** [{ data, error }] of a select. *)
Record SelectResponse : Type := {
  selectData : option (list Entry);
  selectError : option JsError
}.

(** [{ data, error }] of [createSignedUrl]; [signedUrl] is [data?.signedUrl]. *)
Record SignedUrlResponse : Type := {
  signedUrl : option string;
  signedError : option JsError
}.

(** Calls that leave the component, in program order. *)
Inductive Call : Type :=
| DateNow
| StorageUpload (bucket path : string) (file : File.t)
| StorageCreateSignedUrl (bucket path : string) (ttl : Z)
| MessagesInsert (row : MessageRow)
| MessagesSelect (userId : string)
| ChatSendMessage (prompt : string)
| RevokeObjectURL (url : string).

(** The hosted services over an external world [W]. *)
Record Services (W : Type) : Type := {
  date_now : W -> Z * W;
  storage_upload : string -> string -> File.t -> W -> option JsError * W;
  storage_createSignedUrl : string -> string -> Z -> W -> SignedUrlResponse * W;
  messages_insert : MessageRow -> W -> unit * W;
  messages_select : string -> W -> SelectResponse * W;
  chat_sendMessage : string -> W -> (JsError + string) * W
}.
Arguments date_now {W}.
Arguments storage_upload {W}.
Arguments storage_createSignedUrl {W}.
Arguments messages_insert {W}.
Arguments messages_select {W}.
Arguments chat_sendMessage {W}.

(** The component's props. *)
Record ChatBotProps : Type := {
  hasMemory : bool;
  userName : option string;
  userId : option string
}.

(** The [useState] cells and the chat ref. *)
Record ChatState : Type := mkChat {
  messages : list ChatMessage.t;
  input : string;
  isLoading : bool;
  isHistoryLoading : bool;
  pendingAttachments : list PendingAttachment.t;
  chatRef : option nat
}.

Definition setMessages (f : list ChatMessage.t -> list ChatMessage.t)
           (c : ChatState) : ChatState :=
  mkChat (f (messages c)) (input c) (isLoading c) (isHistoryLoading c)
    (pendingAttachments c) (chatRef c).
Definition setInput (x : string) (c : ChatState) : ChatState :=
  mkChat (messages c) x (isLoading c) (isHistoryLoading c)
    (pendingAttachments c) (chatRef c).
Definition setIsLoading (x : bool) (c : ChatState) : ChatState :=
  mkChat (messages c) (input c) x (isHistoryLoading c)
    (pendingAttachments c) (chatRef c).
Definition setPendingAttachments (x : list PendingAttachment.t)
           (c : ChatState) : ChatState :=
  mkChat (messages c) (input c) (isLoading c) (isHistoryLoading c) x
    (chatRef c).

(** The component next to the world and the calls made so far. *)
Record Sys (W : Type) : Type := mkSys {
  comp : ChatState;
  ext : W;
  calls : list Call
}.
Arguments mkSys {W}.
Arguments comp {W}.
Arguments ext {W}.
Arguments calls {W}.

Definition request {W A : Type} (c : Call) (f : W -> A * W)
  : Eff.M (Sys W) A :=
  fun s => let '(a, x) := f (ext s) in
           (inr a, mkSys (comp s) x (calls s ++ [c])%list).

(** A call with no answer, such as [URL.revokeObjectURL]. *)
Definition perform {W : Type} (c : Call) : Eff.M (Sys W) unit :=
  fun s => (inr tt, mkSys (comp s) (ext s) (calls s ++ [c])%list).

Definition modifyComp {W : Type} (f : ChatState -> ChatState)
  : Eff.M (Sys W) unit :=
  Eff.modify (fun s => mkSys (f (comp s)) (ext s) (calls s)).

(** Line 97. *)
Definition canPersistConversation (props : ChatBotProps) : bool :=
  hasMemory props && truthyOpt (userId props).

Local Open Scope eff_scope.

(** ** [fetchHistory], lines 99-154 *)

(** Lines 121-142: one attachment of a stored message. *)
Definition resolveAttachment {W : Type} (svc : Services W)
           (attachment : PersistedAttachment.t)
  : Eff.M (Sys W) ChatAttachment.t :=
  signed <- request
              (StorageCreateSignedUrl ATTACHMENT_BUCKET
                 (PersistedAttachment.storagePath attachment)
                 SIGNED_URL_TTL_SECONDS)
              (storage_createSignedUrl svc ATTACHMENT_BUCKET
                 (PersistedAttachment.storagePath attachment)
                 SIGNED_URL_TTL_SECONDS) ;;
  match signedError signed, signedUrl signed with
  | None, Some u =>
      if truthy u then
        Eff.ret (ChatAttachment.mk (PersistedAttachment.name attachment) u
                   (PersistedAttachment.type attachment)
                   (PersistedAttachment.size attachment)
                   (Some (PersistedAttachment.storagePath attachment)))
      else
        Eff.ret (ChatAttachment.mk (PersistedAttachment.name attachment) "#"
                   (PersistedAttachment.type attachment)
                   (PersistedAttachment.size attachment)
                   (Some (PersistedAttachment.storagePath attachment)))
  | _, _ =>
      Eff.ret (ChatAttachment.mk (PersistedAttachment.name attachment) "#"
                 (PersistedAttachment.type attachment)
                 (PersistedAttachment.size attachment)
                 (Some (PersistedAttachment.storagePath attachment)))
  end.

(** Lines 120-143: [Promise.all] over the mapped attachments; the requests
    are issued in list order and the results keep that order. *)
Fixpoint resolveAttachments {W : Type} (svc : Services W)
         (persisted : list PersistedAttachment.t)
  : Eff.M (Sys W) (list ChatAttachment.t) :=
  match persisted with
  | [] => Eff.ret []
  | attachment :: rest =>
      a <- resolveAttachment svc attachment ;;
      others <- resolveAttachments svc rest ;;
      Eff.ret (a :: others)
  end.

(** Lines 116-151: one pass of the loop over the rows. *)
Definition resolveEntry {W : Type} (svc : Services W) (entry : Entry)
  : Eff.M (Sys W) ChatMessage.t :=
  attachments <-
    match entryAttachments entry with
    | Some persisted =>
        resolved <- resolveAttachments svc persisted ;;
        Eff.ret (Some resolved)
    | None => Eff.ret None
    end ;;
  Eff.ret (ChatMessage.mk (entryRole entry) (entryContent entry) attachments).

Fixpoint resolveEntries {W : Type} (svc : Services W) (data : list Entry)
  : Eff.M (Sys W) (list ChatMessage.t) :=
  match data with
  | [] => Eff.ret []
  | entry :: rest =>
      m <- resolveEntry svc entry ;;
      others <- resolveEntries svc rest ;;
      Eff.ret (m :: others)
  end.

(** Lines 99-154. *)
Definition fetchHistory {W : Type} (svc : Services W) (currentUserId : string)
  : Eff.M (Sys W) (list ChatMessage.t) :=
  r <- request (MessagesSelect currentUserId)
         (messages_select svc currentUserId) ;;
  match selectError r with
  | Some error => Eff.throw error
  | None =>
      match selectData r with
      | None => Eff.ret []
      | Some data => resolveEntries svc data
      end
  end.

(** ** [uploadAttachments], lines 174-227 *)

(** [name.replace(/[^a-zA-Z0-9.\-]/g, '_')]. *)
Definition keptInName (c : ascii) : bool :=
  let n := nat_of_ascii c in
  ((97 <=? n) && (n <=? 122)) || ((65 <=? n) && (n <=? 90)) ||
  ((48 <=? n) && (n <=? 57)) || (n =? 46) || (n =? 45).

Fixpoint sanitizeName (s : string) : string :=
  match s with
  | EmptyString => EmptyString
  | String c rest =>
      String (if keptInName c then c else "_"%char) (sanitizeName rest)
  end.

(** Line 186. *)
Definition storagePathFor (userId : string) (timestamp : Z) (index : nat)
           (fileName : string) : string :=
  userId ++ "/" ++ numberToString timestamp ++ "-" ++
  numberToString (Z.of_nat index) ++ "-" ++ sanitizeName fileName.

Definition persistedOf (storagePath : string) (f : File.t)
  : PersistedAttachment.t :=
  PersistedAttachment.mk (File.name f) (File.type f) (File.size f) storagePath.

Definition displayOf (storagePath url : string) (f : File.t)
  : ChatAttachment.t :=
  ChatAttachment.mk (File.name f) url (File.type f) (File.size f)
    (Some storagePath).

(** Lines 184-220: one pass of the loop, for the attachment at [index]. *)
Definition uploadOne {W : Type} (svc : Services W) (userId : string)
           (timestamp : Z) (index : nat) (pending : PendingAttachment.t)
  : Eff.M (Sys W) (PersistedAttachment.t * ChatAttachment.t) :=
  let f := PendingAttachment.file pending in
  let storagePath := storagePathFor userId timestamp index (File.name f) in
  uploadError <- request (StorageUpload ATTACHMENT_BUCKET storagePath f)
                   (storage_upload svc ATTACHMENT_BUCKET storagePath f) ;;
  match uploadError with
  | Some e => Eff.throw e
  | None =>
      signed <- request
                  (StorageCreateSignedUrl ATTACHMENT_BUCKET storagePath
                     SIGNED_URL_TTL_SECONDS)
                  (storage_createSignedUrl svc ATTACHMENT_BUCKET storagePath
                     SIGNED_URL_TTL_SECONDS) ;;
      match signedError signed, signedUrl signed with
      | None, Some u =>
          if truthy u
          then Eff.ret (persistedOf storagePath f, displayOf storagePath u f)
          else Eff.throw
                 (ErrorObj "Failed to generate download link for an attachment.")
      | None, None =>
          Eff.throw
            (ErrorObj "Failed to generate download link for an attachment.")
      | Some e, _ => Eff.throw e
      end
  end.

(** Lines 183-221: the loop over [pendingAttachments.entries()], from
    [index] on.  The two arrays are filled in step, so they are kept as one
    list of pairs. *)
Fixpoint uploadFrom {W : Type} (svc : Services W) (userId : string)
         (timestamp : Z) (index : nat) (pending : list PendingAttachment.t)
  : Eff.M (Sys W) (list (PersistedAttachment.t * ChatAttachment.t)) :=
  match pending with
  | [] => Eff.ret []
  | item :: rest =>
      pair <- uploadOne svc userId timestamp index item ;;
      others <- uploadFrom svc userId timestamp (S index) rest ;;
      Eff.ret (pair :: others)
  end.

Fixpoint revokeAll {W : Type} (items : list PendingAttachment.t)
  : Eff.M (Sys W) unit :=
  match items with
  | [] => Eff.ret tt
  | item :: rest =>
      perform (RevokeObjectURL (PendingAttachment.previewUrl item)) ;;
      revokeAll rest
  end.

(** The value returned: [persisted] and [display] are the two components of
    the pairs. *)
Record Uploaded : Type := {
  persisted : list PersistedAttachment.t;
  display : list ChatAttachment.t
}.

(** Lines 174-227.  The [extension] computed on line 184 is never used. *)
Definition uploadAttachments {W : Type} (svc : Services W)
           (props : ChatBotProps) : Eff.M (Sys W) Uploaded :=
  match userId props with
  | None => Eff.throw (ErrorObj "Please sign in to share files.")
  | Some uid =>
      if negb (truthy uid)
      then Eff.throw (ErrorObj "Please sign in to share files.")
      else
        timestamp <- request DateNow (date_now svc) ;;
        s <- Eff.get ;;
        pairs <- uploadFrom svc uid timestamp 0 (pendingAttachments (comp s)) ;;
        revokeAll (pendingAttachments (comp s)) ;;
        modifyComp (setPendingAttachments []) ;;
        Eff.ret {| persisted := map fst pairs; display := map snd pairs |}
  end.

(** ** [handleSendMessage], lines 229-303 *)

(** [Math.round(size / 1024)] for an integer [size]. *)
Definition roundKB (size : Z) : Z := ((size + 512) / 1024)%Z.

Definition newline : string := String (ascii_of_nat 10) EmptyString.

(** Lines 269-271. *)
Definition attachmentSummary (atts : list ChatAttachment.t) : string :=
  join newline
    (map (fun att => "- " ++ ChatAttachment.name att ++ " (" ++
                     numberToString (roundKB (ChatAttachment.size att)) ++
                     " KB)") atts).

(** Lines 273-275. *)
Definition promptFor (trimmedInput : string)
           (attachmentsForDisplay : option (list ChatAttachment.t)) : string :=
  orElse trimmedInput "Review the files I just shared." ++
  match attachmentsForDisplay with
  | Some atts =>
      if truthy (attachmentSummary atts)
      then newline ++ newline ++ "Attachments:" ++ newline ++
           attachmentSummary atts
      else ""
  | None => ""
  end.

(** Lines 239-292: the body of the [try]. *)
Definition sendBody {W : Type} (svc : Services W) (props : ChatBotProps)
           (trimmedInput : string) : Eff.M (Sys W) unit :=
  s <- Eff.get ;;
  uploaded <-
    match pendingAttachments (comp s) with
    | [] => Eff.ret None
    | _ :: _ =>
        if negb (canPersistConversation props)
        then Eff.throw
               (ErrorObj
                  "Please sign in to upload files and keep them in your chat history.")
        else u <- uploadAttachments svc props ;; Eff.ret (Some u)
    end ;;
  let attachmentsForDisplay := option_map display uploaded in
  let attachmentsForStorage := option_map persisted uploaded in
  let userMessage :=
    ChatMessage.mk ChatMessage.user
      (orElse trimmedInput "Shared attachments.") attachmentsForDisplay in
  modifyComp (setMessages (fun prev => (prev ++ [userMessage])%list)) ;;
  modifyComp (setInput "") ;;
  Eff.when (canPersistConversation props)
    (request
       (MessagesInsert
          {| rowUserId := userId props; rowRole := ChatMessage.user;
             rowContent := ChatMessage.content userMessage;
             rowAttachments := attachmentsForStorage |})
       (messages_insert svc
          {| rowUserId := userId props; rowRole := ChatMessage.user;
             rowContent := ChatMessage.content userMessage;
             rowAttachments := attachmentsForStorage |})) ;;
  let prompt := promptFor trimmedInput attachmentsForDisplay in
  response <- request (ChatSendMessage prompt) (chat_sendMessage svc prompt) ;;
  match response with
  | inl e => Eff.throw e
  | inr responseText =>
      let assistantMessage :=
        ChatMessage.mk ChatMessage.model responseText None in
      modifyComp (setMessages (fun prev => (prev ++ [assistantMessage])%list)) ;;
      Eff.when (canPersistConversation props)
        (request
           (MessagesInsert
              {| rowUserId := userId props; rowRole := ChatMessage.model;
                 rowContent := responseText; rowAttachments := None |})
           (messages_insert svc
              {| rowUserId := userId props; rowRole := ChatMessage.model;
                 rowContent := responseText; rowAttachments := None |}))
  end.

(** Lines 293-299: the [catch]. *)
Definition sendCatch {W : Type} (error : JsError) : Eff.M (Sys W) unit :=
  let errorMessage :=
    ChatMessage.mk ChatMessage.model
      (match error with
       | ErrorObj message => message
       | Thrown _ =>
           "I'm having trouble responding right now. Please try again later."
       end) None in
  modifyComp (setMessages (fun prev => (prev ++ [errorMessage])%list)).

(** Lines 229-303.  [event.preventDefault()] touches the form event only. *)
Definition handleSendMessage {W : Type} (svc : Services W)
           (props : ChatBotProps) : Eff.M (Sys W) unit :=
  s <- Eff.get ;;
  let trimmedInput := trim (input (comp s)) in
  if negb (truthy trimmedInput) &&
     (List.length (pendingAttachments (comp s)) =? 0)
  then Eff.ret tt
  else if isLoading (comp s) || negb (match chatRef (comp s) with
                                      | Some _ => true
                                      | None => false
                                      end)
  then Eff.ret tt
  else
    modifyComp (setIsLoading true) ;;
    Eff.finally
      (Eff.tryCatch (sendBody svc props trimmedInput) sendCatch)
      (fun s1 => mkSys (setIsLoading false (comp s1)) (ext s1) (calls s1)).

End ChatBot.

(* ===================================================================== *)
(** * Vocabulary and sample providers for the sign-up adapter *)
(* ===================================================================== *)

Module AuthSpec.
Import Js Auth.

(** The world after the sign-up request has been answered. *)
Definition afterSignUp {W : Type} (p : Provider W) (payload : SignUpPayload)
           (w : World W) : World W :=
  mkWorld
    (snd (auth_signUp p (payloadEmail payload) (payloadPassword payload)
            (payloadName payload) (ext w)))
    (calls w ++ [AuthSignUp (payloadEmail payload) (payloadPassword payload)
                   (payloadName payload)])%list.

(** The provider's answer to the sign-up request. *)
Definition signUpAnswer {W : Type} (p : Provider W) (payload : SignUpPayload)
           (w : World W) : AuthResponse :=
  fst (auth_signUp p (payloadEmail payload) (payloadPassword payload)
         (payloadName payload) (ext w)).

(** A provider that rejects every sign-up, and one that answers nothing. *)
Definition rejecting : Provider unit :=
  {| auth_signUp := fun _ _ _ w =>
       ({| dataUser := None; authError := Some (Thrown "User already registered") |}, w);
     auth_signInWithPassword := fun _ _ w =>
       ({| dataUser := None; authError := Some (Thrown "Invalid login") |}, w);
     profiles_upsert := fun _ _ w => (None, w) |}.

Definition silent : Provider unit :=
  {| auth_signUp := fun _ _ _ w =>
       ({| dataUser := None; authError := None |}, w);
     auth_signInWithPassword := fun _ _ w =>
       ({| dataUser := None; authError := None |}, w);
     profiles_upsert := fun _ _ w => (None, w) |}.

Definition ada : SignUpPayload :=
  {| payloadName := "Ada"; payloadEmail := "ada@example.org";
     payloadPassword := "secret" |}.

End AuthSpec.

(* ===================================================================== *)
(** * Vocabulary and sample states for the application shell *)
(* ===================================================================== *)

Module AppSpec.
Import Js App.

Definition studyMessage : string :=
  "Can you help me study for my biology exam tomorrow please".

(** The first six words of [studyMessage], with the ellipsis. *)
Definition studyTitle : string := "Can you help me study for" ++ ellipsis.

(** A signed-in user with no conversation yet, and the row the table returns
    for a new conversation. *)
Definition signedIn : AppState :=
  {| user := Some {| Auth.id := "u1"; Auth.email := "ada@example.org";
                     Auth.name := Some "Ada" |};
     authMode := None; isSidebarOpen := false;
     conversations := []; activeConversationId := None |}.

Definition freshRow : Conversation :=
  mkConversation "c1" DEFAULT_CONVERSATION_TITLE "2025-01-01T00:00:00Z".

Definition freshlyCreated : AppState :=
  fst (handleCreateConversation (Some freshRow) signedIn).

End AppSpec.

(* ===================================================================== *)
(** * Vocabulary and sample backends for the chat component *)
(* ===================================================================== *)

Module ChatBotSpec.
Import Js ChatBot.

Definition lostPdf : PersistedAttachment.t :=
  PersistedAttachment.mk "lost.pdf" "application/pdf" 2048 "u1/old/lost.pdf".

Definition keptPng : PersistedAttachment.t :=
  PersistedAttachment.mk "kept.png" "image/png" 4096 "u1/old/kept.png".

Definition storedRows : list Entry :=
  [ {| entryRole := ChatMessage.user; entryContent := "See my notes";
       entryAttachments := Some [lostPdf; keptPng] |};
    {| entryRole := ChatMessage.model; entryContent := "Thanks";
       entryAttachments := None |} ].

(** The world counts the requests it has answered.  Uploads succeed; a
    signed URL is granted for every path but "u1/old/lost.pdf". *)
Definition cloud : Services nat :=
  {| date_now := fun w => (1700000000000%Z, S w);
     storage_upload := fun _ _ _ w => (None, S w);
     storage_createSignedUrl := fun _ path _ w =>
       (if String.eqb path "u1/old/lost.pdf"
        then {| signedUrl := None;
                signedError := Some (ErrorObj "Object not found") |}
        else {| signedUrl := Some ("https://cdn.example/" ++ path);
                signedError := None |},
        S w);
     messages_insert := fun _ w => (tt, S w);
     messages_select := fun _ w =>
       ({| selectData := Some storedRows; selectError := None |}, S w);
     chat_sendMessage := fun prompt w => (inr ("Echo: " ++ prompt), S w) |}.

Definition ada : ChatBotProps :=
  {| hasMemory := true; userName := Some "Ada Lovelace"; userId := Some "u1" |}.

Definition ready : ChatState :=
  {| messages := [ChatMessage.mk ChatMessage.model "Hello Ada!" None];
     input := ""; isLoading := false; isHistoryLoading := false;
     pendingAttachments := []; chatRef := Some 0 |}.

(** [signedError || !signed?.signedUrl]. *)
Definition signingFailed (r : SignedUrlResponse) : bool :=
  match signedError r, signedUrl r with
  | None, Some u => negb (truthy u)
  | _, _ => true
  end.

(** The answer to the signing request for a stored attachment. *)
Definition signingAnswer {W : Type} (svc : Services W)
           (a : PersistedAttachment.t) (s : Sys W) : SignedUrlResponse :=
  fst (storage_createSignedUrl svc ATTACHMENT_BUCKET
         (PersistedAttachment.storagePath a) SIGNED_URL_TTL_SECONDS (ext s)).

(** The state after that request. *)
Definition afterSigning {W : Type} (svc : Services W)
           (a : PersistedAttachment.t) (s : Sys W) : Sys W :=
  mkSys (comp s)
    (snd (storage_createSignedUrl svc ATTACHMENT_BUCKET
            (PersistedAttachment.storagePath a) SIGNED_URL_TTL_SECONDS (ext s)))
    (calls s ++ [StorageCreateSignedUrl ATTACHMENT_BUCKET
                   (PersistedAttachment.storagePath a)
                   SIGNED_URL_TTL_SECONDS])%list.

(** The display form of a stored attachment with the given URL. *)
Definition shownAs (a : PersistedAttachment.t) (u : string) : ChatAttachment.t :=
  ChatAttachment.mk (PersistedAttachment.name a) u
    (PersistedAttachment.type a) (PersistedAttachment.size a)
    (Some (PersistedAttachment.storagePath a)).

(** A display attachment that comes from a stored one. *)
Definition resolvedFrom (a : PersistedAttachment.t) (c : ChatAttachment.t)
  : Prop :=
  exists u, c = shownAs a u.

(** A message that comes from a stored row. *)
Definition messageFrom (e : Entry) (m : ChatMessage.t) : Prop :=
  ChatMessage.role m = entryRole e /\
  ChatMessage.content m = entryContent e /\
  match entryAttachments e with
  | None => ChatMessage.attachments m = None
  | Some persisted =>
      exists atts, ChatMessage.attachments m = Some atts /\
                   Forall2 resolvedFrom persisted atts
  end.

(** The pairs that a complete upload yields for [pending], numbered from
    [index], when the signed URLs are [urls]. *)
Fixpoint expectedPairs (uid : string) (timestamp : Z) (index : nat)
         (pending : list PendingAttachment.t) (urls : list string)
  : list (PersistedAttachment.t * ChatAttachment.t) :=
  match pending, urls with
  | item :: rest, u :: us =>
      let f := PendingAttachment.file item in
      let path := storagePathFor uid timestamp index (File.name f) in
      (persistedOf path f, displayOf path u f)
        :: expectedPairs uid timestamp (S index) rest us
  | _, _ => []
  end.

(** The answers that decide one pass of the loop. *)
Definition uploadAnswer {W : Type} (svc : Services W) (path : string)
           (f : File.t) (s : Sys W) : option JsError :=
  fst (storage_upload svc ATTACHMENT_BUCKET path f (ext s)).

Definition signAnswerAfterUpload {W : Type} (svc : Services W) (path : string)
           (f : File.t) (s : Sys W) : SignedUrlResponse :=
  fst (storage_createSignedUrl svc ATTACHMENT_BUCKET path
         SIGNED_URL_TTL_SECONDS
         (snd (storage_upload svc ATTACHMENT_BUCKET path f (ext s)))).

(** The attachment at [index] fails with [e]: its upload is refused with
    [e], or it is uploaded and the signing fails, [e] being the signing
    error or, without one, the component's own error. *)
Definition failsWith {W : Type} (svc : Services W) (uid : string)
           (timestamp : Z) (index : nat) (item : PendingAttachment.t)
           (s : Sys W) (e : JsError) : Prop :=
  let f := PendingAttachment.file item in
  let path := storagePathFor uid timestamp index (File.name f) in
  uploadAnswer svc path f s = Some e \/
  (uploadAnswer svc path f s = None /\
   signingFailed (signAnswerAfterUpload svc path f s) = true /\
   e = match signedError (signAnswerAfterUpload svc path f s) with
       | Some e' => e'
       | None => ErrorObj "Failed to generate download link for an attachment."
       end).

(** The state in which the loop starts: the clock has been read. *)
Definition afterClock {W : Type} (svc : Services W) (s : Sys W) : Sys W :=
  mkSys (comp s) (snd (date_now svc (ext s))) (calls s ++ [DateNow])%list.

(** Two staged files, and a backend whose storage refuses the second
    upload. *)
Definition notesPdf : File.t := File.mk "notes.pdf" "application/pdf" 2048.
Definition photoPng : File.t := File.mk "my photo.png" "image/png" 300000.

Definition staged : ChatState :=
  setPendingAttachments
    [ PendingAttachment.mk notesPdf "blob:preview-1";
      PendingAttachment.mk photoPng "blob:preview-2" ] ready.

Definition fullStorage : Services nat :=
  {| date_now := date_now cloud;
     storage_upload := fun _ path _ w =>
       (if String.eqb path "u1/1700000000000-1-my_photo.png"
        then Some (ErrorObj "Quota exceeded") else None, S w);
     storage_createSignedUrl := storage_createSignedUrl cloud;
     messages_insert := messages_insert cloud;
     messages_select := messages_select cloud;
     chat_sendMessage := chat_sendMessage cloud |}.

(** ** The storage's answers along an upload

    The loop asks the storage for an upload and then for a signed URL, one
    attachment after the other.  The world in which the requests of an
    attachment are answered is the one that the requests before them have
    left. *)

Section UploadAnswers.
Context {W : Type} (svc : Services W) (uid : string) (timestamp : Z).

Definition pathAt (index : nat) (item : PendingAttachment.t) : string :=
  storagePathFor uid timestamp index (File.name (PendingAttachment.file item)).

(** The answer to the upload of the attachment at [index], asked in [x],
    and the answer to the signing request that follows it. *)
Definition uploadAt (index : nat) (item : PendingAttachment.t) (x : W)
  : option JsError * W :=
  storage_upload svc ATTACHMENT_BUCKET (pathAt index item)
    (PendingAttachment.file item) x.

Definition signAt (index : nat) (item : PendingAttachment.t) (x : W)
  : SignedUrlResponse * W :=
  storage_createSignedUrl svc ATTACHMENT_BUCKET (pathAt index item)
    SIGNED_URL_TTL_SECONDS (snd (uploadAt index item x)).

(** The attachment goes through: the upload reports no error and the
    signing answers with a non-empty URL and no error. *)
Definition accepted (index : nat) (item : PendingAttachment.t) (x : W) : bool :=
  match fst (uploadAt index item x) with
  | Some _ => false
  | None => negb (signingFailed (fst (signAt index item x)))
  end.

Definition grantedUrl (index : nat) (item : PendingAttachment.t) (x : W)
  : string :=
  match signedUrl (fst (signAt index item x)) with
  | Some u => u
  | None => ""
  end.

(** The pair pushed for an accepted attachment. *)
Definition pairAt (index : nat) (item : PendingAttachment.t) (x : W)
  : PersistedAttachment.t * ChatAttachment.t :=
  (persistedOf (pathAt index item) (PendingAttachment.file item),
   displayOf (pathAt index item) (grantedUrl index item x)
     (PendingAttachment.file item)).

(** The error an attachment that is not accepted fails with: the upload
    error, else the signing error, else the component's own. *)
Definition failureAt (index : nat) (item : PendingAttachment.t) (x : W)
  : JsError :=
  match fst (uploadAt index item x) with
  | Some e => e
  | None =>
      match signedError (fst (signAt index item x)) with
      | Some e => e
      | None => ErrorObj "Failed to generate download link for an attachment."
      end
  end.

(** The requests made for an attachment that fails, and the world they
    leave: the signing is asked only if the upload went through. *)
Definition failingRequests (index : nat) (item : PendingAttachment.t) (x : W)
  : list Call :=
  StorageUpload ATTACHMENT_BUCKET (pathAt index item)
    (PendingAttachment.file item)
  :: match fst (uploadAt index item x) with
     | Some _ => []
     | None => [StorageCreateSignedUrl ATTACHMENT_BUCKET (pathAt index item)
                  SIGNED_URL_TTL_SECONDS]
     end.

Definition worldAfterFailure (index : nat) (item : PendingAttachment.t)
           (x : W) : W :=
  match fst (uploadAt index item x) with
  | Some _ => snd (uploadAt index item x)
  | None => snd (signAt index item x)
  end.

(** Every attachment of the list, numbered from [index], is accepted in
    its turn; the world after their requests; the pairs they yield. *)
Fixpoint allAccepted (index : nat) (items : list PendingAttachment.t) (x : W)
  : bool :=
  match items with
  | [] => true
  | item :: rest =>
      accepted index item x &&
      allAccepted (S index) rest (snd (signAt index item x))
  end.

Fixpoint worldAfterAll (index : nat) (items : list PendingAttachment.t)
         (x : W) : W :=
  match items with
  | [] => x
  | item :: rest => worldAfterAll (S index) rest (snd (signAt index item x))
  end.

Fixpoint acceptedPairs (index : nat) (items : list PendingAttachment.t)
         (x : W) : list (PersistedAttachment.t * ChatAttachment.t) :=
  match items with
  | [] => []
  | item :: rest =>
      pairAt index item x
        :: acceptedPairs (S index) rest (snd (signAt index item x))
  end.

End UploadAnswers.

(** ** The storage's answers along a history load *)

Section SigningAnswers.
Context {W : Type} (svc : Services W).

(** The answer to the signing request for a stored attachment, asked in
    [x]. *)
Definition signingAt (a : PersistedAttachment.t) (x : W)
  : SignedUrlResponse * W :=
  storage_createSignedUrl svc ATTACHMENT_BUCKET
    (PersistedAttachment.storagePath a) SIGNED_URL_TTL_SECONDS x.

(** The world after the signing requests for the attachments of [l], in
    order. *)
Fixpoint worldAfterSignings (l : list PersistedAttachment.t) (x : W) : W :=
  match l with
  | [] => x
  | a :: rest => worldAfterSignings rest (snd (signingAt a x))
  end.

End SigningAnswers.

(** The URL shown for an answer: the marker when the signing failed, the
    signed URL otherwise. *)
Definition urlShown (r : SignedUrlResponse) : string :=
  if signingFailed r then "#"
  else match signedUrl r with Some u => u | None => "#" end.

(** The display attachments for the stored ones of [l], each with the URL
    of its own answer. *)
Fixpoint shownAlong {W : Type} (svc : Services W)
         (l : list PersistedAttachment.t) (x : W) : list ChatAttachment.t :=
  match l with
  | [] => []
  | a :: rest =>
      shownAs a (urlShown (fst (signingAt svc a x)))
        :: shownAlong svc rest (snd (signingAt svc a x))
  end.

(** The stored attachments of the rows and the attachments of the
    messages, in order. *)
Definition storedAttachments (data : list Entry) : list PersistedAttachment.t :=
  flat_map (fun e => match entryAttachments e with
                     | Some l => l
                     | None => []
                     end) data.

Definition shownAttachments (msgs : list ChatMessage.t) : list ChatAttachment.t :=
  flat_map (fun m => match ChatMessage.attachments m with
                     | Some l => l
                     | None => []
                     end) msgs.

End ChatBotSpec.

(* ===================================================================== *)
(** * components/VoiceAssistant.tsx: starting and toggling a session *)
(* ===================================================================== *)

Module VoiceSession.
Import VoiceAssistant.

(** [onopen], lines 94-116.  [inputCtx] and [processor] are the objects the
    browser creates when the capture graph is built; without a stored
    stream the callback returns after setting the status. *)
Definition onopen (inputCtx : AudioContext) (processor : ScriptProcessorNode)
           (s : VoiceState) : VoiceState :=
  let s1 := setStatus LISTENING s in
  match audioStreamRef s1 with
  | None => s1
  | Some _ =>
      setProcessorRef (Some processor)
        (setInputAudioContextRef (Some inputCtx) s1)
  end.

(** Line 203: the connection promise has resolved. *)
Definition sessionConnected (session : LiveSession) (s : VoiceState)
  : VoiceState :=
  setSessionRef (Some session) s.

(** Lines 204-206: the microphone was granted; the output context is made. *)
Definition mediaGranted (stream : MediaStream) (outputCtx : AudioContext)
           (s : VoiceState) : VoiceState :=
  setOutputAudioContextRef (Some outputCtx)
    (setAudioStreamRef (Some stream) s).

(** Lines 208-213: the [catch] of [startSession]. *)
Definition startFailed (err : Js.JsError) (s : VoiceState)
  : VoiceState * list Effect :=
  stopSession
    (setStatus ERROR
       (addNotification
          ("Failed to start session: " ++ Js.errorMessage err) s)).

(** Lines 216-222.  Starting is [startSessionBegin]; what follows in
    [startSession] arrives as [Connected], [Granted] or [Failed]. *)
Definition handleToggleSession (s : VoiceState) : VoiceState * list Effect :=
  match status s with
  | IDLE | ERROR | CLOSED => (startSessionBegin s, [])
  | CONNECTING | LISTENING => stopSession s
  end.

(** Everything that can happen to the component, start-up included. *)
Inductive SessionEvent : Type :=
| Earlier (ev : VoiceEvent)
| Toggle
| Opened (inputCtx : AudioContext) (processor : ScriptProcessorNode)
| Connected (session : LiveSession)
| Granted (stream : MediaStream) (outputCtx : AudioContext)
| Failed (err : Js.JsError).

Definition sessionStep (ev : SessionEvent) (s : VoiceState)
  : VoiceState * list Effect :=
  match ev with
  | Earlier e => step e s
  | Toggle => handleToggleSession s
  | Opened inputCtx processor => (onopen inputCtx processor s, [])
  | Connected session => (sessionConnected session s, [])
  | Granted stream outputCtx => (mediaGranted stream outputCtx s, [])
  | Failed err => startFailed err s
  end.

Fixpoint sessionRun (evs : list SessionEvent) (s : VoiceState)
  : VoiceState * list Effect :=
  match evs with
  | [] => (s, [])
  | ev :: rest =>
      let '(s1, e1) := sessionStep ev s in
      let '(s2, e2) := sessionRun rest s1 in
      (s2, (e1 ++ e2)%list)
  end.

(** One [partialInput] message per fragment, React rendering after a message
    when the flag at its position says so (no flag: no render). *)
Fixpoint partialInputs (now : Q) (fragments : list string)
         (renders : list bool) : list VoiceEvent :=
  match fragments with
  | [] => []
  | t :: rest =>
      (Message now (partialInput t)
         :: rendering (hd false renders) ++ partialInputs now rest (tl renders))%list
  end.

(** The text of all fragments, in order. *)
Fixpoint concatAll (fragments : list string) : string :=
  match fragments with
  | [] => ""
  | t :: rest => t ++ concatAll rest
  end.

(** An utterance is being assembled after the sealed turns [done], [u] being
    the text accumulated so far: only input updates are queued, and either
    the turn of the utterance is not shown yet and an update is queued, or it
    is shown, with the text [u] if nothing is queued. *)
Definition assembling (done : list Turn) (u : string) (s : VoiceState)
  : Prop :=
  currentInputTranscriptionRef s = u /\
  exists k,
    pendingUpdates s = repeat InputUpdate k /\
    ((transcriptions s = done /\ 0 < k) \/
     (exists shown,
        transcriptions s = (done ++ [mkTurn shown "" false])%list /\
        (k = 0 -> shown = u))).

(** No two tracked sources overlap, each ends by [cursor], and each has an
    identity below [bound]. *)
Fixpoint scheduledInOrder (l : list AudioBufferSourceNode) : Prop :=
  match l with
  | [] => True
  | n :: rest =>
      Forall (fun m => (startTime n + bufferDuration n <= startTime m)%Q) rest /\
      scheduledInOrder rest
  end.

Definition endsBy (cursor : Q) (l : list AudioBufferSourceNode) : Prop :=
  Forall (fun n => (startTime n + bufferDuration n <= cursor)%Q) l.

(** Every audio payload of the event has a non-negative duration. *)
Definition soundDuration (ev : SessionEvent) : Prop :=
  match ev with
  | Earlier (Message _ m) =>
      match serverContent m with
      | Some c =>
          match modelTurnAudio c with
          | Payload d => (0 <= d)%Q
          | _ => True
          end
      | None => True
      end
  | _ => True
  end.

(** The tool responses among the effects, as (id, name) pairs. *)
Fixpoint toolResponses (es : list Effect)
  : list (option string * option string) :=
  match es with
  | [] => []
  | SendToolResponse id name _ :: rest => (id, name) :: toolResponses rest
  | _ :: rest => toolResponses rest
  end.

(** The handler ended by throwing. *)
Definition rejected (es : list Effect) : bool :=
  existsb (fun e => match e with UnhandledRejection => true | _ => false end)
          es.

(** A light call that comes without [args]. *)
Definition lacksArgs (fc : FunctionCall) : bool :=
  isLightCall fc && match fcArgs fc with None => true | Some _ => false end.

(** The calls in front of the first light call without [args]. *)
Fixpoint answerable (fcs : list FunctionCall) : list FunctionCall :=
  match fcs with
  | [] => []
  | fc :: rest => if lacksArgs fc then [] else fc :: answerable rest
  end.

(** The function calls a message carries, and whether it carries a tool
    call without any. *)
Definition callsOf (m : LiveServerMessage) : list FunctionCall :=
  match toolCall m with
  | Some call =>
      match functionCalls call with Some fcs => fcs | None => [] end
  | None => []
  end.

Definition callsMissing (m : LiveServerMessage) : bool :=
  match toolCall m with
  | Some call =>
      match functionCalls call with Some _ => false | None => true end
  | None => false
  end.

End VoiceSession.

(* ===================================================================== *)
(** * utils/auth.ts: the session side *)
(* ===================================================================== *)

Module AuthSession.
Import Js Auth.

(** The two session requests of the backend client. *)
Record SessionProvider (W : Type) : Type := {
  auth_signOut : W -> option JsError * W;
  auth_getUser : W -> AuthResponse * W
}.
Arguments auth_signOut {W}.
Arguments auth_getUser {W}.

(** A session request: it moves the world; [calls] keeps listing the
    sign-up, sign-in and profile requests only. *)
Definition ask {W A : Type} (f : W -> A * W) : Eff.M (World W) A :=
  fun w => let '(a, x) := f (ext w) in (inr a, mkWorld x (calls w)).

Local Open Scope eff_scope.

(** Lines 60-65. *)
Definition signOut {W : Type} (p : SessionProvider W)
  : Eff.M (World W) unit :=
  error <- ask (auth_signOut p) ;;
  match error with
  | Some e => Eff.throw e
  | None => Eff.ret tt
  end.

(** Lines 67-73. *)
Definition getCurrentUser {W : Type} (p : SessionProvider W)
  : Eff.M (World W) (option StoredUser) :=
  r <- ask (auth_getUser p) ;;
  match authError r, dataUser r with
  | None, Some user => Eff.ret (Some (mapUser user))
  | _, _ => Eff.ret None
  end.

(** Lines 75-80: what the handler receives for a session whose user is
    [sessionUser]. *)
Definition listenToAuthChanges (sessionUser : option ProviderUser)
  : option StoredUser :=
  match sessionUser with
  | Some user => Some (mapUser user)
  | None => None
  end.

(** Sample providers: one that accepts every request, one whose profile
    table refuses every write. *)
Definition welcoming : Provider nat :=
  {| auth_signUp := fun email _ name w =>
       ({| dataUser := Some {| userId := "u1"; userEmail := Some email;
                               metadataName := MetaString name |};
           authError := None |}, S w);
     auth_signInWithPassword := fun email _ w =>
       ({| dataUser := Some {| userId := "u1"; userEmail := Some email;
                               metadataName := MetaOther |};
           authError := None |}, S w);
     profiles_upsert := fun _ _ w => (None, S w) |}.

Definition profileDown : Provider nat :=
  {| auth_signUp := auth_signUp welcoming;
     auth_signInWithPassword := auth_signInWithPassword welcoming;
     profiles_upsert := fun _ _ w =>
       (Some (Thrown "permission denied for table profiles"), S w) |}.

End AuthSession.

(* ===================================================================== *)
(** * App.tsx: session and conversation handlers *)
(* ===================================================================== *)

Module AppShell.
Import Js App.

Local Open Scope eff_scope.

(** Lines 21-27: the start-up lookup of the current user. *)
Definition initialize {W : Type} (sp : AuthSession.SessionProvider W)
  : Eff.M (Sys W) unit :=
  existingUser <- liftAuth (AuthSession.getCurrentUser sp) ;;
  match existingUser with
  | Some u => modifyApp (setUser (Some u))
  | None => Eff.ret tt
  end.

(** Lines 29-31: the auth-change listener. *)
Definition authChanged (sessionUser : option Auth.ProviderUser)
           (a : AppState) : AppState :=
  setUser (AuthSession.listenToAuthChanges sessionUser) a.

(** Lines 113-119. *)
Definition handleLogout {W : Type} (sp : AuthSession.SessionProvider W)
  : Eff.M (Sys W) unit :=
  liftAuth (AuthSession.signOut sp) ;;
  modifyApp (setUser None) ;;
  modifyApp (setConversations (fun _ => [])) ;;
  modifyApp (setActiveConversationId None) ;;
  modifyApp (setIsSidebarOpen false).

(** Lines 135-138. *)
Definition handleSelectConversation (conversationId : string) (a : AppState)
  : AppState :=
  setIsSidebarOpen false (setActiveConversationId (Some conversationId) a).

(** Line 157. *)
Definition activeConversation (a : AppState) : option Conversation :=
  match activeConversationId a with
  | Some cid => find (fun conv => String.eqb (id conv) cid) (conversations a)
  | None => None
  end.

(** Number of occurrences of a character. *)
Fixpoint countChar (c : ascii) (s : string) : nat :=
  match s with
  | EmptyString => 0
  | String x rest => (if Ascii.eqb x c then 1 else 0) + countChar c rest
  end.

(** Every character is white space. *)
Fixpoint allSpace (s : string) : bool :=
  match s with
  | EmptyString => true
  | String c rest => isSpace c && allSpace rest
  end.

(** The message with its first character in upper case. *)
Definition capitalize (s : string) : string :=
  toUpperCase (charAt0 s) ++ slice1 s.

(** The two session providers used for concrete runs. *)
Definition signedOutOk : AuthSession.SessionProvider unit :=
  {| AuthSession.auth_signOut := fun w => (None, w);
     AuthSession.auth_getUser := fun w =>
       ({| Auth.dataUser := None; Auth.authError := None |}, w) |}.

Definition signOutFails : AuthSession.SessionProvider unit :=
  {| AuthSession.auth_signOut := fun w => (Some (ErrorObj "Network down"), w);
     AuthSession.auth_getUser := fun w =>
       ({| Auth.dataUser := None;
           Auth.authError := Some (ErrorObj "Network down") |}, w) |}.

End AppShell.

(* ===================================================================== *)
(** * components/ChatBot.tsx: mounting and staging files *)
(* ===================================================================== *)

Module ChatBotMount.
Import Js ChatBot.

Definition setChatRef (x : option nat) (c : ChatState) : ChatState :=
  mkChat (messages c) (input c) (isLoading c) (isHistoryLoading c)
    (pendingAttachments c) x.

Definition setIsHistoryLoading (x : bool) (c : ChatState) : ChatState :=
  mkChat (messages c) (input c) (isLoading c) x
    (pendingAttachments c) (chatRef c).

(** The browser and SDK calls of this part: creating a chat session for a
    system instruction (it may throw), and minting a preview URL. *)
Record Browser (W : Type) : Type := {
  chats_create : string -> W -> (JsError + nat) * W;
  createObjectURL : File.t -> W -> string * W
}.
Arguments chats_create {W}.
Arguments createObjectURL {W}.

(** A call that moves the world without an entry in [calls]. *)
Definition ask {W A : Type} (f : W -> A * W) : Eff.M (Sys W) A :=
  fun s => let '(a, x) := f (ext s) in (inr a, mkSys (comp s) x (calls s)).

(** Lines 45-49. *)
Definition systemInstruction (props : ChatBotProps) : string :=
  "You are VibeChat, a supportive study assistant for students. " ++
  (if hasMemory props
   then "You remember important context from earlier conversations when giving advice."
   else "You are in guest mode and must rely only on messages in this session.") ++
  " Provide clear, encouraging responses. " ++
  match userName props with
  | Some n =>
      if truthy n then "The student you are helping is named " ++ n ++ "."
      else ""
  | None => ""
  end.

(** [name.split(' ')[0]]. *)
Definition firstName (n : string) : string :=
  match split " " n with
  | w :: _ => w
  | [] => ""
  end.

(** Line 56. *)
Definition greeting (props : ChatBotProps) : string :=
  "Hello" ++
  match userName props with
  | Some n => if truthy n then " " ++ firstName n else ""
  | None => ""
  end ++ "! I'm VibeChat. How can I support your studies today?".

Definition greetingMessage (props : ChatBotProps) : ChatMessage.t :=
  ChatMessage.mk ChatMessage.model (greeting props) None.

Local Open Scope eff_scope.

(** Lines 39-78. *)
Definition initializeChat {W : Type} (svc : Services W) (b : Browser W)
           (props : ChatBotProps) : Eff.M (Sys W) unit :=
  created <- ask (chats_create b (systemInstruction props)) ;;
  match created with
  | inr chat => modifyComp (setChatRef (Some chat))
  | inl _ => Eff.ret tt
  end ;;
  match userId props with
  | Some uid =>
      if hasMemory props && truthy uid then
        modifyComp (setIsHistoryLoading true) ;;
        Eff.finally
          (Eff.tryCatch
             (history <- fetchHistory svc uid ;;
              modifyComp (setMessages
                            (fun _ => greetingMessage props :: history)))
             (fun _ => modifyComp (setMessages
                                     (fun _ => [greetingMessage props]))))
          (fun s1 => mkSys (setIsHistoryLoading false (comp s1)) (ext s1)
                       (calls s1))
      else modifyComp (setMessages (fun _ => [greetingMessage props]))
  | None => modifyComp (setMessages (fun _ => [greetingMessage props]))
  end ;;
  s <- Eff.get ;;
  revokeAll (pendingAttachments (comp s)) ;;
  modifyComp (setPendingAttachments []).

(** Lines 82-84: the effect's cleanup. *)
Definition cleanupChat (c : ChatState) : ChatState := setChatRef None c.

(** Lines 160-163: one preview URL per selected file, in order. *)
Fixpoint stageFiles {W : Type} (b : Browser W) (files : list File.t)
  : Eff.M (Sys W) (list PendingAttachment.t) :=
  match files with
  | [] => Eff.ret []
  | f :: rest =>
      previewUrl <- ask (createObjectURL b f) ;;
      others <- stageFiles b rest ;;
      Eff.ret (PendingAttachment.mk f previewUrl :: others)
  end.

(** Lines 156-167: [files] is [event.target.files]. *)
Definition handleFileSelect {W : Type} (b : Browser W)
           (files : option (list File.t)) : Eff.M (Sys W) unit :=
  match files with
  | None => Eff.ret tt
  | Some fs =>
      selected <- stageFiles b fs ;;
      s <- Eff.get ;;
      modifyComp (setPendingAttachments
                    (pendingAttachments (comp s) ++ selected)%list)
  end.

(** Lines 169-172. *)
Definition handleRemoveAttachment {W : Type}
           (attachment : PendingAttachment.t) : Eff.M (Sys W) unit :=
  perform (RevokeObjectURL (PendingAttachment.previewUrl attachment)) ;;
  s <- Eff.get ;;
  modifyComp (setPendingAttachments
                (filter (fun item =>
                           negb (String.eqb (PendingAttachment.previewUrl item)
                                   (PendingAttachment.previewUrl attachment)))
                        (pendingAttachments (comp s)))).

(** ** Vocabulary of the statements *)

(** The message a send shows for the user. *)
Definition userMessageOf (trimmedInput : string)
           (atts : option (list ChatAttachment.t)) : ChatMessage.t :=
  ChatMessage.mk ChatMessage.user (orElse trimmedInput "Shared attachments.")
    atts.

(** The message shown for a caught error. *)
Definition errorBubble (e : JsError) : ChatMessage.t :=
  ChatMessage.mk ChatMessage.model
    (match e with
     | ErrorObj message => message
     | Thrown _ =>
         "I'm having trouble responding right now. Please try again later."
     end) None.

(** The system with the sending flag set, cleared, and with an error
    message appended. *)
Definition locked {W : Type} (s : Sys W) : Sys W :=
  mkSys (setIsLoading true (comp s)) (ext s) (calls s).

Definition unlocked {W : Type} (s : Sys W) : Sys W :=
  mkSys (setIsLoading false (comp s)) (ext s) (calls s).

Definition withBubble {W : Type} (e : JsError) (s : Sys W) : Sys W :=
  mkSys (setMessages (fun prev => (prev ++ [errorBubble e])%list) (comp s))
    (ext s) (calls s).

(** The two guards of [handleSendMessage]. *)
Definition nothingToSend (c : ChatState) : bool :=
  negb (truthy (trim (input c))) && (List.length (pendingAttachments c) =? 0).

Definition cannotSend (c : ChatState) : bool :=
  isLoading c || negb (match chatRef c with Some _ => true | None => false end).

(** A character of the class that [sanitizeName] keeps, or the underscore
    it writes for the others. *)
Definition safeInPath (c : ascii) : bool :=
  keptInName c || Ascii.eqb c "_".

Fixpoint allSafe (s : string) : bool :=
  match s with
  | EmptyString => true
  | String c rest => safeInPath c && allSafe rest
  end.

(** Every character is one that [sanitizeName] keeps. *)
Fixpoint allKept (s : string) : bool :=
  match s with
  | EmptyString => true
  | String c rest => keptInName c && allKept rest
  end.

(** The storage requests for the staged files, numbered from [index]: an
    upload, then a signing, per file. *)
Fixpoint uploadRequests (uid : string) (timestamp : Z) (index : nat)
         (pending : list PendingAttachment.t) : list Call :=
  match pending with
  | [] => []
  | item :: rest =>
      let f := PendingAttachment.file item in
      let path := storagePathFor uid timestamp index (File.name f) in
      StorageUpload ATTACHMENT_BUCKET path f
        :: StorageCreateSignedUrl ATTACHMENT_BUCKET path SIGNED_URL_TTL_SECONDS
        :: uploadRequests uid timestamp (S index) rest
  end.

Definition revocations (pending : list PendingAttachment.t) : list Call :=
  map (fun item => RevokeObjectURL (PendingAttachment.previewUrl item)) pending.

Definition isRevocation (c : Call) : bool :=
  match c with RevokeObjectURL _ => true | _ => false end.

Definition notRevocation (c : Call) : bool := negb (isRevocation c).

(** The signing requests for the stored attachments of the rows, in order. *)
Definition signingRequests (data : list Entry) : list Call :=
  map (fun a => StorageCreateSignedUrl ATTACHMENT_BUCKET
                  (PersistedAttachment.storagePath a) SIGNED_URL_TTL_SECONDS)
      (flat_map (fun e => match entryAttachments e with
                          | Some l => l
                          | None => []
                          end) data).

(** The value of a string of decimal digits. *)
Fixpoint readDigits (s : string) (v : N) : N :=
  match s with
  | EmptyString => v
  | String c rest => readDigits rest (10 * v + (N_of_ascii c - 48))%N
  end.

Definition isDigit (c : ascii) : bool :=
  (48 <=? N_of_ascii c)%N && (N_of_ascii c <=? 57)%N.

Fixpoint allDigits (s : string) : bool :=
  match s with
  | EmptyString => true
  | String c rest => isDigit c && allDigits rest
  end.

(** A browser for concrete runs: chat sessions are numbered by the world,
    preview URLs are "blob:" followed by the file name. *)
Definition chrome : Browser nat :=
  {| chats_create := fun _ w => (inr w, S w);
     createObjectURL := fun f w => ("blob:" ++ File.name f, S w) |}.

Definition guest : ChatBotProps :=
  {| hasMemory := false; userName := None; userId := None |}.

End ChatBotMount.

(* ===================================================================== *)
(** * components/AuthModal.tsx: the sign-in form *)
(* ===================================================================== *)

Module AuthModal.
Import Js.

(** Lines 13-19: the form fields, the error line and the submitting flag. *)
Record FormState : Type := mkForm {
  name : string;
  email : string;
  password : string
}.

Record ModalState : Type := mkModal {
  formState : FormState;
  error : option string;
  isSubmitting : bool
}.

Definition setError (x : option string) (m : ModalState) : ModalState :=
  mkModal (formState m) x (isSubmitting m).
Definition setIsSubmitting (x : bool) (m : ModalState) : ModalState :=
  mkModal (formState m) (error m) x.

(** Lines 21-23. *)
Inductive Field : Type := fieldName | fieldEmail | fieldPassword.

Definition handleChange (field : Field) (value : string) (m : ModalState)
  : ModalState :=
  let f := formState m in
  mkModal
    match field with
    | fieldName => mkForm value (email f) (password f)
    | fieldEmail => mkForm (name f) value (password f)
    | fieldPassword => mkForm (name f) (email f) value
    end
    (error m) (isSubmitting m).

(** [c.toLowerCase()] on one ASCII character, and on a string. *)
Definition toLowerCaseChar (c : ascii) : ascii :=
  let n := nat_of_ascii c in
  if (65 <=? n) && (n <=? 90) then ascii_of_nat (n + 32) else c.

Fixpoint toLowerCase (s : string) : string :=
  match s with
  | EmptyString => EmptyString
  | String c rest => String (toLowerCaseChar c) (toLowerCase rest)
  end.

(** Line 29: the required-fields test. *)
Definition incomplete (mode : App.AuthMode) (f : FormState) : bool :=
  negb (truthy (email f)) || negb (truthy (password f)) ||
  match mode with
  | App.signup => negb (truthy (name f))
  | App.login => false
  end.

(** Lines 36-40: what is handed to [onAuthenticate]. *)
Definition payloadOf (f : FormState) : App.AuthPayload :=
  {| App.payloadName := Some (trim (name f));
     App.payloadEmail := trim (toLowerCase (email f));
     App.payloadPassword := password f |}.

(** Line 43: the text shown for a thrown value. *)
Definition shownFor (err : JsError) : string :=
  match err with
  | ErrorObj message => message
  | Thrown _ => "Unable to authenticate. Please try again."
  end.

(** Lines 25-48.  The handler catches whatever [onAuthenticate] throws, so
    it returns the modal's state and the state [onAuthenticate] left. *)
Definition handleSubmit {S : Type} (mode : App.AuthMode)
           (onAuthenticate : App.AuthPayload -> Eff.M S unit)
           (m : ModalState) (s : S) : ModalState * S :=
  let m0 := setError None m in
  if incomplete mode (formState m0) then
    (setError (Some "Please complete all required fields.") m0, s)
  else
    let m1 := setIsSubmitting true m0 in
    match onAuthenticate (payloadOf (formState m1)) s with
    | (inr _, s1) => (setIsSubmitting false m1, s1)
    | (inl err, s1) =>
        (setIsSubmitting false (setError (Some (shownFor err)) m1), s1)
    end.

(** A form whose name holds blanks only. *)
Definition blankName : ModalState :=
  mkModal (mkForm "   " "Ada@Example.org " "secret") None false.

End AuthModal.

(* ===================================================================== *)
(** * Properties of the voice session controller *)
(* ===================================================================== *)

Module VoiceAssistantTheory.
Import VoiceAssistant.

(** ** The transcript handlers leave the audio side alone *)

Lemma handleTranscripts_audio (c : ServerContent) (s : VoiceState) :
  outputAudioContextRef (handleTranscripts c s) = outputAudioContextRef s /\
  nextStartTimeRef (handleTranscripts c s) = nextStartTimeRef s /\
  sourcesCreated (handleTranscripts c s) = sourcesCreated s.
Proof.
  unfold handleTranscripts.
  destruct (inputTranscription c), (outputTranscription c), (turnComplete c);
    repeat split; reflexivity.
Qed.

(** The tool-call loop changes the notifications only. *)
Lemma handleFunctionCall_frame (fc : FunctionCall) (s s1 : VoiceState)
      (e1 : list Effect) :
  handleFunctionCall fc s = Some (s1, e1) ->
  exists f, s1 = setNotifications f s.
Proof.
  unfold handleFunctionCall.
  destruct (isLightCall fc).
  - destruct (fcArgs fc) as [args|]; [|discriminate].
    intros H. injection H as <- _. unfold addNotification. eauto.
  - intros H. injection H as <- _.
    exists (fun n => n). destruct s; reflexivity.
Qed.

Lemma handleFunctionCalls_frame (fcs : list FunctionCall) : forall s,
  exists f, fst (handleFunctionCalls fcs s) = setNotifications f s.
Proof.
  induction fcs as [|fc rest IH]; intros s; simpl.
  - exists (fun n => n). destruct s; reflexivity.
  - destruct (handleFunctionCall fc s) as [[s1 e1]|] eqn:E.
    + destruct (handleFunctionCall_frame fc s s1 e1 E) as [f ->].
      destruct (IH (setNotifications f s)) as [g Hg].
      destruct (handleFunctionCalls rest (setNotifications f s)) as [s2 e2].
      simpl in *. subst s2. exists (fun n => g (f n)). reflexivity.
    + exists (fun n => n). destruct s; reflexivity.
Qed.

Lemma handleToolCall_frame (tc : option ToolCall) (s : VoiceState) :
  exists f, fst (handleToolCall tc s) = setNotifications f s.
Proof.
  destruct tc as [call|]; simpl.
  - destruct (functionCalls call) as [fcs|].
    + apply handleFunctionCalls_frame.
    + exists (fun n => n). destruct s; reflexivity.
  - exists (fun n => n). destruct s; reflexivity.
Qed.

Lemma handleToolCall_audio (tc : option ToolCall) (s : VoiceState) :
  outputAudioContextRef (fst (handleToolCall tc s)) = outputAudioContextRef s /\
  nextStartTimeRef (fst (handleToolCall tc s)) = nextStartTimeRef s /\
  transcriptions (fst (handleToolCall tc s)) = transcriptions s.
Proof.
  destruct (handleToolCall_frame tc s) as [f E]. rewrite E.
  repeat split; reflexivity.
Qed.

(** What a message that carries audio does when an output context exists:
    one source is started at the clamped cursor, and the cursor ends at that
    start time plus the duration. *)
Lemma onmessage_audio (now d : Q) (m : LiveServerMessage) (c : ServerContent)
      (ctx : AudioContext) (s : VoiceState) :
  serverContent m = Some c ->
  modelTurnAudio c = Payload d ->
  outputAudioContextRef s = Some ctx ->
  exists n rest,
    snd (onmessage now m s) = SourceStart n :: rest /\
    startTime n = Qmax (nextStartTimeRef s) now /\
    bufferDuration n = d /\
    nextStartTimeRef (fst (onmessage now m s)) = (startTime n + d)%Q /\
    outputAudioContextRef (fst (onmessage now m s)) = Some ctx.
Proof.
  intros Hc Hd Hctx. unfold onmessage. rewrite Hc, Hd.
  destruct (handleTranscripts_audio c s) as (Ho & Hn & _).
  rewrite Ho, Hctx.
  unfold startSource, clampCursor.
  match goal with
  | |- context [handleToolCall ?tc ?st] =>
      destruct (handleToolCall_audio tc st) as (Ho' & Hn' & _);
      destruct (handleToolCall tc st) as [s3 e3]
  end.
  simpl in *.
  eexists; eexists. split; [reflexivity|].
  simpl. rewrite Hn', Ho', Hn, Ho, Hctx. repeat split; reflexivity.
Qed.

(** ** Transcript assembly *)

(** C5.  On a freshly mounted component the messages partial-input "Hel",
    partial-input "lo", turn-complete give the final turn with user text
    "Hello" when React renders after each message.  When the three messages
    are handled before React renders, the queued updaters run after the
    accumulators have been reset: the one final turn has the empty user
    text. *)
Theorem batched_transcript_loses_text :
  (let s := run [Message 0%Q (partialInput "Hel");
                 Message 0%Q (partialInput "lo");
                 Message 0%Q turnCompleteMessage; Render] initialState in
   transcriptions s = [mkTurn "" "" true] /\
   currentInputTranscriptionRef s = "" /\
   currentOutputTranscriptionRef s = "") /\
  (let s := run [Message 0%Q (partialInput "Hel"); Render;
                 Message 0%Q (partialInput "lo"); Render;
                 Message 0%Q turnCompleteMessage; Render] initialState in
   transcriptions s = [mkTurn "Hello" "" true] /\
   currentInputTranscriptionRef s = "" /\
   currentOutputTranscriptionRef s = "").
Proof.
  repeat split; reflexivity.
Qed.

(** ** Playback scheduling *)

(** C6.  Two messages carrying audio of durations [d1] and [d2], handled one
    after the other while an output context exists, each start one source,
    and the second starts no earlier than the first start plus [d1]. *)
Theorem playback_sequential
        (s : VoiceState) (ctx : AudioContext)
        (now1 now2 d1 d2 : Q) (m1 m2 : LiveServerMessage)
        (c1 c2 : ServerContent) :
  outputAudioContextRef s = Some ctx ->
  serverContent m1 = Some c1 -> modelTurnAudio c1 = Payload d1 ->
  serverContent m2 = Some c2 -> modelTurnAudio c2 = Payload d2 ->
  exists n1 n2 rest1 rest2,
    snd (onmessage now1 m1 s) = SourceStart n1 :: rest1 /\
    snd (onmessage now2 m2 (fst (onmessage now1 m1 s)))
      = SourceStart n2 :: rest2 /\
    bufferDuration n1 = d1 /\ bufferDuration n2 = d2 /\
    (nextStartTimeRef s <= startTime n1)%Q /\
    (now1 <= startTime n1)%Q /\ (now2 <= startTime n2)%Q /\
    (startTime n1 + d1 <= startTime n2)%Q.
Proof.
  intros Hctx Hc1 Hd1 Hc2 Hd2.
  destruct (onmessage_audio now1 d1 m1 c1 ctx s Hc1 Hd1 Hctx)
    as (n1 & rest1 & He1 & Hs1 & Hb1 & Hn1 & Hctx1).
  destruct (onmessage_audio now2 d2 m2 c2 ctx _ Hc2 Hd2 Hctx1)
    as (n2 & rest2 & He2 & Hs2 & Hb2 & _ & _).
  exists n1, n2, rest1, rest2.
  rewrite Hs2, Hn1, Hs1.
  repeat split; try assumption.
  - apply Q.le_max_l.
  - apply Q.le_max_r.
  - apply Q.le_max_r.
  - apply Q.le_max_l.
Qed.

Lemma playback_sequential_witness :
  exists n1 n2 rest1 rest2,
    snd (onmessage 0%Q (audioMessage (1 # 2))
           (setOutputAudioContextRef (Some {| contextId := 0 |}) initialState))
      = SourceStart n1 :: rest1 /\
    snd (onmessage (1 # 4) (audioMessage (1 # 3))
           (fst (onmessage 0%Q (audioMessage (1 # 2))
                   (setOutputAudioContextRef (Some {| contextId := 0 |})
                      initialState))))
      = SourceStart n2 :: rest2 /\
    bufferDuration n1 = (1 # 2)%Q /\ bufferDuration n2 = (1 # 3)%Q /\
    (nextStartTimeRef
       (setOutputAudioContextRef (Some {| contextId := 0 |}) initialState)
     <= startTime n1)%Q /\
    (0 <= startTime n1)%Q /\ ((1 # 4) <= startTime n2)%Q /\
    (startTime n1 + (1 # 2) <= startTime n2)%Q.
Proof.
  apply (playback_sequential
           (setOutputAudioContextRef (Some {| contextId := 0 |}) initialState)
           {| contextId := 0 |} 0%Q (1 # 4)%Q (1 # 2)%Q (1 # 3)%Q
           (audioMessage (1 # 2)) (audioMessage (1 # 3))
           {| inputTranscription := None; outputTranscription := None;
              turnComplete := false; modelTurnAudio := Payload (1 # 2)%Q |}
           {| inputTranscription := None; outputTranscription := None;
              turnComplete := false; modelTurnAudio := Payload (1 # 3)%Q |});
    reflexivity.
Defined.

(** When both decodes are pending at once (the two clamps run before either
    source is started) and they complete in arrival order, the second source
    starts exactly where the first one ends. *)
Lemma playback_overlapping_decodes (s : VoiceState) (now1 now2 d1 d2 : Q) :
  let s1 := clampCursor now2 (clampCursor now1 s) in
  let '(s2, e2) := startSource d1 s1 in
  let '(s3, e3) := startSource d2 s2 in
  exists n1 n2,
    e2 = [SourceStart n1] /\ e3 = [SourceStart n2] /\
    startTime n2 = (startTime n1 + d1)%Q.
Proof.
  simpl. eexists; eexists. repeat split; reflexivity.
Qed.

(** ** Teardown *)

Lemma stopSession_silent (s : VoiceState) :
  atRest s -> stopSession s = (s, []).
Proof.
  intros (Hst & Hs & Ha & Hp & Hi & Ho & Hsrc & Hn).
  destruct s; simpl in *; subst; reflexivity.
Qed.

(** C7.  Stopping a controller that is at rest calls nothing on any external
    object and leaves the state as it is: still IDLE, every handle absent,
    no source tracked, cursor at zero. *)
Theorem stopSession_at_rest (s : VoiceState) :
  atRest s ->
  stopSession s = (s, []) /\ atRest (fst (stopSession s)).
Proof.
  intros H. rewrite (stopSession_silent s H).
  split; [reflexivity | exact H].
Qed.

Lemma stopSession_at_rest_witness :
  stopSession initialState = (initialState, []) /\
  atRest (fst (stopSession initialState)).
Proof.
  apply (stopSession_at_rest initialState).
  repeat split; reflexivity.
Defined.

(** Stopping always lands at rest, whatever the state was. *)
Lemma stopSession_lands_at_rest (s : VoiceState) :
  atRest (fst (stopSession s)).
Proof.
  destruct s as [st tr no se ic oc au pr nx srcs ci co sc pu].
  unfold stopSession, atRest; simpl.
  destruct se, au, pr, ic, oc; simpl; repeat split; reflexivity.
Qed.

(** Hence a second stop is silent. *)
Lemma stopSession_idempotent (s : VoiceState) :
  stopSession (fst (stopSession s)) = (fst (stopSession s), []).
Proof.
  apply stopSession_silent, stopSession_lands_at_rest.
Qed.

(** Stopping touches neither the transcript, nor the queue of updates, nor
    the texts. *)
Lemma stopSession_keeps_transcript (s : VoiceState) :
  transcriptions (fst (stopSession s)) = transcriptions s /\
  pendingUpdates (fst (stopSession s)) = pendingUpdates s /\
  notifications (fst (stopSession s)) = notifications s /\
  currentInputTranscriptionRef (fst (stopSession s))
    = currentInputTranscriptionRef s /\
  currentOutputTranscriptionRef (fst (stopSession s))
    = currentOutputTranscriptionRef s.
Proof.
  destruct s as [st tr no se ic oc au pr nx srcs ci co sc pu].
  unfold stopSession; simpl.
  destruct se, au, pr, ic, oc; repeat split; reflexivity.
Qed.

(** ** The open-turn invariant *)

Lemma updateLast_cons (f : Turn -> Turn) (t u : Turn) (l : list Turn) :
  updateLast f (t :: u :: l) = t :: updateLast f (u :: l).
Proof. reflexivity. Qed.

Lemma updateLast_length (f : Turn -> Turn) (l : list Turn) :
  List.length (updateLast f l) = List.length l.
Proof.
  induction l as [|t l IH]; [reflexivity|].
  destruct l as [|u l]; [reflexivity|].
  rewrite updateLast_cons. cbn [List.length]. f_equal. exact IH.
Qed.

Lemma updateLast_nonempty (f : Turn -> Turn) (t : Turn) (l : list Turn) :
  exists u r, updateLast f (t :: l) = u :: r.
Proof.
  destruct l as [|u l]; simpl; eauto.
Qed.

Lemma sealedButLast_cons (t u : Turn) (l : list Turn) :
  sealedButLast (t :: u :: l) = isFinal t && sealedButLast (u :: l).
Proof. reflexivity. Qed.

Lemma sealedButLast_updateLast (f : Turn -> Turn) (l : list Turn) :
  sealedButLast l = true -> sealedButLast (updateLast f l) = true.
Proof.
  induction l as [|t [|u l] IH]; intros H; try reflexivity.
  rewrite updateLast_cons.
  rewrite sealedButLast_cons in H. apply andb_true_iff in H as [Ht Hr].
  destruct (updateLast_nonempty f u l) as (u' & r & E).
  specialize (IH Hr). rewrite E in *.
  rewrite sealedButLast_cons, Ht, IH. reflexivity.
Qed.

(** Appending after a transcript whose last turn is final (or which is
    empty) keeps every turn but the new one final. *)
Lemma sealedButLast_push (t : Turn) (l : list Turn) :
  sealedButLast l = true ->
  match lastTurn l with Some u => isFinal u = true | None => True end ->
  sealedButLast (l ++ [t]) = true.
Proof.
  induction l as [|a [|b l] IH]; intros Hs Hl.
  - reflexivity.
  - simpl in *. now rewrite Hl.
  - rewrite sealedButLast_cons in Hs. apply andb_true_iff in Hs as [Ha Hr].
    change ((a :: b :: l) ++ [t])%list with (a :: (b :: l) ++ [t])%list.
    change ((b :: l) ++ [t])%list with (b :: (l ++ [t]))%list in *.
    rewrite sealedButLast_cons, Ha. simpl andb.
    apply IH; assumption.
Qed.

Lemma inputUpdater_sealed (current : string) (l : list Turn) :
  sealedButLast l = true -> sealedButLast (inputUpdater current l) = true.
Proof.
  intros H. unfold inputUpdater.
  destruct (lastTurn l) as [u|] eqn:E.
  - destruct (isFinal u) eqn:F.
    + apply sealedButLast_push; [assumption | now rewrite E].
    + now apply sealedButLast_updateLast.
  - apply sealedButLast_push; [assumption | now rewrite E].
Qed.

Lemma outputUpdater_sealed (current : string) (l : list Turn) :
  sealedButLast l = true -> sealedButLast (outputUpdater current l) = true.
Proof.
  intros H. destruct l; [assumption|].
  now apply sealedButLast_updateLast.
Qed.

Lemma completeUpdater_sealed (l : list Turn) :
  sealedButLast l = true -> sealedButLast (completeUpdater l) = true.
Proof.
  intros H. destruct l; [assumption|].
  now apply sealedButLast_updateLast.
Qed.

(** Whatever the accumulators hold when React runs them, the queued updates
    keep every turn but the last final. *)
Lemma applyUpdate_sealed (input output : string) (l : list Turn) (u : Update) :
  sealedButLast l = true ->
  sealedButLast (applyUpdate input output l u) = true.
Proof.
  intros H. destruct u; simpl.
  - reflexivity.
  - now apply inputUpdater_sealed.
  - now apply outputUpdater_sealed.
  - now apply completeUpdater_sealed.
Qed.

Lemma updates_sealed (input output : string) (us : list Update) :
  forall l, sealedButLast l = true ->
            sealedButLast (fold_left (applyUpdate input output) us l) = true.
Proof.
  induction us as [|u us IH]; intros l H; simpl; [exact H|].
  apply IH, applyUpdate_sealed, H.
Qed.

(** The handlers only queue updates: the transcript that is shown changes
    at a render. *)
Lemma handleTranscripts_transcriptions (c : ServerContent) (s : VoiceState) :
  transcriptions (handleTranscripts c s) = transcriptions s.
Proof.
  unfold handleTranscripts.
  destruct (inputTranscription c), (outputTranscription c), (turnComplete c);
    reflexivity.
Qed.

Lemma onmessage_transcriptions (now : Q) (m : LiveServerMessage) (s : VoiceState) :
  transcriptions (fst (onmessage now m s)) = transcriptions s.
Proof.
  unfold onmessage. destruct (serverContent m) as [c|].
  - pose proof (handleTranscripts_transcriptions c s) as Hh.
    destruct (modelTurnAudio c) as [| |d].
    + exact Hh.
    + destruct (handleToolCall_audio (toolCall m) (handleTranscripts c s))
        as (_ & _ & Ht). congruence.
    + destruct (outputAudioContextRef (handleTranscripts c s)); [|exact Hh].
      unfold startSource, clampCursor.
      match goal with
      | |- context [handleToolCall ?tc ?st] =>
          destruct (handleToolCall_audio tc st) as (_ & _ & Ht);
          destruct (handleToolCall tc st) as [s3 e3]
      end.
      simpl in *. congruence.
  - apply handleToolCall_audio.
Qed.

Lemma step_sealed (ev : VoiceEvent) (s : VoiceState) :
  sealedButLast (transcriptions s) = true ->
  sealedButLast (transcriptions (fst (step ev s))) = true.
Proof.
  intros H. destruct ev; simpl.
  - now rewrite onmessage_transcriptions.
  - destruct (stopSession_keeps_transcript s) as (E & _). now rewrite E.
  - unfold onerror.
    match goal with
    | |- context [stopSession ?x] =>
        destruct (stopSession_keeps_transcript x) as (E & _); now rewrite E
    end.
  - unfold onclose.
    match goal with
    | |- context [stopSession ?x] =>
        destruct (stopSession_keeps_transcript x) as (E & _); now rewrite E
    end.
  - assumption.
  - assumption.
  - assumption.
  - now apply updates_sealed.
Qed.

Lemma run_sealed (evs : list VoiceEvent) : forall s,
  sealedButLast (transcriptions s) = true ->
  sealedButLast (transcriptions (run evs s)) = true.
Proof.
  induction evs as [|ev rest IH]; intros s H; simpl.
  - assumption.
  - apply IH, step_sealed, H.
Qed.

Lemma sealedButLast_openTurns (l : list Turn) :
  sealedButLast l = true -> openTurns l <= 1.
Proof.
  unfold openTurns.
  induction l as [|t [|u l] IH]; intros H.
  - simpl. lia.
  - simpl. destruct (isFinal t); simpl; lia.
  - rewrite sealedButLast_cons in H. apply andb_true_iff in H as [Ht Hr].
    specialize (IH Hr).
    change (filter (fun t0 => negb (isFinal t0)) (t :: u :: l))
      with (if negb (isFinal t)
            then t :: filter (fun t0 => negb (isFinal t0)) (u :: l)
            else filter (fun t0 => negb (isFinal t0)) (u :: l)).
    rewrite Ht. simpl negb. cbv iota. exact IH.
Qed.

(** How a partial input transcription changes the transcript that React
    shows: its updater runs on the rendered transcript with the accumulator
    as the handler left it. *)
Lemma onInputTranscription_rendered (t : Transcription) (s : VoiceState) :
  transcriptions (render (onInputTranscription t (render s))) =
  inputUpdater (Js.concatText (currentInputTranscriptionRef s) (text t))
    (transcriptions (render s)).
Proof. reflexivity. Qed.

(** The updater of a partial input transcription, on whatever transcript
    React runs it: it appends a new open turn exactly when the transcript is
    empty or its last turn is final, and otherwise rewrites the user text of
    the open last turn without adding a turn. *)
Lemma inputUpdater_rule (current : string) (prev : list Turn) :
  match lastTurn prev with
  | None => prev = [] /\ inputUpdater current prev = [mkTurn current "" false]
  | Some u =>
      if isFinal u
      then inputUpdater current prev = (prev ++ [mkTurn current "" false])%list
      else inputUpdater current prev = updateLast (withUser current) prev /\
           List.length (inputUpdater current prev) = List.length prev
  end.
Proof.
  unfold inputUpdater.
  destruct (lastTurn prev) as [u|] eqn:E.
  - destruct (isFinal u); [reflexivity|].
    split; [reflexivity | apply updateLast_length].
  - destruct prev as [|a l]; [split; reflexivity|].
    exfalso. clear -E. revert a E.
    induction l as [|b l IH]; intros a E; [discriminate|].
    apply (IH b). exact E.
Qed.

(** C9, as the code has it.  In every state reached from an empty
    transcript, wherever React renders, every turn other than the last is
    final, so at most one turn is open; and a partial input transcription
    handled on a rendered transcript appends a new open turn exactly when
    that transcript is empty or its last turn is final, and otherwise
    rewrites the user text of the open last turn without adding a turn.  The
    same rule holds for its updater on every transcript React runs it on. *)
Theorem open_turn_invariant (evs : list VoiceEvent) (s0 : VoiceState) :
  transcriptions s0 = [] ->
  let s := run evs s0 in
  sealedButLast (transcriptions s) = true /\
  openTurns (transcriptions s) <= 1 /\
  (forall t : Transcription,
    let prev := transcriptions (render s) in
    let next := transcriptions (render (onInputTranscription t (render s))) in
    let current := Js.concatText (currentInputTranscriptionRef s) (text t) in
    sealedButLast next = true /\
    match lastTurn prev with
    | None => prev = [] /\ next = [mkTurn current "" false]
    | Some u =>
        if isFinal u
        then next = (prev ++ [mkTurn current "" false])%list
        else next = updateLast (withUser current) prev /\
             List.length next = List.length prev
    end) /\
  (forall (current : string) (prev : list Turn),
     match lastTurn prev with
     | None => prev = [] /\ inputUpdater current prev = [mkTurn current "" false]
     | Some u =>
         if isFinal u
         then inputUpdater current prev
              = (prev ++ [mkTurn current "" false])%list
         else inputUpdater current prev = updateLast (withUser current) prev /\
              List.length (inputUpdater current prev) = List.length prev
     end).
Proof.
  intros H0 s.
  assert (Hs : sealedButLast (transcriptions s) = true).
  { apply run_sealed. now rewrite H0. }
  assert (Hr : sealedButLast (transcriptions (render s)) = true).
  { apply (step_sealed Render s Hs). }
  split; [exact Hs|]. split; [now apply sealedButLast_openTurns|].
  split.
  - intros t prev next current.
    split.
    + subst next. rewrite onInputTranscription_rendered.
      now apply inputUpdater_sealed.
    + subst next prev current. rewrite onInputTranscription_rendered.
      apply inputUpdater_rule.
  - apply inputUpdater_rule.
Qed.

Lemma open_turn_invariant_witness :
  let s := run [Message 0%Q (partialInput "Hi");
                Message 0%Q (partialOutput "Hello"); Render;
                Message 0%Q turnCompleteMessage;
                Message 0%Q (partialInput "Bye")] initialState in
  sealedButLast (transcriptions s) = true /\
  openTurns (transcriptions s) <= 1 /\
  (forall t : Transcription,
    let prev := transcriptions (render s) in
    let next := transcriptions (render (onInputTranscription t (render s))) in
    let current := Js.concatText (currentInputTranscriptionRef s) (text t) in
    sealedButLast next = true /\
    match lastTurn prev with
    | None => prev = [] /\ next = [mkTurn current "" false]
    | Some u =>
        if isFinal u
        then next = (prev ++ [mkTurn current "" false])%list
        else next = updateLast (withUser current) prev /\
             List.length next = List.length prev
    end) /\
  (forall (current : string) (prev : list Turn),
     match lastTurn prev with
     | None => prev = [] /\ inputUpdater current prev = [mkTurn current "" false]
     | Some u =>
         if isFinal u
         then inputUpdater current prev
              = (prev ++ [mkTurn current "" false])%list
         else inputUpdater current prev = updateLast (withUser current) prev /\
              List.length (inputUpdater current prev) = List.length prev
     end).
Proof.
  apply (open_turn_invariant
           [Message 0%Q (partialInput "Hi");
            Message 0%Q (partialOutput "Hello"); Render;
            Message 0%Q turnCompleteMessage;
            Message 0%Q (partialInput "Bye")] initialState).
  reflexivity.
Defined.

(** C9 as worded asks for exactly one open turn in every reachable state.
    Before any event, and again once a turn is sealed, no turn is open. *)
Lemma exactly_one_open_turn_fails :
  openTurns (transcriptions (run [] initialState)) <> 1 /\
  transcriptions
    (run [Message 0%Q (partialInput "Hi"); Render;
          Message 0%Q turnCompleteMessage; Render] initialState)
    = [mkTurn "Hi" "" true] /\
  openTurns
    (transcriptions
       (run [Message 0%Q (partialInput "Hi"); Render;
             Message 0%Q turnCompleteMessage; Render] initialState)) <> 1.
Proof.
  split; [vm_compute; discriminate|].
  split; [reflexivity | vm_compute; discriminate].
Qed.

(** ** Output transcription before any turn exists *)

Lemma updateLast_removelast (f : Turn -> Turn) (l : list Turn) :
  removelast (updateLast f l) = removelast l.
Proof.
  induction l as [|t l IH]; [reflexivity|].
  destruct l as [|u l]; [reflexivity|].
  rewrite updateLast_cons.
  destruct (updateLast_nonempty f u l) as (u' & r & E).
  rewrite E in *. cbn [removelast] in *. f_equal. exact IH.
Qed.

Lemma updateLast_withModel_fields (current : string) (l : list Turn) :
  map user (updateLast (withModel current) l) = map user l /\
  map isFinal (updateLast (withModel current) l) = map isFinal l.
Proof.
  induction l as [|t l IH]; [split; reflexivity|].
  destruct l as [|u l]; [split; reflexivity|].
  rewrite updateLast_cons. cbn [map]. destruct IH as [IH1 IH2].
  split; f_equal; assumption.
Qed.

(** The updater of an output transcription never adds a turn: it keeps
    every turn but the last, and of the last it changes the model text
    only. *)
Lemma outputUpdater_frame (current : string) (prev : list Turn) :
  List.length (outputUpdater current prev) = List.length prev /\
  removelast (outputUpdater current prev) = removelast prev /\
  map user (outputUpdater current prev) = map user prev /\
  map isFinal (outputUpdater current prev) = map isFinal prev.
Proof.
  unfold outputUpdater.
  destruct prev as [|a l]; [repeat split; reflexivity|].
  split; [apply updateLast_length|].
  split; [apply updateLast_removelast|].
  apply updateLast_withModel_fields.
Qed.

(** So does the handler, seen from one render to the next. *)
Lemma output_never_opens_turn (t : Transcription) (s : VoiceState) :
  pendingUpdates s = [] ->
  let prev := transcriptions s in
  let next := transcriptions (render (onOutputTranscription t s)) in
  List.length next = List.length prev /\
  removelast next = removelast prev /\
  map user next = map user prev /\
  map isFinal next = map isFinal prev.
Proof.
  intros Hp. destruct s as [st tr no se ic oc au pr nx srcs ci co sc pu].
  simpl in Hp. subst pu. simpl. apply outputUpdater_frame.
Qed.

(** *** The shape of the transcript does not depend on the texts

    Which updates add a turn and which turns are final is decided by the
    flags alone, so two runs of the same queue over transcripts with the same
    flags end with the same flags, whatever the accumulators hold. *)

Lemma lastTurn_flag (l l' : list Turn) :
  map isFinal l = map isFinal l' ->
  option_map isFinal (lastTurn l) = option_map isFinal (lastTurn l').
Proof.
  revert l'. induction l as [|a l IH]; intros [|a' l'] H;
    try discriminate; [reflexivity|].
  cbn [map] in H. injection H as Ha Hl.
  destruct l as [|b l], l' as [|b' l']; try discriminate.
  - simpl. now rewrite Ha.
  - apply (IH (b' :: l') Hl).
Qed.

Lemma updateLast_flags (f f' : Turn -> Turn) :
  (forall t t', isFinal t = isFinal t' -> isFinal (f t) = isFinal (f' t')) ->
  forall l l', map isFinal l = map isFinal l' ->
               map isFinal (updateLast f l) = map isFinal (updateLast f' l').
Proof.
  intros Hf. induction l as [|a l IH]; intros [|a' l'] H;
    try discriminate; [reflexivity|].
  cbn [map] in H. injection H as Ha Hl.
  destruct l as [|b l], l' as [|b' l']; try discriminate.
  - simpl. f_equal. now apply Hf.
  - rewrite !updateLast_cons. cbn [map]. rewrite Ha. f_equal.
    apply (IH (b' :: l') Hl).
Qed.

Lemma applyUpdate_flags (i o i' o' : string) (l l' : list Turn) (u : Update) :
  map isFinal l = map isFinal l' ->
  map isFinal (applyUpdate i o l u) = map isFinal (applyUpdate i' o' l' u).
Proof.
  intros H. destruct u; simpl.
  - reflexivity.
  - unfold inputUpdater. pose proof (lastTurn_flag l l' H) as Hl.
    destruct (lastTurn l) as [a|], (lastTurn l') as [a'|];
      try discriminate.
    + simpl in Hl. injection Hl as Hl. rewrite <- Hl.
      destruct (isFinal a).
      * rewrite !map_app, H. reflexivity.
      * apply updateLast_flags; [|exact H]. intros t t' E. exact E.
    + rewrite !map_app, H. reflexivity.
  - unfold outputUpdater.
    destruct l as [|a l], l' as [|a' l']; try discriminate; [reflexivity|].
    apply updateLast_flags; [|exact H]. intros t t' E. exact E.
  - unfold completeUpdater.
    destruct l as [|a l], l' as [|a' l']; try discriminate; [reflexivity|].
    apply updateLast_flags; [|exact H]. reflexivity.
Qed.

Lemma updates_flags (i o i' o' : string) (us : list Update) :
  forall l l', map isFinal l = map isFinal l' ->
  map isFinal (fold_left (applyUpdate i o) us l)
  = map isFinal (fold_left (applyUpdate i' o') us l').
Proof.
  induction us as [|u us IH]; intros l l' H; simpl; [exact H|].
  apply IH, applyUpdate_flags, H.
Qed.

(** Whatever is still queued, handling an output transcription does not
    change how many turns the next render shows. *)
Lemma output_keeps_length (t : Transcription) (s : VoiceState) :
  List.length (transcriptions (render (onOutputTranscription t s)))
  = List.length (transcriptions (render s)).
Proof.
  destruct s as [st tr no se ic oc au pr nx srcs ci co sc pu]. simpl.
  rewrite fold_left_app. simpl.
  destruct (outputUpdater_frame (Js.concatText co (text t))
              (fold_left (applyUpdate ci (Js.concatText co (text t))) pu tr))
    as (Hl & _). rewrite Hl.
  rewrite <- (length_map isFinal), <- (length_map isFinal (fold_left _ _ _)).
  f_equal. apply updates_flags. reflexivity.
Qed.

(** C10, as the code has it.  A partial output transcription that arrives
    while the transcript is empty leaves it empty, yet its text is appended
    to the output accumulator.  The text therefore shows up in the model
    field as soon as a turn has been opened and a further output
    transcription arrives; it is gone only when a turn-complete message
    resets the accumulator first.  This holds wherever React renders in
    between.  An output transcription never changes the number of turns. *)
Theorem early_output_text_is_accumulated
        (x : string) (now : Q) (s : VoiceState) :
  transcriptions s = [] ->
  pendingUpdates s = [] ->
  let s1 := fst (onmessage now (partialOutput x) s) in
  transcriptions s1 = [] /\
  transcriptions (render s1) = [] /\
  currentOutputTranscriptionRef s1 = currentOutputTranscriptionRef s ++ x /\
  (forall (y z : string) (now2 now3 : Q) (r1 r2 : bool),
     transcriptions
       (run (rendering r1 ++
             Message now2 (partialInput y) :: rendering r2 ++
             [Message now3 (partialOutput z); Render]) s1)
     = [mkTurn (currentInputTranscriptionRef s ++ y)
               ((currentOutputTranscriptionRef s ++ x) ++ z) false]) /\
  (forall (y z : string) (now2 now3 now4 : Q) (r1 r2 r3 : bool),
     transcriptions
       (run (rendering r1 ++
             Message now2 turnCompleteMessage :: rendering r2 ++
             Message now3 (partialInput y) :: rendering r3 ++
             [Message now4 (partialOutput z); Render]) s1)
     = [mkTurn y z false]) /\
  (forall (t : Transcription) (s' : VoiceState),
     List.length (transcriptions (render (onOutputTranscription t s')))
     = List.length (transcriptions (render s'))) /\
  (forall (t : Transcription) (s' : VoiceState),
     pendingUpdates s' = [] ->
     let prev := transcriptions s' in
     let next := transcriptions (render (onOutputTranscription t s')) in
     removelast next = removelast prev /\
     map user next = map user prev /\
     map isFinal next = map isFinal prev).
Proof.
  intros H Hp.
  destruct s as [st tr no se ic oc au pr nx srcs ci co sc pu].
  simpl in H, Hp. subst tr pu.
  split; [reflexivity|]. split; [reflexivity|]. split; [reflexivity|].
  split; [intros y z now2 now3 [|] [|]; reflexivity|].
  split; [intros y z now2 now3 now4 [|] [|] [|]; reflexivity|].
  split; [intros t s'; apply output_keeps_length|].
  intros t s' Hs'. apply (output_never_opens_turn t s' Hs').
Qed.

Lemma early_output_text_is_accumulated_witness :
  let s1 := fst (onmessage 0%Q (partialOutput "Hi ") initialState) in
  transcriptions s1 = [] /\
  transcriptions (render s1) = [] /\
  currentOutputTranscriptionRef s1
    = currentOutputTranscriptionRef initialState ++ "Hi " /\
  (forall (y z : string) (now2 now3 : Q) (r1 r2 : bool),
     transcriptions
       (run (rendering r1 ++
             Message now2 (partialInput y) :: rendering r2 ++
             [Message now3 (partialOutput z); Render]) s1)
     = [mkTurn (currentInputTranscriptionRef initialState ++ y)
               ((currentOutputTranscriptionRef initialState ++ "Hi ") ++ z)
               false]) /\
  (forall (y z : string) (now2 now3 now4 : Q) (r1 r2 r3 : bool),
     transcriptions
       (run (rendering r1 ++
             Message now2 turnCompleteMessage :: rendering r2 ++
             Message now3 (partialInput y) :: rendering r3 ++
             [Message now4 (partialOutput z); Render]) s1)
     = [mkTurn y z false]) /\
  (forall (t : Transcription) (s' : VoiceState),
     List.length (transcriptions (render (onOutputTranscription t s')))
     = List.length (transcriptions (render s'))) /\
  (forall (t : Transcription) (s' : VoiceState),
     pendingUpdates s' = [] ->
     let prev := transcriptions s' in
     let next := transcriptions (render (onOutputTranscription t s')) in
     removelast next = removelast prev /\
     map user next = map user prev /\
     map isFinal next = map isFinal prev).
Proof.
  apply (early_output_text_is_accumulated "Hi " 0%Q initialState);
    reflexivity.
Defined.

(** C10 as worded has the early text discarded and lost from the transcript.
    The event does change the state, and the text "Hi " that came before any
    input transcription is displayed in the turn opened afterwards, whether
    React renders after each message or only after the last. *)
Lemma early_output_text_not_lost :
  fst (onmessage 0%Q (partialOutput "Hi ") initialState) <> initialState /\
  transcriptions
    (run [Message 0%Q (partialOutput "Hi "); Render;
          Message 0%Q (partialInput "yo"); Render;
          Message 0%Q (partialOutput "there"); Render] initialState)
  = [mkTurn "yo" "Hi there" false] /\
  transcriptions
    (run [Message 0%Q (partialOutput "Hi ");
          Message 0%Q (partialInput "yo");
          Message 0%Q (partialOutput "there"); Render] initialState)
  = [mkTurn "yo" "Hi there" false] /\
  [mkTurn "yo" "Hi there" false] <> [mkTurn "yo" "there" false].
Proof.
  repeat split; try reflexivity; vm_compute; discriminate.
Qed.

End VoiceAssistantTheory.

(* ===================================================================== *)
(** * Properties of the sign-up adapter *)
(* ===================================================================== *)

Module AuthTheory.
Import Js Auth AuthSpec.

Lemma signUp_provider_error
      {W : Type} (p : Provider W) (payload : SignUpPayload) (w : World W)
      (e : JsError) :
  authError (signUpAnswer p payload w) = Some e ->
  signUp p payload w = (inl e, afterSignUp p payload w).
Proof.
  unfold signUpAnswer, afterSignUp, signUp, Eff.bind, request.
  destruct (auth_signUp p (payloadEmail payload) (payloadPassword payload)
              (payloadName payload) (ext w)) as [r x]; simpl.
  intros He. rewrite He. reflexivity.
Qed.

Lemma signUp_no_user
      {W : Type} (p : Provider W) (payload : SignUpPayload) (w : World W) :
  authError (signUpAnswer p payload w) = None ->
  dataUser (signUpAnswer p payload w) = None ->
  signUp p payload w =
  (inl (ErrorObj "Sign up succeeded but no user was returned."),
   afterSignUp p payload w).
Proof.
  unfold signUpAnswer, afterSignUp, signUp, Eff.bind, request.
  destruct (auth_signUp p (payloadEmail payload) (payloadPassword payload)
              (payloadName payload) (ext w)) as [r x]; simpl.
  intros He Hu. rewrite He, Hu. reflexivity.
Qed.

(** C4.  When the provider answers the sign-up request with an error,
    [signUp] throws that very error; when it answers with neither an error
    nor a user, [signUp] throws its own error.  In both cases no user is
    returned and the sign-up request is the only request made: the profile
    is not written. *)
Theorem signUp_fails_without_user
        {W : Type} (p : Provider W) (payload : SignUpPayload) (w : World W) :
  (forall e : JsError,
     authError (signUpAnswer p payload w) = Some e ->
     signUp p payload w = (inl e, afterSignUp p payload w)) /\
  (authError (signUpAnswer p payload w) = None ->
   dataUser (signUpAnswer p payload w) = None ->
   signUp p payload w =
   (inl (ErrorObj "Sign up succeeded but no user was returned."),
    afterSignUp p payload w)) /\
  calls (afterSignUp p payload w) =
  (calls w ++ [AuthSignUp (payloadEmail payload) (payloadPassword payload)
                 (payloadName payload)])%list.
Proof.
  split; [|split].
  - intros e. apply signUp_provider_error.
  - apply signUp_no_user.
  - reflexivity.
Qed.

Lemma signUp_fails_without_user_witness :
  signUp rejecting ada (mkWorld tt []) =
  (inl (Thrown "User already registered"),
   mkWorld tt [AuthSignUp "ada@example.org" "secret" "Ada"]) /\
  signUp silent ada (mkWorld tt []) =
  (inl (ErrorObj "Sign up succeeded but no user was returned."),
   mkWorld tt [AuthSignUp "ada@example.org" "secret" "Ada"]).
Proof.
  split.
  - apply (proj1 (signUp_fails_without_user rejecting ada (mkWorld tt []))).
    reflexivity.
  - apply (proj1 (proj2 (signUp_fails_without_user silent ada (mkWorld tt []))));
      reflexivity.
Defined.

(** On success with a name, the profile is written after the sign-up. *)
Lemma signUp_success_writes_profile
      {W : Type} (p : Provider W) (payload : SignUpPayload) (w : World W)
      (u : ProviderUser) :
  authError (signUpAnswer p payload w) = None ->
  dataUser (signUpAnswer p payload w) = Some u ->
  truthy (payloadName payload) = true ->
  fst (profiles_upsert p (userId u) (payloadName payload)
         (ext (afterSignUp p payload w))) = None ->
  fst (signUp p payload w) = inr (mapUser u) /\
  calls (snd (signUp p payload w)) =
  (calls w ++ [AuthSignUp (payloadEmail payload) (payloadPassword payload)
                 (payloadName payload);
               ProfilesUpsert (userId u) (payloadName payload)])%list.
Proof.
  unfold signUpAnswer, afterSignUp, signUp, Eff.bind, Eff.when, request.
  destruct (auth_signUp p (payloadEmail payload) (payloadPassword payload)
              (payloadName payload) (ext w)) as [r x]; simpl.
  intros He Hu Hn Hp. rewrite He, Hu, Hn. simpl.
  destruct (profiles_upsert p (userId u) (payloadName payload) x) as [pe y].
  simpl in *. subst pe. simpl. rewrite <- app_assoc. split; reflexivity.
Qed.

End AuthTheory.

(* ===================================================================== *)
(** * Properties of the application shell *)
(* ===================================================================== *)

Module AppTheory.
Import Js App AppSpec.

(** In sign-up mode a provider error leaves the [user] cell, and the whole
    component state, as it was. *)
Lemma handleAuthenticate_signUp_error
      {W : Type} (p : Auth.Provider W) (payload : AuthPayload)
      (n : string) (s : Sys W) (e : JsError) :
  authMode (app s) = Some signup ->
  payloadName payload = Some n ->
  truthy n = true ->
  Auth.authError
    (fst (Auth.auth_signUp p (payloadEmail payload) (payloadPassword payload)
            n (Auth.ext (world s)))) = Some e ->
  fst (handleAuthenticate p payload s) = inl e /\
  app (snd (handleAuthenticate p payload s)) = app s.
Proof.
  intros Hm Hn Ht He.
  unfold handleAuthenticate, Eff.bind, Eff.get, liftAuth.
  rewrite Hm, Hn, Ht.
  rewrite (AuthTheory.signUp_provider_error p
             {| Auth.payloadName := n;
                Auth.payloadEmail := payloadEmail payload;
                Auth.payloadPassword := payloadPassword payload |}
             (world s) e He).
  split; reflexivity.
Qed.

(** ** Conversation titles *)

Lemma generateTitle_studyMessage :
  generateTitleFromMessage studyMessage = studyTitle.
Proof. reflexivity. Qed.

Lemma find_map_same_id (cid : string) (g : Conversation -> Conversation)
      (l : list Conversation) :
  (forall c, id (g c) = id c) ->
  find (fun conv => String.eqb (id conv) cid) (map g l) =
  option_map g (find (fun conv => String.eqb (id conv) cid) l).
Proof.
  intros Hg. induction l as [|c l IH]; [reflexivity|].
  simpl. rewrite Hg. destruct (String.eqb (id c) cid); [reflexivity | exact IH].
Qed.

(** A handler whose render shows a title other than the default never
    retitles, whatever the list has become. *)
Lemma updateConversationTitle_keeps_changed_title
      (rendered : list Conversation) (a : AppState) (cid message : string)
      (c : Conversation) :
  find (fun conv => String.eqb (id conv) cid) rendered = Some c ->
  title c <> DEFAULT_CONVERSATION_TITLE ->
  updateConversationTitle rendered cid message a = (a, []).
Proof.
  intros Hf Ht. unfold updateConversationTitle. rewrite Hf.
  destruct (String.eqb (title c) DEFAULT_CONVERSATION_TITLE) eqn:E.
  - apply String.eqb_eq in E. contradiction.
  - reflexivity.
Qed.

(** What an assignment does when the handler's render shows the default
    title. *)
Lemma updateConversationTitle_default
      (rendered : list Conversation) (a : AppState) (cid message : string)
      (c : Conversation) :
  find (fun conv => String.eqb (id conv) cid) rendered = Some c ->
  title c = DEFAULT_CONVERSATION_TITLE ->
  updateConversationTitle rendered cid message a =
  (setConversations
     (map (fun conv => if String.eqb (id conv) cid
                       then withTitle (generateTitleFromMessage message) conv
                       else conv)) a,
   [ConversationsUpdateTitle cid (generateTitleFromMessage message)]).
Proof.
  intros Hf Ht. unfold updateConversationTitle. rewrite Hf, Ht. reflexivity.
Qed.

(** C1, as the code has it.  For a conversation that still has the default
    title, the first message [studyMessage] gives every conversation of
    that id the title "Can you help me study for..." (six words, then the
    ellipsis character), leaves the other conversations alone and sends one
    title update; any later attempt on the same conversation, made through
    the handler of a render that shows the assigned title, changes nothing
    and sends nothing, whatever the state has become. *)
Theorem title_assigned_once
        (a : AppState) (cid later : string) (c : Conversation) :
  find (fun conv => String.eqb (id conv) cid) (conversations a) = Some c ->
  title c = DEFAULT_CONVERSATION_TITLE ->
  let a1 := fst (updateConversationTitle (conversations a) cid studyMessage a) in
  conversations a1 =
    map (fun conv => if String.eqb (id conv) cid
                     then withTitle studyTitle conv else conv)
        (conversations a) /\
  find (fun conv => String.eqb (id conv) cid) (conversations a1)
    = Some (withTitle studyTitle c) /\
  snd (updateConversationTitle (conversations a) cid studyMessage a)
    = [ConversationsUpdateTitle cid studyTitle] /\
  forall a2 : AppState,
    updateConversationTitle (conversations a1) cid later a2 = (a2, []).
Proof.
  intros Hf Ht a1.
  assert (E : updateConversationTitle (conversations a) cid studyMessage a =
              (setConversations
                 (map (fun conv => if String.eqb (id conv) cid
                                   then withTitle studyTitle conv else conv)) a,
               [ConversationsUpdateTitle cid studyTitle])).
  { rewrite (updateConversationTitle_default _ a cid studyMessage c Hf Ht).
    rewrite generateTitle_studyMessage. reflexivity. }
  assert (F : find (fun conv => String.eqb (id conv) cid) (conversations a1)
              = Some (withTitle studyTitle c)).
  { subst a1. rewrite E. simpl. rewrite find_map_same_id.
    - rewrite Hf. simpl.
      apply find_some in Hf as [_ Hid]. simpl in Hid. rewrite Hid. reflexivity.
    - intros conv. destruct (String.eqb (id conv) cid); reflexivity. }
  split; [subst a1; rewrite E; reflexivity|].
  split; [exact F|].
  split; [rewrite E; reflexivity|].
  intros a2.
  apply (updateConversationTitle_keeps_changed_title _ a2 cid later _ F).
  simpl. discriminate.
Qed.

Lemma title_assigned_once_witness :
  let a1 := fst (updateConversationTitle (conversations freshlyCreated) "c1"
                   studyMessage freshlyCreated) in
  conversations a1 =
    map (fun conv => if String.eqb (id conv) "c1"
                     then withTitle studyTitle conv else conv)
        (conversations freshlyCreated) /\
  find (fun conv => String.eqb (id conv) "c1") (conversations a1)
    = Some (withTitle studyTitle freshRow) /\
  snd (updateConversationTitle (conversations freshlyCreated) "c1"
         studyMessage freshlyCreated)
    = [ConversationsUpdateTitle "c1" studyTitle] /\
  forall a2 : AppState,
    updateConversationTitle (conversations a1) "c1"
      "Another question entirely" a2 = (a2, []).
Proof.
  apply (title_assigned_once freshlyCreated "c1" "Another question entirely"
           freshRow); reflexivity.
Defined.

(** The handler of the render that still shows the default title is another
    matter: called again before a new render replaces it, it passes its
    guard a second time, retitles the conversation from the later message
    and sends a second update. *)
Lemma stale_handler_retitles
      (a : AppState) (cid later : string) (c : Conversation) :
  find (fun conv => String.eqb (id conv) cid) (conversations a) = Some c ->
  title c = DEFAULT_CONVERSATION_TITLE ->
  let a1 := fst (updateConversationTitle (conversations a) cid studyMessage a) in
  snd (updateConversationTitle (conversations a) cid later a1)
    = [ConversationsUpdateTitle cid (generateTitleFromMessage later)] /\
  find (fun conv => String.eqb (id conv) cid)
       (conversations
          (fst (updateConversationTitle (conversations a) cid later a1)))
    = Some (withTitle (generateTitleFromMessage later) c).
Proof.
  intros Hf Ht a1.
  rewrite (updateConversationTitle_default _ a1 cid later c Hf Ht).
  split; [reflexivity|]. simpl. subst a1.
  rewrite (updateConversationTitle_default _ a cid studyMessage c Hf Ht).
  simpl. rewrite map_map. rewrite find_map_same_id.
  - rewrite Hf. simpl.
    apply find_some in Hf as [_ Hid]. simpl in Hid.
    rewrite Hid. simpl. rewrite Hid. reflexivity.
  - intros conv. destruct (String.eqb (id conv) cid) eqn:E; simpl;
      rewrite E; reflexivity.
Qed.

(** C1 as worded expects the seven-word title "Can you help me study for
    my..." after the first message on a freshly created conversation.  The
    title that is assigned has six words. *)
Lemma seven_word_title_not_assigned :
  map title
      (conversations
         (fst (onFirstUserMessage freshlyCreated studyMessage freshlyCreated)))
    = ["Can you help me study for" ++ ellipsis] /\
  map title
      (conversations
         (fst (onFirstUserMessage freshlyCreated studyMessage freshlyCreated)))
    <> ["Can you help me study for my" ++ ellipsis].
Proof.
  split; [reflexivity | vm_compute; discriminate].
Qed.

End AppTheory.

(* ===================================================================== *)
(** * Properties of the chat component *)
(* ===================================================================== *)

Module ChatBotTheory.
Import Js ChatBot ChatBotSpec.

(** ** Sending nothing *)

(** C3.  When the input trims to the empty string and nothing is staged,
    [handleSendMessage] returns at once: no call leaves the component (so
    nothing reaches the model session), no message is appended, and the
    component, the world and the call log are what they were. *)
Theorem send_nothing_is_ignored
        {W : Type} (svc : Services W) (props : ChatBotProps) (s : Sys W) :
  trim (input (comp s)) = "" ->
  pendingAttachments (comp s) = [] ->
  handleSendMessage svc props s = (inr tt, s) /\
  messages (comp (snd (handleSendMessage svc props s))) = messages (comp s) /\
  calls (snd (handleSendMessage svc props s)) = calls s.
Proof.
  intros Ht Hp.
  assert (E : handleSendMessage svc props s = (inr tt, s)).
  { unfold handleSendMessage, Eff.bind, Eff.get. rewrite Ht, Hp. reflexivity. }
  rewrite E. repeat split; reflexivity.
Qed.

Lemma send_nothing_is_ignored_witness :
  let s := mkSys (setInput "   " ready) 0 [] in
  handleSendMessage cloud ada s = (inr tt, s) /\
  messages (comp (snd (handleSendMessage cloud ada s))) = messages (comp s) /\
  calls (snd (handleSendMessage cloud ada s)) = calls s.
Proof.
  apply (send_nothing_is_ignored cloud ada (mkSys (setInput "   " ready) 0 []));
    reflexivity.
Defined.

(** A non-empty input does reach the model session. *)
Example send_text_reaches_model :
  let s := mkSys (setInput " hi " ready) 0 [] in
  map ChatMessage.content
      (messages (comp (snd (handleSendMessage cloud ada s))))
    = ["Hello Ada!"; "hi"; "Echo: hi"] /\
  In (ChatSendMessage "hi") (calls (snd (handleSendMessage cloud ada s))).
Proof.
  split; [reflexivity | vm_compute; tauto].
Qed.

(** ** Loading history *)

Lemma resolveAttachment_run {W : Type} (svc : Services W)
      (a : PersistedAttachment.t) (s : Sys W) :
  resolveAttachment svc a s =
  (inr (shownAs a
          (if signingFailed (signingAnswer svc a s) then "#"
           else match signedUrl (signingAnswer svc a s) with
                | Some u => u
                | None => "#"
                end)),
   afterSigning svc a s).
Proof.
  unfold resolveAttachment, signingAnswer, afterSigning, signingFailed,
    Eff.bind, request.
  destruct (storage_createSignedUrl svc ATTACHMENT_BUCKET
              (PersistedAttachment.storagePath a) SIGNED_URL_TTL_SECONDS
              (ext s)) as [r x]; simpl.
  destruct (signedError r); [reflexivity|].
  destruct (signedUrl r) as [u|]; [|reflexivity].
  destruct (truthy u); reflexivity.
Qed.

Lemma resolveAttachments_total {W : Type} (svc : Services W)
      (l : list PersistedAttachment.t) : forall s : Sys W,
  exists atts s',
    resolveAttachments svc l s = (inr atts, s') /\
    Forall2 resolvedFrom l atts /\ comp s' = comp s.
Proof.
  induction l as [|a l IH]; intros s; simpl.
  - exists [], s. repeat split. constructor.
  - unfold Eff.bind. rewrite resolveAttachment_run.
    destruct (IH (afterSigning svc a s)) as (atts & s' & E & F & C).
    rewrite E. eexists; eexists. split; [reflexivity|]. split.
    + constructor; [eexists; reflexivity | exact F].
    + exact C.
Qed.

Lemma resolveEntry_total {W : Type} (svc : Services W) (e : Entry)
      (s : Sys W) :
  exists m s', resolveEntry svc e s = (inr m, s') /\ messageFrom e m /\
               comp s' = comp s.
Proof.
  unfold resolveEntry, messageFrom, Eff.bind.
  destruct (entryAttachments e) as [persisted|].
  - destruct (resolveAttachments_total svc persisted s)
      as (atts & s' & E & F & C).
    rewrite E. simpl. eexists; eexists. split; [reflexivity|].
    split; [|exact C]. simpl. repeat split. exists atts. split; auto.
  - simpl. eexists; eexists. split; [reflexivity|].
    split; [|reflexivity]. simpl. repeat split.
Qed.

Lemma resolveEntries_total {W : Type} (svc : Services W) (data : list Entry) :
  forall s : Sys W,
  exists msgs s', resolveEntries svc data s = (inr msgs, s') /\
                  Forall2 messageFrom data msgs /\ comp s' = comp s.
Proof.
  induction data as [|e data IH]; intros s; simpl.
  - exists [], s. repeat split. constructor.
  - unfold Eff.bind.
    destruct (resolveEntry_total svc e s) as (m & s1 & E & F & C).
    rewrite E.
    destruct (IH s1) as (msgs & s2 & E2 & F2 & C2).
    rewrite E2. eexists; eexists. split; [reflexivity|].
    split; [constructor; assumption | congruence].
Qed.

(** *** Each attachment is signed on its own *)

Lemma resolveAttachments_run {W : Type} (svc : Services W)
      (l : list PersistedAttachment.t) : forall s : Sys W,
  resolveAttachments svc l s =
  (inr (shownAlong svc l (ext s)),
   mkSys (comp s) (worldAfterSignings svc l (ext s))
     (calls s ++
      map (fun a => StorageCreateSignedUrl ATTACHMENT_BUCKET
                      (PersistedAttachment.storagePath a)
                      SIGNED_URL_TTL_SECONDS) l)%list).
Proof.
  induction l as [|a l IH]; intros s; simpl.
  - unfold Eff.ret. rewrite app_nil_r. destruct s; reflexivity.
  - unfold Eff.bind. rewrite resolveAttachment_run, IH.
    unfold Eff.ret, afterSigning, signingAnswer, urlShown, signingAt. simpl.
    rewrite <- app_assoc. reflexivity.
Qed.

Lemma shownAlong_app {W : Type} (svc : Services W)
      (l1 l2 : list PersistedAttachment.t) : forall x : W,
  shownAlong svc (l1 ++ l2) x =
  (shownAlong svc l1 x ++ shownAlong svc l2 (worldAfterSignings svc l1 x))%list.
Proof.
  induction l1 as [|a l1 IH]; intros x; simpl; [reflexivity|].
  now rewrite IH.
Qed.

Lemma shownAlong_length {W : Type} (svc : Services W)
      (l : list PersistedAttachment.t) : forall x : W,
  List.length (shownAlong svc l x) = List.length l.
Proof.
  induction l as [|a l IH]; intros x; simpl; [reflexivity|].
  now rewrite IH.
Qed.

Lemma worldAfterSignings_app {W : Type} (svc : Services W)
      (l1 l2 : list PersistedAttachment.t) : forall x : W,
  worldAfterSignings svc (l1 ++ l2) x =
  worldAfterSignings svc l2 (worldAfterSignings svc l1 x).
Proof.
  induction l1 as [|a l1 IH]; intros x; simpl; [reflexivity | apply IH].
Qed.

(** The loop over the rows: one message per row, and the attachments of the
    messages are those of the rows, each with the URL of its own answer. *)
Lemma resolveEntries_run {W : Type} (svc : Services W) (data : list Entry) :
  forall s : Sys W,
  exists msgs s',
    resolveEntries svc data s = (inr msgs, s') /\
    map ChatMessage.role msgs = map entryRole data /\
    map ChatMessage.content msgs = map entryContent data /\
    map (fun m => option_map (@List.length _) (ChatMessage.attachments m)) msgs
      = map (fun e => option_map (@List.length _) (entryAttachments e)) data /\
    shownAttachments msgs = shownAlong svc (storedAttachments data) (ext s) /\
    ext s' = worldAfterSignings svc (storedAttachments data) (ext s).
Proof.
  induction data as [|e data IH]; intros s.
  - exists [], s. repeat split.
  - cbn [resolveEntries]. unfold Eff.bind at 1. unfold resolveEntry.
    unfold Eff.bind at 1.
    destruct (entryAttachments e) as [persisted|] eqn:Ea.
    + unfold Eff.bind at 1. rewrite resolveAttachments_run.
      unfold Eff.bind, Eff.ret.
      match goal with
      | |- context [resolveEntries svc data ?st] =>
          destruct (IH st) as (msgs & s' & E & Hr & Hc & Hl & Hs & Hx)
      end.
      rewrite E.
      eexists; eexists. split; [reflexivity|].
      cbn [map ChatMessage.role ChatMessage.content ChatMessage.attachments
           option_map].
      rewrite Hr, Hc, Hl, Ea. cbn [option_map].
      rewrite shownAlong_length.
      split; [reflexivity|]. split; [reflexivity|]. split; [reflexivity|].
      unfold shownAttachments, storedAttachments in *.
      cbn [flat_map ChatMessage.attachments]. rewrite Ea, Hs.
      cbn [ext] in *.
      rewrite shownAlong_app, worldAfterSignings_app.
      split; [reflexivity | exact Hx].
    + cbn [Eff.ret].
      destruct (IH s) as (msgs & s' & E & Hr & Hc & Hl & Hs & Hx).
      unfold Eff.bind, Eff.ret. rewrite E.
      eexists; eexists. split; [reflexivity|].
      cbn [map ChatMessage.role ChatMessage.content ChatMessage.attachments
           option_map].
      rewrite Hr, Hc, Hl, Ea.
      split; [reflexivity|]. split; [reflexivity|]. split; [reflexivity|].
      unfold shownAttachments, storedAttachments in *.
      cbn [flat_map ChatMessage.attachments]. rewrite Ea.
      split; [exact Hs | exact Hx].
Qed.

(** C8.  When the rows are read, the history load returns one message per
    row, with the row's role and content and as many attachments as the row
    stores.  Each stored attachment is signed by a request of its own,
    asked after those of the attachments before it, and becomes, at its
    place, one display attachment with the same name, type, size and storage
    path: its URL is the marker "#" when that request fails (an error, or
    no URL), and the signed URL otherwise, whatever the other requests
    answer. *)
Theorem history_survives_signing_failures
        {W : Type} (svc : Services W) (currentUserId : string)
        (data : list Entry) (s : Sys W) :
  selectError (fst (messages_select svc currentUserId (ext s))) = None ->
  selectData (fst (messages_select svc currentUserId (ext s))) = Some data ->
  let x1 := snd (messages_select svc currentUserId (ext s)) in
  exists msgs,
    fst (fetchHistory svc currentUserId s) = inr msgs /\
    map ChatMessage.role msgs = map entryRole data /\
    map ChatMessage.content msgs = map entryContent data /\
    map (fun m => option_map (@List.length _) (ChatMessage.attachments m)) msgs
      = map (fun e => option_map (@List.length _) (entryAttachments e)) data /\
    forall (pre post : list PersistedAttachment.t) (a : PersistedAttachment.t),
      storedAttachments data = (pre ++ a :: post)%list ->
      let answer := fst (signingAt svc a (worldAfterSignings svc pre x1)) in
      exists before after,
        shownAttachments msgs =
          (before ++
           shownAs a (if signingFailed answer then "#"
                      else match signedUrl answer with
                           | Some u => u
                           | None => "#"
                           end) :: after)%list /\
        List.length before = List.length pre /\
        List.length after = List.length post.
Proof.
  intros He Hd x1.
  unfold fetchHistory, Eff.bind, request. subst x1.
  destruct (messages_select svc currentUserId (ext s)) as [r x].
  cbn [fst snd] in *. rewrite He, Hd.
  match goal with
  | |- context [resolveEntries svc data ?st] =>
      destruct (resolveEntries_run svc data st)
        as (msgs & s' & E & Hr & Hc & Hl & Hs & _)
  end.
  rewrite E. exists msgs. cbn [fst ext] in *.
  split; [reflexivity|]. split; [exact Hr|]. split; [exact Hc|].
  split; [exact Hl|].
  intros pre post a Hsplit. cbv zeta.
  rewrite Hs, Hsplit, shownAlong_app. cbn [shownAlong].
  eexists; eexists. split; [reflexivity|].
  split; apply shownAlong_length.
Qed.

Lemma history_survives_signing_failures_witness :
  let x1 := snd (messages_select cloud "u1" (ext (mkSys ready 0 []))) in
  exists msgs,
    fst (fetchHistory cloud "u1" (mkSys ready 0 [])) = inr msgs /\
    map ChatMessage.role msgs = map entryRole storedRows /\
    map ChatMessage.content msgs = map entryContent storedRows /\
    map (fun m => option_map (@List.length _) (ChatMessage.attachments m)) msgs
      = map (fun e => option_map (@List.length _) (entryAttachments e))
            storedRows /\
    forall (pre post : list PersistedAttachment.t) (a : PersistedAttachment.t),
      storedAttachments storedRows = (pre ++ a :: post)%list ->
      let answer := fst (signingAt cloud a (worldAfterSignings cloud pre x1)) in
      exists before after,
        shownAttachments msgs =
          (before ++
           shownAs a (if signingFailed answer then "#"
                      else match signedUrl answer with
                           | Some u => u
                           | None => "#"
                           end) :: after)%list /\
        List.length before = List.length pre /\
        List.length after = List.length post.
Proof.
  apply (history_survives_signing_failures cloud "u1" storedRows
           (mkSys ready 0 [])); reflexivity.
Defined.

(** The sample history loads with the lost file degraded and the other
    one signed. *)
Example history_with_placeholder :
  fst (fetchHistory cloud "u1" (mkSys ready 0 [])) =
  inr [ ChatMessage.mk ChatMessage.user "See my notes"
          (Some [ shownAs lostPdf "#";
                  shownAs keptPng "https://cdn.example/u1/old/kept.png" ]);
        ChatMessage.mk ChatMessage.model "Thanks" None ].
Proof. reflexivity. Qed.

(** ** Uploading the staged attachments *)

Lemma uploadOne_cases {W : Type} (svc : Services W) (uid : string)
      (timestamp : Z) (index : nat) (item : PendingAttachment.t) (s : Sys W) :
  let f := PendingAttachment.file item in
  let path := storagePathFor uid timestamp index (File.name f) in
  match uploadOne svc uid timestamp index item s with
  | (inr pr, s') =>
      (exists u, truthy u = true /\
                 pr = (persistedOf path f, displayOf path u f)) /\
      comp s' = comp s
  | (inl e, s') =>
      failsWith svc uid timestamp index item s e /\ comp s' = comp s
  end.
Proof.
  unfold failsWith, uploadAnswer, signAnswerAfterUpload, signingFailed,
    uploadOne, Eff.bind, request. simpl.
  destruct (storage_upload svc ATTACHMENT_BUCKET
              (storagePathFor uid timestamp index
                 (File.name (PendingAttachment.file item)))
              (PendingAttachment.file item) (ext s)) as [ue x1]; simpl.
  destruct ue as [e|]; simpl.
  - split; [left; reflexivity | reflexivity].
  - destruct (storage_createSignedUrl svc ATTACHMENT_BUCKET
                (storagePathFor uid timestamp index
                   (File.name (PendingAttachment.file item)))
                SIGNED_URL_TTL_SECONDS x1) as [r x2]; simpl.
    destruct (signedError r) as [e|]; simpl.
    + split; [right; repeat split | reflexivity].
    + destruct (signedUrl r) as [u|]; simpl.
      * destruct (truthy u) eqn:Tu; simpl.
        -- split; [exists u; split; [exact Tu | reflexivity] | reflexivity].
        -- split; [right; repeat split | reflexivity].
      * split; [right; repeat split | reflexivity].
Qed.

(** The loop either yields one pair per attachment, in order, or stops at
    the first attachment that fails, everything before it having succeeded. *)
Lemma uploadFrom_cases {W : Type} (svc : Services W) (uid : string)
      (timestamp : Z) (pending : list PendingAttachment.t) :
  forall (index : nat) (s : Sys W),
  match uploadFrom svc uid timestamp index pending s with
  | (inr pairs, s') =>
      (exists urls, List.length urls = List.length pending /\
                    pairs = expectedPairs uid timestamp index pending urls) /\
      comp s' = comp s
  | (inl e, s') =>
      (exists pre item post pairs s1,
         pending = (pre ++ item :: post)%list /\
         uploadFrom svc uid timestamp index pre s = (inr pairs, s1) /\
         List.length pairs = List.length pre /\
         failsWith svc uid timestamp (index + List.length pre) item s1 e /\
         s' = snd (uploadOne svc uid timestamp (index + List.length pre)
                     item s1)) /\
      comp s' = comp s
  end.
Proof.
  induction pending as [|item rest IH]; intros index s.
  - simpl. split; [exists []; split; reflexivity | reflexivity].
  - simpl. unfold Eff.bind.
    pose proof (uploadOne_cases svc uid timestamp index item s) as H1.
    simpl in H1.
    destruct (uploadOne svc uid timestamp index item s) as [[e|pr] s1] eqn:E1.
    + destruct H1 as [Hf Hc]. split; [|exact Hc].
      exists [], item, rest, [], s. simpl. rewrite Nat.add_0_r, E1.
      repeat split; assumption.
    + destruct H1 as [(u & Tu & Hp) Hc].
      specialize (IH (S index) s1).
      destruct (uploadFrom svc uid timestamp (S index) rest s1)
        as [[e|others] s2] eqn:E2.
      * destruct IH as [(pre & it & post & pairs & s3 & Hsplit & Hpre & Hlen
                         & Hfail & Hs2) Hc2].
        split; [|congruence].
        exists (item :: pre), it, post, (pr :: pairs), s3.
        simpl. unfold Eff.bind. rewrite E1, Hpre.
        replace (index + S (List.length pre)) with (S index + List.length pre)
          by lia.
        repeat split; try assumption.
        -- now rewrite Hsplit.
        -- now rewrite Hlen.
      * destruct IH as [(urls & Hlen & Ho) Hc2].
        split; [|congruence].
        exists (u :: urls). simpl. rewrite Hlen, Hp, Ho.
        split; reflexivity.
Qed.

Lemma revokeAll_comp {W : Type} (items : list PendingAttachment.t) :
  forall s : Sys W,
  fst (revokeAll items s) = inr tt /\
  comp (snd (revokeAll items s)) = comp s.
Proof.
  induction items as [|item rest IH]; intros s; simpl.
  - split; reflexivity.
  - unfold Eff.bind, perform.
    destruct (IH (mkSys (comp s) (ext s)
                    (calls s ++ [RevokeObjectURL
                                   (PendingAttachment.previewUrl item)])%list))
      as [H1 H2].
    split; assumption.
Qed.

(** [uploadAttachments] for a signed-in user, in one step: the clock, the
    loop, then the release of the previews and the clearing of the staged
    list. *)
Lemma uploadAttachments_run
      {W : Type} (svc : Services W) (props : ChatBotProps) (uid : string)
      (s : Sys W) :
  userId props = Some uid ->
  truthy uid = true ->
  uploadAttachments svc props s =
  match uploadFrom svc uid (fst (date_now svc (ext s))) 0
          (pendingAttachments (comp s)) (afterClock svc s) with
  | (inl e, s1) => (inl e, s1)
  | (inr pairs, s1) =>
      (inr {| persisted := map fst pairs; display := map snd pairs |},
       mkSys (setPendingAttachments []
                (comp (snd (revokeAll (pendingAttachments (comp s)) s1))))
             (ext (snd (revokeAll (pendingAttachments (comp s)) s1)))
             (calls (snd (revokeAll (pendingAttachments (comp s)) s1))))
  end.
Proof.
  intros Hu Ht. unfold uploadAttachments. rewrite Hu, Ht. cbn [negb].
  unfold afterClock, Eff.bind, request, Eff.get, Eff.ret, modifyComp,
    Eff.modify.
  destruct (date_now svc (ext s)) as [ts x]. cbn [fst snd comp].
  destruct (uploadFrom svc uid ts 0 (pendingAttachments (comp s))
              (mkSys (comp s) x (calls s ++ [DateNow])%list))
    as [[e|pairs] s1]; [reflexivity|].
  destruct (revokeAll_comp (pendingAttachments (comp s)) s1) as [Hr _].
  destruct (revokeAll (pendingAttachments (comp s)) s1) as [r s2].
  simpl in Hr. subst r. reflexivity.
Qed.

(** *** The loop, attachment by attachment *)

Lemma revokeAll_run {W : Type} (items : list PendingAttachment.t) :
  forall st : Sys W,
  revokeAll items st =
  (inr tt,
   mkSys (comp st) (ext st) (calls st ++ ChatBotMount.revocations items)%list).
Proof.
  unfold ChatBotMount.revocations.
  induction items as [|item rest IH]; intros st; simpl.
  - rewrite app_nil_r. destruct st; reflexivity.
  - unfold Eff.bind, perform. rewrite IH. simpl.
    rewrite <- app_assoc. reflexivity.
Qed.

(** One pass: an accepted attachment yields its pair after its two
    requests; another one throws its error after the requests it got to. *)
Lemma uploadOne_run {W : Type} (svc : Services W) (uid : string)
      (timestamp : Z) (index : nat) (item : PendingAttachment.t) (s : Sys W) :
  uploadOne svc uid timestamp index item s =
  if accepted svc uid timestamp index item (ext s)
  then (inr (pairAt svc uid timestamp index item (ext s)),
        mkSys (comp s) (snd (signAt svc uid timestamp index item (ext s)))
          (calls s ++
           [StorageUpload ATTACHMENT_BUCKET (pathAt uid timestamp index item)
              (PendingAttachment.file item);
            StorageCreateSignedUrl ATTACHMENT_BUCKET
              (pathAt uid timestamp index item) SIGNED_URL_TTL_SECONDS])%list)
  else (inl (failureAt svc uid timestamp index item (ext s)),
        mkSys (comp s) (worldAfterFailure svc uid timestamp index item (ext s))
          (calls s ++ failingRequests svc uid timestamp index item (ext s))%list).
Proof.
  unfold uploadOne, accepted, pairAt, failureAt, worldAfterFailure,
    failingRequests, grantedUrl, signAt, uploadAt, pathAt, signingFailed,
    Eff.bind, request, Eff.throw, Eff.ret.
  destruct (storage_upload svc ATTACHMENT_BUCKET
              (storagePathFor uid timestamp index
                 (File.name (PendingAttachment.file item)))
              (PendingAttachment.file item) (ext s)) as [[e|] x1];
    cbn [fst snd comp ext calls]; [reflexivity|].
  destruct (storage_createSignedUrl svc ATTACHMENT_BUCKET
              (storagePathFor uid timestamp index
                 (File.name (PendingAttachment.file item)))
              SIGNED_URL_TTL_SECONDS x1) as [r x2];
    cbn [fst snd comp ext calls].
  rewrite <- !app_assoc. cbn [app].
  destruct (signedError r) as [e|]; [reflexivity|].
  destruct (signedUrl r) as [u|]; [|reflexivity].
  destruct (truthy u); reflexivity.
Qed.

Lemma uploadFrom_accepted {W : Type} (svc : Services W) (uid : string)
      (timestamp : Z) (items : list PendingAttachment.t) :
  forall (index : nat) (s : Sys W),
  allAccepted svc uid timestamp index items (ext s) = true ->
  uploadFrom svc uid timestamp index items s =
  (inr (acceptedPairs svc uid timestamp index items (ext s)),
   mkSys (comp s) (worldAfterAll svc uid timestamp index items (ext s))
     (calls s ++ ChatBotMount.uploadRequests uid timestamp index items)%list).
Proof.
  induction items as [|item rest IH]; intros index s H.
  - simpl. unfold Eff.ret. rewrite app_nil_r. destruct s; reflexivity.
  - cbn [allAccepted] in H. apply andb_true_iff in H as [Ha Hr].
    cbn [uploadFrom]. unfold Eff.bind at 1. rewrite uploadOne_run, Ha.
    unfold Eff.bind at 1. rewrite IH by exact Hr.
    unfold Eff.ret. cbn [comp ext calls acceptedPairs worldAfterAll
                         ChatBotMount.uploadRequests].
    rewrite <- app_assoc. reflexivity.
Qed.

Lemma uploadFrom_fails {W : Type} (svc : Services W) (uid : string)
      (timestamp : Z) (pre : list PendingAttachment.t)
      (item : PendingAttachment.t) (post : list PendingAttachment.t) :
  forall (index : nat) (s : Sys W),
  allAccepted svc uid timestamp index pre (ext s) = true ->
  accepted svc uid timestamp (index + List.length pre) item
    (worldAfterAll svc uid timestamp index pre (ext s)) = false ->
  uploadFrom svc uid timestamp index (pre ++ item :: post) s =
  (inl (failureAt svc uid timestamp (index + List.length pre) item
          (worldAfterAll svc uid timestamp index pre (ext s))),
   mkSys (comp s)
     (worldAfterFailure svc uid timestamp (index + List.length pre) item
        (worldAfterAll svc uid timestamp index pre (ext s)))
     (calls s ++ ChatBotMount.uploadRequests uid timestamp index pre ++
      failingRequests svc uid timestamp (index + List.length pre) item
        (worldAfterAll svc uid timestamp index pre (ext s)))%list).
Proof.
  induction pre as [|p pre IH]; intros index s Hp Hf.
  - cbn [List.length worldAfterAll app ChatBotMount.uploadRequests] in *.
    rewrite Nat.add_0_r in *.
    cbn [uploadFrom]. unfold Eff.bind at 1. rewrite uploadOne_run, Hf.
    reflexivity.
  - cbn [allAccepted] in Hp. apply andb_true_iff in Hp as [Ha Hr].
    cbn [List.length worldAfterAll] in *.
    replace (index + S (List.length pre)) with (S index + List.length pre)
      in * by lia.
    change ((p :: pre) ++ item :: post)%list
      with (p :: (pre ++ item :: post))%list.
    cbn [uploadFrom]. unfold Eff.bind at 1. rewrite uploadOne_run, Ha.
    unfold Eff.bind at 1.
    match goal with
    | |- context [uploadFrom svc uid timestamp (S index) _ ?st] =>
        rewrite (IH (S index) st Hr Hf)
    end.
    cbn [comp ext calls ChatBotMount.uploadRequests].
    rewrite <- !app_assoc. reflexivity.
Qed.

(** Either every attachment is accepted in its turn, or there is a first
    one that is not. *)
Lemma first_refused {W : Type} (svc : Services W) (uid : string)
      (timestamp : Z) (items : list PendingAttachment.t) :
  forall (index : nat) (x : W),
  allAccepted svc uid timestamp index items x = true \/
  exists pre item post,
    items = (pre ++ item :: post)%list /\
    allAccepted svc uid timestamp index pre x = true /\
    accepted svc uid timestamp (index + List.length pre) item
      (worldAfterAll svc uid timestamp index pre x) = false.
Proof.
  induction items as [|item rest IH]; intros index x.
  - left. reflexivity.
  - destruct (accepted svc uid timestamp index item x) eqn:Ha.
    + destruct (IH (S index) (snd (signAt svc uid timestamp index item x)))
        as [Hr | (pre & it & post & Hs & Hp & Hf)].
      * left. cbn [allAccepted]. now rewrite Ha, Hr.
      * right. exists (item :: pre), it, post.
        split; [now rewrite Hs|].
        split; [cbn [allAccepted]; now rewrite Ha, Hp|].
        cbn [List.length worldAfterAll].
        replace (index + S (List.length pre)) with (S index + List.length pre)
          by lia.
        exact Hf.
    + right. exists [], item, rest.
      split; [reflexivity|]. split; [reflexivity|].
      cbn [List.length worldAfterAll]. now rewrite Nat.add_0_r.
Qed.

Lemma acceptedPairs_shape {W : Type} (svc : Services W) (uid : string)
      (timestamp : Z) (items : list PendingAttachment.t) :
  forall (index : nat) (x : W),
  List.length (acceptedPairs svc uid timestamp index items x)
    = List.length items /\
  map (fun p => PersistedAttachment.name (fst p))
      (acceptedPairs svc uid timestamp index items x)
    = map (fun item => File.name (PendingAttachment.file item)) items /\
  map (fun p => ChatAttachment.name (snd p))
      (acceptedPairs svc uid timestamp index items x)
    = map (fun item => File.name (PendingAttachment.file item)) items /\
  map (fun p => ChatAttachment.storagePath (snd p))
      (acceptedPairs svc uid timestamp index items x)
    = map (fun p => Some (PersistedAttachment.storagePath (fst p)))
          (acceptedPairs svc uid timestamp index items x).
Proof.
  induction items as [|item rest IH]; intros index x;
    [repeat split; reflexivity|].
  destruct (IH (S index) (snd (signAt svc uid timestamp index item x)))
    as (H1 & H2 & H3 & H4).
  cbn [acceptedPairs List.length map]. rewrite H1, H2, H3, H4.
  repeat split; reflexivity.
Qed.

(** C2.  For a signed-in user and any staged list of [N] attachments,
    whatever the storage answers:  if every attachment is accepted in its
    turn (uploaded, then signed with a non-empty URL), [uploadAttachments]
    returns [N] persisted and [N] display attachments, the i-th pair being
    for the i-th staged file, with its storage path and the URL its signing
    was answered with, after exactly one upload and one signing request per
    file, in order; the previews are then released and the staged list is
    cleared.  If some attachment is not accepted, [uploadAttachments] throws
    the error of the first such attachment (the upload error, else the
    signing error, else its own), having made the requests of the
    attachments before it and the requests of that one up to the failure,
    and nothing else: no pair is returned, nothing is asked for the
    attachments after it, no preview is released and the staged list is
    untouched.  One of the two cases always applies. *)
Theorem upload_all_or_nothing
        {W : Type} (svc : Services W) (props : ChatBotProps) (uid : string)
        (s : Sys W) :
  userId props = Some uid ->
  truthy uid = true ->
  let pending := pendingAttachments (comp s) in
  let timestamp := fst (date_now svc (ext s)) in
  let x0 := snd (date_now svc (ext s)) in
  let pairs := acceptedPairs svc uid timestamp 0 pending x0 in
  (allAccepted svc uid timestamp 0 pending x0 = true ->
   uploadAttachments svc props s =
   (inr {| persisted := map fst pairs; display := map snd pairs |},
    mkSys (setPendingAttachments [] (comp s))
      (worldAfterAll svc uid timestamp 0 pending x0)
      (calls s ++
       DateNow :: ChatBotMount.uploadRequests uid timestamp 0 pending ++
       ChatBotMount.revocations pending)%list)) /\
  (forall pre item post,
     pending = (pre ++ item :: post)%list ->
     allAccepted svc uid timestamp 0 pre x0 = true ->
     accepted svc uid timestamp (List.length pre) item
       (worldAfterAll svc uid timestamp 0 pre x0) = false ->
     uploadAttachments svc props s =
     (inl (failureAt svc uid timestamp (List.length pre) item
             (worldAfterAll svc uid timestamp 0 pre x0)),
      mkSys (comp s)
        (worldAfterFailure svc uid timestamp (List.length pre) item
           (worldAfterAll svc uid timestamp 0 pre x0))
        (calls s ++
         DateNow :: ChatBotMount.uploadRequests uid timestamp 0 pre ++
         failingRequests svc uid timestamp (List.length pre) item
           (worldAfterAll svc uid timestamp 0 pre x0))%list)) /\
  (allAccepted svc uid timestamp 0 pending x0 = true \/
   exists pre item post,
     pending = (pre ++ item :: post)%list /\
     allAccepted svc uid timestamp 0 pre x0 = true /\
     accepted svc uid timestamp (List.length pre) item
       (worldAfterAll svc uid timestamp 0 pre x0) = false) /\
  List.length pairs = List.length pending /\
  map (fun p => PersistedAttachment.name (fst p)) pairs
    = map (fun item => File.name (PendingAttachment.file item)) pending /\
  map (fun p => ChatAttachment.name (snd p)) pairs
    = map (fun item => File.name (PendingAttachment.file item)) pending /\
  map (fun p => ChatAttachment.storagePath (snd p)) pairs
    = map (fun p => Some (PersistedAttachment.storagePath (fst p))) pairs.
Proof.
  intros Hu Ht pending timestamp x0 pairs.
  pose proof (uploadAttachments_run svc props uid s Hu Ht) as R.
  fold pending timestamp in R.
  split; [|split; [|split]].
  - intros Ha. rewrite R.
    rewrite (uploadFrom_accepted svc uid timestamp pending 0 (afterClock svc s))
      by exact Ha.
    rewrite revokeAll_run. cbn [fst snd comp ext calls afterClock].
    subst pairs x0. rewrite <- !app_assoc. reflexivity.
  - intros pre item post Hs Hp Hf. rewrite R, Hs.
    rewrite (uploadFrom_fails svc uid timestamp pre item post 0
               (afterClock svc s) Hp Hf).
    cbn [fst snd comp ext calls afterClock Nat.add].
    subst x0. rewrite <- !app_assoc. reflexivity.
  - destruct (first_refused svc uid timestamp pending 0 x0)
      as [H | (pre & item & post & H1 & H2 & H3)].
    + left. exact H.
    + right. exists pre, item, post. repeat split; assumption.
  - apply acceptedPairs_shape.
Qed.

Lemma upload_all_or_nothing_witness :
  uploadAttachments cloud ada (mkSys staged 0 []) =
  (inr {| persisted :=
            map fst (acceptedPairs cloud "u1" 1700000000000 0
                       (pendingAttachments staged) 1);
          display :=
            map snd (acceptedPairs cloud "u1" 1700000000000 0
                       (pendingAttachments staged) 1) |},
   mkSys (setPendingAttachments [] staged)
     (worldAfterAll cloud "u1" 1700000000000 0 (pendingAttachments staged) 1)
     ([] ++
      DateNow
        :: ChatBotMount.uploadRequests "u1" 1700000000000 0
             (pendingAttachments staged) ++
           ChatBotMount.revocations (pendingAttachments staged))%list).
Proof.
  destruct (upload_all_or_nothing cloud ada "u1" (mkSys staged 0 [])
              eq_refl eq_refl) as (H & _).
  exact (H eq_refl).
Defined.

(** The complete run: two pairs, in staging order, previews released. *)
Example upload_two_files :
  uploadAttachments cloud ada (mkSys staged 0 []) =
  (inr {| persisted :=
            [ PersistedAttachment.mk "notes.pdf" "application/pdf" 2048
                "u1/1700000000000-0-notes.pdf";
              PersistedAttachment.mk "my photo.png" "image/png" 300000
                "u1/1700000000000-1-my_photo.png" ];
          display :=
            [ ChatAttachment.mk "notes.pdf"
                "https://cdn.example/u1/1700000000000-0-notes.pdf"
                "application/pdf" 2048 (Some "u1/1700000000000-0-notes.pdf");
              ChatAttachment.mk "my photo.png"
                "https://cdn.example/u1/1700000000000-1-my_photo.png"
                "image/png" 300000
                (Some "u1/1700000000000-1-my_photo.png") ] |},
   mkSys ready 5
     [ DateNow;
       StorageUpload ATTACHMENT_BUCKET "u1/1700000000000-0-notes.pdf" notesPdf;
       StorageCreateSignedUrl ATTACHMENT_BUCKET "u1/1700000000000-0-notes.pdf"
         SIGNED_URL_TTL_SECONDS;
       StorageUpload ATTACHMENT_BUCKET "u1/1700000000000-1-my_photo.png"
         photoPng;
       StorageCreateSignedUrl ATTACHMENT_BUCKET
         "u1/1700000000000-1-my_photo.png" SIGNED_URL_TTL_SECONDS;
       RevokeObjectURL "blob:preview-1";
       RevokeObjectURL "blob:preview-2" ]).
Proof. vm_compute. reflexivity. Qed.

(** The aborted run: the second upload is refused, its error is thrown, the
    first pair is not returned, no signing is asked for the second file, no
    preview is released and both files stay staged. *)
Example upload_stops_at_refused_file :
  uploadAttachments fullStorage ada (mkSys staged 0 []) =
  (inl (ErrorObj "Quota exceeded"),
   mkSys staged 4
     [ DateNow;
       StorageUpload ATTACHMENT_BUCKET "u1/1700000000000-0-notes.pdf" notesPdf;
       StorageCreateSignedUrl ATTACHMENT_BUCKET "u1/1700000000000-0-notes.pdf"
         SIGNED_URL_TTL_SECONDS;
       StorageUpload ATTACHMENT_BUCKET "u1/1700000000000-1-my_photo.png"
         photoPng ]).
Proof. vm_compute. reflexivity. Qed.

(** Without a user the call throws before anything is attempted. *)
Lemma uploadAttachments_requires_user
      {W : Type} (svc : Services W) (props : ChatBotProps) (s : Sys W) :
  truthyOpt (userId props) = false ->
  uploadAttachments svc props s =
  (inl (ErrorObj "Please sign in to share files."), s).
Proof.
  unfold uploadAttachments. destruct (userId props) as [uid|]; simpl.
  - intros H. rewrite H. reflexivity.
  - reflexivity.
Qed.

End ChatBotTheory.

(* ===================================================================== *)
(** * Further properties of the voice session controller *)
(* ===================================================================== *)

Module VoiceSessionTheory.
Import VoiceAssistant VoiceSession.

(** ** Strings and the last turn *)

Lemma append_assoc (a b c : string) : (a ++ b) ++ c = a ++ b ++ c.
Proof.
  induction a as [|x a IH]; simpl; [reflexivity | now rewrite IH].
Qed.

Lemma append_empty_r (a : string) : a ++ "" = a.
Proof.
  induction a as [|x a IH]; simpl; [reflexivity | now rewrite IH].
Qed.

Lemma lastTurn_snoc (l : list Turn) (t : Turn) :
  lastTurn (l ++ [t]) = Some t.
Proof.
  induction l as [|a l IH]; [reflexivity|].
  simpl. destruct (l ++ [t])%list eqn:E; [destruct l; discriminate | exact IH].
Qed.

Lemma updateLast_snoc (f : Turn -> Turn) (l : list Turn) (t : Turn) :
  updateLast f (l ++ [t]) = (l ++ [f t])%list.
Proof.
  induction l as [|a l IH]; [reflexivity|].
  simpl. destruct (l ++ [t])%list eqn:E; [destruct l; discriminate|].
  rewrite IH. reflexivity.
Qed.

Lemma lastTurn_all_final (l : list Turn) :
  forallb isFinal l = true ->
  match lastTurn l with Some u => isFinal u = true | None => True end.
Proof.
  induction l as [|a l IH]; intros H; [exact I|].
  simpl in H. apply andb_true_iff in H as [Ha Hl].
  destruct l as [|b l]; [exact Ha|]. apply IH, Hl.
Qed.

Lemma run_app (evs1 evs2 : list VoiceEvent) : forall s,
  run (evs1 ++ evs2) s = run evs2 (run evs1 s).
Proof.
  induction evs1 as [|e evs1 IH]; intros s; simpl; [reflexivity | apply IH].
Qed.

(** ** Queued input updates *)

(** After sealed turns the first queued input update opens a turn with the
    text the accumulator holds when React runs it. *)
Lemma inputUpdater_opens (i : string) (done : list Turn) :
  forallb isFinal done = true ->
  inputUpdater i done = (done ++ [mkTurn i "" false])%list.
Proof.
  intros Hf. pose proof (lastTurn_all_final _ Hf) as Hl.
  unfold inputUpdater.
  destruct (lastTurn done) as [u|]; [rewrite Hl|]; reflexivity.
Qed.

(** On an open turn it rewrites the user text. *)
Lemma inputUpdater_rewrites (i v m : string) (done : list Turn) :
  inputUpdater i (done ++ [mkTurn v m false])%list
  = (done ++ [mkTurn i m false])%list.
Proof.
  unfold inputUpdater. rewrite lastTurn_snoc. simpl.
  apply updateLast_snoc.
Qed.

Lemma inputs_on_open_turn (i o v m : string) (done : list Turn) (k : nat) :
  fold_left (applyUpdate i o) (repeat InputUpdate k)
            (done ++ [mkTurn v m false])%list
  = (done ++ [mkTurn (match k with 0 => v | S _ => i end) m false])%list.
Proof.
  revert v. induction k as [|k IH]; intros v; [reflexivity|].
  simpl. rewrite inputUpdater_rewrites, IH. destruct k; reflexivity.
Qed.

Lemma inputs_after_sealed (i o : string) (done : list Turn) (k : nat) :
  forallb isFinal done = true ->
  fold_left (applyUpdate i o) (repeat InputUpdate (S k)) done
  = (done ++ [mkTurn i "" false])%list.
Proof.
  intros Hf. simpl. rewrite (inputUpdater_opens i done Hf).
  rewrite inputs_on_open_turn. destruct k; reflexivity.
Qed.

(** ** Fragments of one utterance *)

(** What a render shows while an utterance is being assembled. *)
Lemma assembling_render (done : list Turn) (u : string) (s : VoiceState) :
  forallb isFinal done = true ->
  assembling done u s ->
  transcriptions (render s) = (done ++ [mkTurn u "" false])%list /\
  pendingUpdates (render s) = [] /\
  currentInputTranscriptionRef (render s) = u /\
  currentOutputTranscriptionRef (render s) = currentOutputTranscriptionRef s /\
  assembling done u (render s).
Proof.
  intros Hf (Hi & k & Hp & H).
  assert (E : transcriptions (render s) = (done ++ [mkTurn u "" false])%list).
  { destruct s as [st tr no se ic oc au pr nx srcs ci co sc pu].
    simpl in *. subst ci pu.
    destruct H as [[Ht Hk] | (shown & Ht & Hs)]; subst tr.
    - destruct k as [|k]; [lia|]. apply inputs_after_sealed, Hf.
    - rewrite inputs_on_open_turn. destruct k; [rewrite Hs|]; reflexivity. }
  split; [exact E|]. split; [reflexivity|]. split; [exact Hi|].
  split; [reflexivity|].
  split; [exact Hi|]. exists 0. split; [reflexivity|].
  right. exists u. split; [exact E | reflexivity].
Qed.

(** The first fragment after sealed turns. *)
Lemma first_fragment (now : Q) (t : string) (s : VoiceState) :
  pendingUpdates s = [] ->
  currentInputTranscriptionRef s = "" ->
  let s1 := fst (step (Message now (partialInput t)) s) in
  assembling (transcriptions s) t s1 /\ pendingUpdates s1 <> [] /\
  currentOutputTranscriptionRef s1 = currentOutputTranscriptionRef s.
Proof.
  intros Hp Hi.
  destruct s as [st tr no se ic oc au pr nx srcs ci co sc pu].
  simpl in *. subst ci pu.
  split; [|split; [discriminate | reflexivity]].
  split; [reflexivity|]. exists 1. split; [reflexivity|].
  left. split; [reflexivity | lia].
Qed.

(** A further fragment. *)
Lemma next_fragment (now : Q) (t u : string) (done : list Turn)
      (s : VoiceState) :
  assembling done u s ->
  let s1 := fst (step (Message now (partialInput t)) s) in
  assembling done (u ++ t) s1 /\ pendingUpdates s1 <> [] /\
  currentOutputTranscriptionRef s1 = currentOutputTranscriptionRef s.
Proof.
  intros (Hi & k & Hp & H).
  destruct s as [st tr no se ic oc au pr nx srcs ci co sc pu].
  simpl in *. subst ci pu.
  split; [|split; [destruct k; discriminate | reflexivity]].
  split; [reflexivity|]. exists (S k).
  split.
  - simpl. symmetry. apply repeat_cons.
  - destruct H as [[Ht Hk] | (shown & Ht & Hs)].
    + left. split; [exact Ht | lia].
    + right. exists shown. split; [exact Ht | discriminate].
Qed.

Lemma more_fragments (now : Q) (fragments : list string) :
  forall (renders : list bool) (u : string) (done : list Turn)
         (s : VoiceState),
  forallb isFinal done = true ->
  assembling done u s ->
  let s1 := run (partialInputs now fragments renders) s in
  assembling done (u ++ concatAll fragments) s1 /\
  currentOutputTranscriptionRef s1 = currentOutputTranscriptionRef s.
Proof.
  induction fragments as [|t rest IH]; intros renders u done s Hf Ha.
  - simpl. rewrite append_empty_r. split; [exact Ha | reflexivity].
  - destruct (next_fragment now t u done s Ha) as (H1 & _ & H3).
    cbn [partialInputs concatAll].
    change (run (?e :: ?l) s) with (run l (fst (step e s))).
    rewrite run_app, <- append_assoc.
    destruct (hd false renders); cbn [rendering run step fst].
    + destruct (assembling_render done (u ++ t) _ Hf H1)
        as (_ & _ & _ & Ho & Ha').
      destruct (IH (tl renders) (u ++ t) done _ Hf Ha') as (K1 & K2).
      split; [exact K1 | exact (eq_trans K2 (eq_trans Ho H3))].
    + destruct (IH (tl renders) (u ++ t) done _ Hf H1) as (K1 & K2).
      split; [exact K1 | exact (eq_trans K2 H3)].
Qed.

(** All the fragments of an utterance, from sealed turns on. *)
Lemma all_fragments (now : Q) (t : string) (rest : list string)
      (renders : list bool) (s : VoiceState) :
  forallb isFinal (transcriptions s) = true ->
  pendingUpdates s = [] ->
  currentInputTranscriptionRef s = "" ->
  let s1 := run (partialInputs now (t :: rest) renders) s in
  assembling (transcriptions s) (concatAll (t :: rest)) s1 /\
  currentOutputTranscriptionRef s1 = currentOutputTranscriptionRef s.
Proof.
  intros Hf Hp Hi.
  destruct (first_fragment now t s Hp Hi) as (H1 & _ & H3).
  cbn [partialInputs concatAll].
  change (run (?e :: ?l) s) with (run l (fst (step e s))).
  rewrite run_app.
  destruct (hd false renders); cbn [rendering run step fst].
  - destruct (assembling_render _ t _ Hf H1) as (_ & _ & _ & Ho & Ha').
    destruct (more_fragments now rest (tl renders) t _ _ Hf Ha') as (K1 & K2).
    split; [exact K1 | exact (eq_trans K2 (eq_trans Ho H3))].
  - destruct (more_fragments now rest (tl renders) t _ _ Hf H1) as (K1 & K2).
    split; [exact K1 | exact (eq_trans K2 H3)].
Qed.

(** Turn-complete handled on a rendered utterance seals it with its text. *)
Lemma sealed_after_render (now : Q) (done : list Turn) (u : string)
      (s : VoiceState) :
  forallb isFinal done = true ->
  assembling done u s ->
  let s1 := run [Render; Message now turnCompleteMessage; Render] s in
  transcriptions s1 = (done ++ [mkTurn u "" true])%list /\
  currentInputTranscriptionRef s1 = "" /\
  currentOutputTranscriptionRef s1 = "" /\
  pendingUpdates s1 = [].
Proof.
  intros Hf Ha.
  destruct (assembling_render done u s Hf Ha) as (Ht & Hp & _).
  cbn [run step fst].
  destruct (render s) as [st tr no se ic oc au pr nx srcs ci co sc pu].
  simpl in *. subst tr pu. simpl.
  unfold completeUpdater.
  destruct (done ++ [mkTurn u "" false])%list eqn:E.
  - destruct done; discriminate.
  - rewrite <- E, updateLast_snoc. repeat split; reflexivity.
Qed.

(** Turn-complete handled while input updates are still queued: they run
    after the reset and write the empty text. *)
Lemma sealed_before_render (now : Q) (done : list Turn) (u : string)
      (s : VoiceState) :
  forallb isFinal done = true ->
  assembling done u s ->
  pendingUpdates s <> [] ->
  let s1 := run [Message now turnCompleteMessage; Render] s in
  transcriptions s1 = (done ++ [mkTurn "" "" true])%list /\
  currentInputTranscriptionRef s1 = "" /\
  currentOutputTranscriptionRef s1 = "" /\
  pendingUpdates s1 = [].
Proof.
  intros Hf (Hi & k & Hp & H) Hq.
  destruct s as [st tr no se ic oc au pr nx srcs ci co sc pu].
  simpl in *. subst ci pu.
  destruct k as [|k]; [contradiction|].
  rewrite fold_left_app.
  assert (E : fold_left (applyUpdate "" "") (repeat InputUpdate (S k)) tr
              = (done ++ [mkTurn "" "" false])%list).
  { destruct H as [[Ht _] | (shown & Ht & _)]; subst tr.
    - apply inputs_after_sealed, Hf.
    - apply inputs_on_open_turn. }
  rewrite E. simpl. unfold completeUpdater.
  destruct (done ++ [mkTurn "" "" false])%list eqn:E'.
  - destruct done; discriminate.
  - rewrite <- E', updateLast_snoc. repeat split; reflexivity.
Qed.

(** X1.  After sealed turns, with nothing queued and empty accumulators, the
    fragments of an utterance followed by turn-complete add exactly one
    final turn.  Wherever React renders among the fragments, the turn holds
    the concatenation of the fragments if React renders between the last
    fragment and the turn-complete message; if the last two fragments and
    the turn-complete message are handled without a render in between, the
    turn holds the empty text.  Both accumulators end empty. *)
Theorem fragments_assemble
        (now now' : Q) (fragments : list string) (earlier last : string)
        (renders : list bool) (s : VoiceState) :
  forallb isFinal (transcriptions s) = true ->
  pendingUpdates s = [] ->
  currentInputTranscriptionRef s = "" ->
  currentOutputTranscriptionRef s = "" ->
  (let s1 := run (partialInputs now (fragments ++ [last]) renders ++
                  [Render; Message now' turnCompleteMessage; Render]) s in
   transcriptions s1
     = (transcriptions s
          ++ [mkTurn (concatAll (fragments ++ [last])) "" true])%list /\
   currentInputTranscriptionRef s1 = "" /\
   currentOutputTranscriptionRef s1 = "") /\
  (let s2 := run (partialInputs now fragments renders ++
                  [Message now (partialInput earlier);
                   Message now (partialInput last);
                   Message now' turnCompleteMessage; Render]) s in
   transcriptions s2 = (transcriptions s ++ [mkTurn "" "" true])%list /\
   currentInputTranscriptionRef s2 = "" /\
   currentOutputTranscriptionRef s2 = "").
Proof.
  intros Hf Hp Hi Ho. split.
  - cbv zeta. rewrite run_app.
    assert (Ha : assembling (transcriptions s)
                   (concatAll (fragments ++ [last]))
                   (run (partialInputs now (fragments ++ [last]) renders) s)).
    { destruct fragments as [|t rest].
      - apply (all_fragments now last [] renders s Hf Hp Hi).
      - apply (all_fragments now t (rest ++ [last]) renders s Hf Hp Hi). }
    destruct (sealed_after_render now' _ _ _ Hf Ha) as (H1 & H2 & H3 & _).
    repeat split; assumption.
  - cbv zeta. rewrite run_app.
    change (run (?e1 :: ?e2 :: ?l) ?x)
      with (run l (fst (step e2 (fst (step e1 x))))).
    assert (Ha : exists u,
               assembling (transcriptions s) u
                 (fst (step (Message now (partialInput earlier))
                         (run (partialInputs now fragments renders) s)))).
    { destruct fragments as [|t rest].
      - exists earlier. simpl run.
        apply (first_fragment now earlier s Hp Hi).
      - destruct (all_fragments now t rest renders s Hf Hp Hi) as (H1 & _).
        eexists. apply (next_fragment now earlier _ _ _ H1). }
    destruct Ha as (u & Ha).
    destruct (next_fragment now last _ _ _ Ha) as (K1 & K2 & _).
    destruct (sealed_before_render now' _ _ _ Hf K1 K2) as (H1 & H2 & H3 & _).
    repeat split; assumption.
Qed.

Lemma fragments_assemble_witness :
  (let s1 := run (partialInputs 0%Q (["Good "; "mor"] ++ ["ning"])
                    [false; true; false] ++
                  [Render; Message 0%Q turnCompleteMessage; Render])
               initialState in
   transcriptions s1
     = (transcriptions initialState
          ++ [mkTurn (concatAll (["Good "; "mor"] ++ ["ning"])) "" true])%list /\
   currentInputTranscriptionRef s1 = "" /\
   currentOutputTranscriptionRef s1 = "") /\
  (let s2 := run (partialInputs 0%Q ["Good "; "mor"] [false; true; false] ++
                  [Message 0%Q (partialInput "ni");
                   Message 0%Q (partialInput "ning");
                   Message 0%Q turnCompleteMessage; Render]) initialState in
   transcriptions s2
     = (transcriptions initialState ++ [mkTurn "" "" true])%list /\
   currentInputTranscriptionRef s2 = "" /\
   currentOutputTranscriptionRef s2 = "").
Proof.
  apply (fragments_assemble 0%Q 0%Q ["Good "; "mor"] "ni" "ning"
           [false; true; false] initialState); reflexivity.
Defined.

(** ** Teardown from any state *)

(** X2.  From any state, [stopSession] ends at rest (IDLE, every handle
    absent, no source tracked, cursor zero) and a second stop does nothing;
    on the way it closes the session it held, stops every track of the
    stream, disconnects the processor, closes both audio contexts and
    stops every tracked source. *)
Theorem stop_releases_everything (s : VoiceState) :
  atRest (fst (stopSession s)) /\
  stopSession (fst (stopSession s)) = (fst (stopSession s), []) /\
  (forall h, sessionRef s = Some h ->
             In (SessionClose h) (snd (stopSession s))) /\
  (forall m t, audioStreamRef s = Some m -> In t (tracks m) ->
               In (TrackStop t) (snd (stopSession s))) /\
  (forall p, processorRef s = Some p ->
             In (ProcessorDisconnect p) (snd (stopSession s))) /\
  (forall c, inputAudioContextRef s = Some c ->
             In (ContextClose c) (snd (stopSession s))) /\
  (forall c, outputAudioContextRef s = Some c ->
             In (ContextClose c) (snd (stopSession s))) /\
  (forall n, In n (audioSourcesRef s) ->
             In (SourceStop n) (snd (stopSession s))).
Proof.
  split; [apply VoiceAssistantTheory.stopSession_lands_at_rest|].
  split; [apply VoiceAssistantTheory.stopSession_silent,
            VoiceAssistantTheory.stopSession_lands_at_rest|].
  destruct s as [st tr no se ic oc au pr nx srcs ci co sc pu].
  unfold stopSession; simpl.
  destruct se, au, pr, ic, oc; simpl;
    repeat split; intros;
    repeat match goal with
           | H : Some _ = Some _ |- _ => injection H as H; subst
           | H : None = Some _ |- _ => discriminate H
           end;
    repeat (rewrite in_app_iff || (simpl In));
    auto 12 using in_map.
Qed.

(** X3.  The error callback, the close callback and a failed start all end
    at rest with status IDLE: the ERROR and CLOSED statuses they set are
    overwritten by the teardown they run.  The two failure paths leave
    their message as the newest notification. *)
Theorem failure_paths_end_idle
        (message : string) (err : Js.JsError) (s : VoiceState) :
  (atRest (fst (onerror message s)) /\
   notifications (fst (onerror message s))
     = (notifications s ++ [("Error: " ++ message)%string])%list) /\
  atRest (fst (onclose s)) /\
  (atRest (fst (startFailed err s)) /\
   notifications (fst (startFailed err s))
     = (notifications s ++
        [("Failed to start session: " ++ Js.errorMessage err)%string])%list).
Proof.
  unfold onerror, onclose, startFailed.
  repeat split;
    try apply VoiceAssistantTheory.stopSession_lands_at_rest;
    match goal with
    | |- notifications (fst (stopSession ?x)) = _ =>
        destruct (VoiceAssistantTheory.stopSession_keeps_transcript x)
          as (_ & _ & H & _);
        rewrite H; reflexivity
    end.
Qed.

(** X4.  The accumulators are reset by turn-complete only: text left by an
    unfinished turn survives a stop and a new start and is prefixed to the
    first partial input transcription of the next session, wherever React
    renders in between and whatever was still queued. *)
Theorem accumulators_survive_restart
        (now : Q) (x : string) (r1 r2 : bool) (s : VoiceState) :
  let s1 := run (Stop :: rendering r1 ++
                 StartRequested :: rendering r2 ++
                 [Message now (partialInput x); Render]) s in
  transcriptions s1 = [mkTurn (currentInputTranscriptionRef s ++ x) "" false] /\
  currentOutputTranscriptionRef s1 = currentOutputTranscriptionRef s.
Proof.
  destruct s as [st tr no se ic oc au pr nx srcs ci co sc pu].
  destruct r1, r2; unfold run, rendering, step, stopSession; simpl;
    destruct se, au, pr, ic, oc; simpl;
    rewrite ?fold_left_app; simpl; split; reflexivity.
Qed.

(** ** Start-up order *)

(** X5.  Started from rest, the capture graph is built only if the open
    callback finds the microphone stream already stored.  When it runs
    before the stream is stored, the later steps of [startSession] do not
    build it either: the session ends up LISTENING with a session, a stream
    and an output context, but with no processor and no input context.
    When it runs after, both are set. *)
Theorem capture_needs_stream_first
        (inputCtx outputCtx : AudioContext) (processor : ScriptProcessorNode)
        (session : LiveSession) (stream : MediaStream) (s : VoiceState) :
  atRest s ->
  (let s1 := fst (sessionRun [Toggle; Opened inputCtx processor;
                              Connected session; Granted stream outputCtx] s) in
   status s1 = LISTENING /\ processorRef s1 = None /\
   inputAudioContextRef s1 = None /\ sessionRef s1 = Some session /\
   audioStreamRef s1 = Some stream /\
   outputAudioContextRef s1 = Some outputCtx) /\
  (let s2 := fst (sessionRun [Toggle; Connected session;
                              Granted stream outputCtx;
                              Opened inputCtx processor] s) in
   status s2 = LISTENING /\ processorRef s2 = Some processor /\
   inputAudioContextRef s2 = Some inputCtx).
Proof.
  intros (Hst & Hs & Ha & Hp & Hi & Ho & Hsrc & Hn).
  destruct s as [st tr no se ic oc au pr nx srcs ci co sc pu].
  simpl in *. subst. repeat split; reflexivity.
Qed.

Lemma capture_needs_stream_first_witness :
  (let s1 := fst (sessionRun [Toggle;
                              Opened {| contextId := 1 |} {| processorId := 2 |};
                              Connected {| sessionId := 3 |};
                              Granted {| tracks := [4] |} {| contextId := 5 |}]
                    initialState) in
   status s1 = LISTENING /\ processorRef s1 = None /\
   inputAudioContextRef s1 = None /\
   sessionRef s1 = Some {| sessionId := 3 |} /\
   audioStreamRef s1 = Some {| tracks := [4] |} /\
   outputAudioContextRef s1 = Some {| contextId := 5 |}) /\
  (let s2 := fst (sessionRun [Toggle; Connected {| sessionId := 3 |};
                              Granted {| tracks := [4] |} {| contextId := 5 |};
                              Opened {| contextId := 1 |} {| processorId := 2 |}]
                    initialState) in
   status s2 = LISTENING /\ processorRef s2 = Some {| processorId := 2 |} /\
   inputAudioContextRef s2 = Some {| contextId := 1 |}).
Proof.
  apply (capture_needs_stream_first {| contextId := 1 |} {| contextId := 5 |}
           {| processorId := 2 |} {| sessionId := 3 |} {| tracks := [4] |}
           initialState).
  repeat split; reflexivity.
Defined.

(** ** Scheduled sources never overlap *)

Lemma Qle_plus_nonneg (a d : Q) : (0 <= d)%Q -> (a <= a + d)%Q.
Proof.
  intros H. apply Qle_trans with (a + 0)%Q.
  - rewrite Qplus_0_r. apply Qle_refl.
  - apply Qplus_le_compat; [apply Qle_refl | exact H].
Qed.

Lemma scheduledInOrder_snoc (l : list AudioBufferSourceNode)
      (n : AudioBufferSourceNode) :
  scheduledInOrder l ->
  Forall (fun m => (startTime m + bufferDuration m <= startTime n)%Q) l ->
  scheduledInOrder (l ++ [n]).
Proof.
  induction l as [|a l IH]; intros Hs Hf; simpl.
  - split; [constructor | exact I].
  - destruct Hs as [Ha Hl]. inversion Hf as [|? ? Han Hln]; subst.
    split.
    + apply Forall_app. split; [exact Ha | constructor; [exact Han | constructor]].
    + apply IH; assumption.
Qed.

Lemma scheduledInOrder_filter (p : AudioBufferSourceNode -> bool)
      (l : list AudioBufferSourceNode) :
  scheduledInOrder l -> scheduledInOrder (filter p l).
Proof.
  induction l as [|a l IH]; intros Hs; simpl; [exact I|].
  destruct Hs as [Ha Hl]. destruct (p a); simpl.
  - split; [|apply IH, Hl].
    apply Forall_forall. intros m Hm. apply filter_In in Hm as [Hm _].
    revert m Hm. apply Forall_forall. exact Ha.
  - apply IH, Hl.
Qed.

Lemma endsBy_filter (p : AudioBufferSourceNode -> bool) (cursor : Q)
      (l : list AudioBufferSourceNode) :
  endsBy cursor l -> endsBy cursor (filter p l).
Proof.
  unfold endsBy. intros H. apply Forall_forall. intros m Hm.
  apply filter_In in Hm as [Hm _]. revert m Hm. apply Forall_forall. exact H.
Qed.

Lemma handleTranscripts_sources (c : ServerContent) (s : VoiceState) :
  audioSourcesRef (handleTranscripts c s) = audioSourcesRef s.
Proof.
  unfold handleTranscripts.
  destruct (inputTranscription c), (outputTranscription c), (turnComplete c);
    reflexivity.
Qed.

Lemma handleToolCall_sources (tc : option ToolCall) (s : VoiceState) :
  audioSourcesRef (fst (handleToolCall tc s)) = audioSourcesRef s.
Proof.
  destruct (VoiceAssistantTheory.handleToolCall_frame tc s) as [f E].
  rewrite E. reflexivity.
Qed.

(** The two ways a message can leave the schedule: untouched, or with one
    more source placed at the clamped cursor. *)
Lemma onmessage_schedule (now : Q) (m : LiveServerMessage) (s : VoiceState) :
  let s1 := fst (onmessage now m s) in
  (audioSourcesRef s1 = audioSourcesRef s /\
   nextStartTimeRef s1 = nextStartTimeRef s) \/
  (exists c d n,
     serverContent m = Some c /\ modelTurnAudio c = Payload d /\
     audioSourcesRef s1 = (audioSourcesRef s ++ [n])%list /\
     startTime n = Qmax (nextStartTimeRef s) now /\
     bufferDuration n = d /\
     nextStartTimeRef s1 = (startTime n + d)%Q).
Proof.
  unfold onmessage. destruct (serverContent m) as [c|].
  - destruct (VoiceAssistantTheory.handleTranscripts_audio c s) as (Ho & Hn & _).
    pose proof (handleTranscripts_sources c s) as Hs.
    destruct (modelTurnAudio c) as [| |d] eqn:Hm.
    + left. simpl. split; assumption.
    + left. simpl.
      destruct (VoiceAssistantTheory.handleToolCall_audio (toolCall m)
                  (handleTranscripts c s)) as (_ & Hn' & _).
      rewrite handleToolCall_sources. split; congruence.
    + destruct (outputAudioContextRef (handleTranscripts c s)).
      * right. unfold startSource, clampCursor.
        match goal with
        | |- context [handleToolCall ?tc ?st] =>
            destruct (VoiceAssistantTheory.handleToolCall_audio tc st)
              as (_ & Hn' & _);
            pose proof (handleToolCall_sources tc st) as Hs';
            destruct (handleToolCall tc st) as [s3 e3]
        end.
        simpl in *. exists c, d. eexists.
        split; [reflexivity|]. split; [exact Hm|].
        rewrite Hs', Hn', Hs, Hn. simpl.
        split; [reflexivity|]. repeat split; reflexivity.
      * left. simpl. split; assumption.
  - left. simpl.
    destruct (VoiceAssistantTheory.handleToolCall_audio (toolCall m) s)
      as (_ & Hn' & _).
    rewrite handleToolCall_sources. split; [reflexivity | assumption].
Qed.

Lemma stopSession_schedule (s : VoiceState) :
  audioSourcesRef (fst (stopSession s)) = [] /\
  nextStartTimeRef (fst (stopSession s)) = 0%Q.
Proof.
  destruct (VoiceAssistantTheory.stopSession_lands_at_rest s)
    as (_ & _ & _ & _ & _ & _ & Hs & Hn).
  split; assumption.
Qed.

Lemma sessionStep_schedule (ev : SessionEvent) (s : VoiceState) :
  soundDuration ev ->
  scheduledInOrder (audioSourcesRef s) ->
  endsBy (nextStartTimeRef s) (audioSourcesRef s) ->
  scheduledInOrder (audioSourcesRef (fst (sessionStep ev s))) /\
  endsBy (nextStartTimeRef (fst (sessionStep ev s)))
         (audioSourcesRef (fst (sessionStep ev s))).
Proof.
  intros Hd Hs He.
  assert (Stop_ok : forall x,
             scheduledInOrder (audioSourcesRef (fst (stopSession x))) /\
             endsBy (nextStartTimeRef (fst (stopSession x)))
                    (audioSourcesRef (fst (stopSession x)))).
  { intros x. destruct (stopSession_schedule x) as [E1 E2].
    rewrite E1, E2. split; [exact I | constructor]. }
  destruct ev as [e| | | | |]; simpl.
  - destruct e as [now m| |msg| | |id| |]; simpl.
    + destruct (onmessage_schedule now m s) as [[E1 E2]|H].
      * rewrite E1, E2. split; assumption.
      * destruct H as (c & d & n & Hc & Hm & E1 & Hn & Hb & E2).
        simpl in Hd. rewrite Hc, Hm in Hd.
        rewrite E1, E2.
        assert (Hcur : (nextStartTimeRef s <= startTime n)%Q).
        { rewrite Hn. apply Q.le_max_l. }
        split.
        -- apply scheduledInOrder_snoc; [exact Hs|].
           eapply Forall_impl; [|exact He].
           intros a Ha. simpl in Ha. eapply Qle_trans; eassumption.
        -- unfold endsBy. apply Forall_app. split.
           ++ eapply Forall_impl; [|exact He].
              intros a Ha. simpl in Ha.
              eapply Qle_trans; [exact Ha|].
              eapply Qle_trans; [exact Hcur|].
              apply Qle_plus_nonneg, Hd.
           ++ constructor; [|constructor]. rewrite Hb. apply Qle_refl.
    + apply Stop_ok.
    + unfold onerror. apply Stop_ok.
    + unfold onclose. apply Stop_ok.
    + split; assumption.
    + split; [apply scheduledInOrder_filter | apply endsBy_filter]; assumption.
    + split; assumption.
    + split; assumption.
  - unfold handleToggleSession.
    destruct (status s); simpl; try (split; assumption); apply Stop_ok.
  - unfold onopen. simpl. destruct (audioStreamRef s); split; assumption.
  - split; assumption.
  - split; assumption.
  - unfold startFailed. apply Stop_ok.
Qed.

(** X6.  Whatever happens to the component (messages, tool calls, renders,
    stops, failures, toggles, sources ending), as long as every decoded
    buffer has a non-negative duration the tracked sources never overlap:
    each one ends before any source scheduled after it starts, and all of
    them end by the playback cursor. *)
Theorem sources_never_overlap (evs : list SessionEvent) : forall s : VoiceState,
  Forall soundDuration evs ->
  scheduledInOrder (audioSourcesRef s) ->
  endsBy (nextStartTimeRef s) (audioSourcesRef s) ->
  scheduledInOrder (audioSourcesRef (fst (sessionRun evs s))) /\
  endsBy (nextStartTimeRef (fst (sessionRun evs s)))
         (audioSourcesRef (fst (sessionRun evs s))).
Proof.
  induction evs as [|ev rest IH]; intros s Hd Hs He.
  - simpl. split; assumption.
  - inversion Hd as [|? ? Hev Hrest]; subst.
    destruct (sessionStep_schedule ev s Hev Hs He) as [Hs1 He1].
    specialize (IH (fst (sessionStep ev s)) Hrest Hs1 He1).
    simpl. destruct (sessionStep ev s) as [s1 e1]; simpl in *.
    destruct (sessionRun rest s1) as [s2 e2]; simpl in *. exact IH.
Qed.

Lemma sources_never_overlap_witness :
  let evs := [Toggle; Connected {| sessionId := 1 |};
              Granted {| tracks := [2] |} {| contextId := 3 |};
              Earlier (Message 0%Q (audioMessage (1 # 2)));
              Earlier (Message (1 # 4) (audioMessage (1 # 3)));
              Earlier (SourceEnded 0);
              Earlier (Message 2%Q (audioMessage (1 # 5)))] in
  scheduledInOrder (audioSourcesRef (fst (sessionRun evs initialState))) /\
  endsBy (nextStartTimeRef (fst (sessionRun evs initialState)))
         (audioSourcesRef (fst (sessionRun evs initialState))).
Proof.
  apply (sources_never_overlap
           [Toggle; Connected {| sessionId := 1 |};
            Granted {| tracks := [2] |} {| contextId := 3 |};
            Earlier (Message 0%Q (audioMessage (1 # 2)));
            Earlier (Message (1 # 4) (audioMessage (1 # 3)));
            Earlier (SourceEnded 0);
            Earlier (Message 2%Q (audioMessage (1 # 5)))] initialState).
  - repeat constructor; simpl; discriminate.
  - exact I.
  - constructor.
Defined.

(** ** Tool calls *)

Lemma toolResponses_app (a b : list Effect) :
  toolResponses (a ++ b) = (toolResponses a ++ toolResponses b)%list.
Proof.
  induction a as [|e a IH]; [reflexivity|].
  destruct e; simpl; rewrite ?IH; reflexivity.
Qed.

Lemma rejected_app (a b : list Effect) :
  rejected (a ++ b) = rejected a || rejected b.
Proof. apply existsb_app. Qed.

(** One pass of the loop: it throws exactly for a light call without
    [args], and otherwise answers the call with its id and name. *)
Lemma handleFunctionCall_cases (fc : FunctionCall) (s : VoiceState) :
  match handleFunctionCall fc s with
  | None => lacksArgs fc = true
  | Some (_, e1) =>
      lacksArgs fc = false /\
      toolResponses e1 = [(fcId fc, fcName fc)] /\ rejected e1 = false
  end.
Proof.
  unfold handleFunctionCall, lacksArgs.
  destruct (isLightCall fc); [|repeat split].
  destruct (fcArgs fc); [repeat split | reflexivity].
Qed.

Lemma handleFunctionCalls_responses (fcs : list FunctionCall) : forall s,
  toolResponses (snd (handleFunctionCalls fcs s))
    = map (fun fc => (fcId fc, fcName fc)) (answerable fcs) /\
  rejected (snd (handleFunctionCalls fcs s)) = existsb lacksArgs fcs.
Proof.
  induction fcs as [|fc rest IH]; intros s; simpl; [split; reflexivity|].
  pose proof (handleFunctionCall_cases fc s) as H.
  destruct (handleFunctionCall fc s) as [[s1 e1]|].
  - destruct H as (Hl & Ht & Hr). rewrite Hl.
    destruct (IH s1) as [IH1 IH2].
    destruct (handleFunctionCalls rest s1) as [s2 e2]; simpl in *.
    rewrite toolResponses_app, rejected_app, Ht, Hr, IH1, IH2.
    split; reflexivity.
  - rewrite H. split; reflexivity.
Qed.

Lemma handleToolCall_responses (m : LiveServerMessage) (s : VoiceState) :
  toolResponses (snd (handleToolCall (toolCall m) s))
    = map (fun fc => (fcId fc, fcName fc)) (answerable (callsOf m)) /\
  rejected (snd (handleToolCall (toolCall m) s))
    = callsMissing m || existsb lacksArgs (callsOf m).
Proof.
  unfold handleToolCall, callsOf, callsMissing.
  destruct (toolCall m) as [call|]; [|split; reflexivity].
  destruct (functionCalls call) as [fcs|]; [|split; reflexivity].
  apply handleFunctionCalls_responses.
Qed.

(** X7.  When the handler reaches the tool-call loop, the function calls are
    answered in order, each with its id and name, up to the first light call
    that comes without arguments: there the handler throws, and that call
    and every later one stay unanswered.  The handler does not reach the
    loop when the model turn has no parts (it throws) or when the message
    carries audio while no output context exists (it returns): then no call
    is answered and nothing is scheduled. *)
Theorem tool_calls_answered_until_throw
        (now : Q) (m : LiveServerMessage) (s : VoiceState) :
  let audio := match serverContent m with
               | Some c => modelTurnAudio c
               | None => NoData
               end in
  let effects := snd (onmessage now m s) in
  match audio, outputAudioContextRef s with
  | PartsMissing, _ =>
      effects = [UnhandledRejection] /\
      audioSourcesRef (fst (onmessage now m s)) = audioSourcesRef s
  | Payload _, None =>
      effects = [] /\
      audioSourcesRef (fst (onmessage now m s)) = audioSourcesRef s
  | _, _ =>
      toolResponses effects
        = map (fun fc => (fcId fc, fcName fc)) (answerable (callsOf m)) /\
      rejected effects = callsMissing m || existsb lacksArgs (callsOf m)
  end.
Proof.
  unfold onmessage.
  destruct (serverContent m) as [c|];
    [|destruct (outputAudioContextRef s); apply handleToolCall_responses].
  destruct (VoiceAssistantTheory.handleTranscripts_audio c s) as (Ho & _ & _).
  destruct (modelTurnAudio c) as [| |d].
  - simpl. split; [reflexivity | apply handleTranscripts_sources].
  - destruct (outputAudioContextRef s); apply handleToolCall_responses.
  - rewrite Ho. destruct (outputAudioContextRef s) as [ctx|].
    + unfold startSource, clampCursor.
      match goal with
      | |- context [handleToolCall ?tc ?st] =>
          pose proof (handleToolCall_responses m st) as Hst;
          destruct (handleToolCall tc st) as [s3 e3]
      end.
      simpl in *. exact Hst.
    + simpl. split; [reflexivity | apply handleTranscripts_sources].
Qed.

End VoiceSessionTheory.

(* ===================================================================== *)
(** * Further properties of the application shell *)
(* ===================================================================== *)

Module AppShellTheory.
Import Js App AppShell.

(** ** White space, splitting and joining *)

Lemma append_nil_r (a : string) : a ++ "" = a.
Proof.
  induction a as [|x a IH]; simpl; [reflexivity | now rewrite IH].
Qed.

Lemma replaceSpaceRuns_inside_run (s : string) :
  allSpace s = true -> replaceSpaceRuns true s = "".
Proof.
  induction s as [|c s IH]; intros H; [reflexivity|].
  simpl in *. apply andb_true_iff in H as [Hc Hs].
  rewrite Hc. apply IH, Hs.
Qed.

Lemma cleaned_blank (s : string) :
  allSpace s = true -> trim (replaceSpaceRuns false s) = "".
Proof.
  destruct s as [|c s]; intros H; [reflexivity|].
  simpl in *. apply andb_true_iff in H as [Hc Hs].
  rewrite Hc, (replaceSpaceRuns_inside_run s Hs). reflexivity.
Qed.

Lemma trimStart_head (s : string) :
  match trimStart s with
  | EmptyString => True
  | String c _ => isSpace c = false
  end.
Proof.
  induction s as [|c s IH]; simpl; [exact I|].
  destruct (isSpace c) eqn:E; [exact IH | exact E].
Qed.

Lemma trimEnd_head (c : ascii) (r : string) :
  isSpace c = false -> exists r', trimEnd (String c r) = String c r'.
Proof.
  intros H. simpl. destruct (trimEnd r); rewrite ?H; eauto.
Qed.

(** A trimmed string is empty or starts with a character that is not white
    space. *)
Lemma trim_head (s : string) :
  match trim s with
  | EmptyString => True
  | String c _ => isSpace c = false
  end.
Proof.
  unfold trim. pose proof (trimStart_head s) as H.
  destruct (trimStart s) as [|c r]; [exact I|].
  destruct (trimEnd_head c r H) as (r' & E). rewrite E. exact H.
Qed.

Lemma split_nonempty (sep : ascii) (s : string) :
  exists w ws, split sep s = w :: ws.
Proof.
  destruct s as [|c s]; simpl; [eauto|].
  destruct (Ascii.eqb c sep); [eauto|].
  destruct (split sep s); eauto.
Qed.

(** Splitting and joining with the same separator gives the string back. *)
Lemma join_split (sep : ascii) (s : string) :
  join (String sep EmptyString) (split sep s) = s.
Proof.
  induction s as [|c s IH]; [reflexivity|].
  simpl. destruct (split_nonempty sep s) as (w & ws & E).
  rewrite E in *. destruct (Ascii.eqb c sep) eqn:Ec.
  - apply Ascii.eqb_eq in Ec. subst c.
    change (join (String sep "") ("" :: w :: ws))
      with ("" ++ String sep "" ++ join (String sep "") (w :: ws)).
    rewrite IH. reflexivity.
  - destruct ws as [|w' ws].
    + simpl in *. now rewrite IH.
    + change (join (String sep "") (String c w :: w' :: ws))
        with (String c (w ++ String sep "" ++ join (String sep "") (w' :: ws))).
      change (join (String sep "") (w :: w' :: ws))
        with (w ++ String sep "" ++ join (String sep "") (w' :: ws)) in IH.
      now rewrite IH.
Qed.

Lemma countChar_app (c : ascii) (a b : string) :
  countChar c (a ++ b) = countChar c a + countChar c b.
Proof.
  induction a as [|x a IH]; simpl; [reflexivity|]. rewrite IH. lia.
Qed.

Lemma split_pieces (sep : ascii) (s : string) :
  Forall (fun w => countChar sep w = 0) (split sep s).
Proof.
  induction s as [|c s IH]; simpl.
  - constructor; [reflexivity | constructor].
  - destruct (Ascii.eqb c sep) eqn:Ec.
    + constructor; [reflexivity | exact IH].
    + destruct (split sep s) as [|w ws].
      * constructor; [simpl; now rewrite Ec | constructor].
      * inversion IH; subst. constructor; [|assumption].
        simpl. rewrite Ec. assumption.
Qed.

Lemma countChar_join (sep : ascii) (ws : list string) :
  Forall (fun w => countChar sep w = 0) ws ->
  countChar sep (join (String sep EmptyString) ws) = List.length ws - 1.
Proof.
  induction ws as [|w ws IH]; intros H; [reflexivity|].
  inversion H as [|? ? Hw Hws]; subst. specialize (IH Hws).
  destruct ws as [|w' ws]; [simpl; exact Hw|].
  change (join (String sep "") (w :: w' :: ws))
    with (w ++ String sep "" ++ join (String sep "") (w' :: ws)).
  rewrite !countChar_app, Hw, IH. simpl. rewrite Ascii.eqb_refl. lia.
Qed.

Lemma toUpperCaseChar_space (c : ascii) :
  Ascii.eqb (toUpperCaseChar c) " " = Ascii.eqb c " ".
Proof.
  destruct c as [[] [] [] [] [] [] [] []]; reflexivity.
Qed.

Lemma countChar_capitalize (s : string) :
  countChar " " (capitalize s) = countChar " " s.
Proof.
  destruct s as [|c r]; [reflexivity|].
  unfold capitalize. simpl. now rewrite toUpperCaseChar_space.
Qed.

(** [generateTitleFromMessage] in terms of the cleaned message. *)
Lemma generateTitle_unfold (message : string) :
  generateTitleFromMessage message =
  let cleaned := trim (replaceSpaceRuns false message) in
  if negb (truthy cleaned) then DEFAULT_CONVERSATION_TITLE
  else capitalize (join " " (firstn 6 (split " " cleaned))) ++
       (if 6 <? List.length (split " " cleaned) then ellipsis else "").
Proof. reflexivity. Qed.

(** ** Titles *)

(** X8.  A message that is empty or all white space gets the default title,
    and every title is non-empty and has at most six words (at most five
    blanks). *)
Theorem titles_are_short_and_never_empty (message : string) :
  (allSpace message = true ->
   generateTitleFromMessage message = DEFAULT_CONVERSATION_TITLE) /\
  truthy (generateTitleFromMessage message) = true /\
  countChar " " (generateTitleFromMessage message) <= 5.
Proof.
  rewrite generateTitle_unfold. cbv zeta.
  split; [intros H; now rewrite (cleaned_blank message H)|].
  pose proof (trim_head (replaceSpaceRuns false message)) as Hh.
  destruct (trim (replaceSpaceRuns false message)) as [|c r] eqn:E.
  - split; [reflexivity | simpl; lia].
  - cbn [truthy negb].
    assert (Hc : Ascii.eqb c " " = false).
    { destruct (Ascii.eqb c " ") eqn:Ec; [|reflexivity].
      apply Ascii.eqb_eq in Ec. subst c. discriminate Hh. }
    split.
    + simpl split. rewrite Hc.
      destruct (split " " r) as [|w ws]; [reflexivity|].
      change (firstn 6 (String c w :: ws)) with (String c w :: firstn 5 ws).
      destruct (firstn 5 ws); reflexivity.
    + rewrite countChar_app, countChar_capitalize.
      assert (Hs : countChar " "
                     (if 6 <? List.length (split " " (String c r))
                      then ellipsis else "") = 0).
      { destruct (6 <? List.length (split " " (String c r))); reflexivity. }
      rewrite Hs, countChar_join.
      * pose proof (firstn_le_length 6 (split " " (String c r))). lia.
      * pose proof (split_pieces " " (String c r)) as Hp.
        apply Forall_forall. intros w Hw.
        apply (proj1 (Forall_forall _ _) Hp).
        rewrite <- (firstn_skipn 6 (split " " (String c r))).
        apply in_or_app. left. exact Hw.
Qed.

(** X9.  A message of at most six words keeps its whole text: the title is
    the cleaned message (white-space runs collapsed, ends trimmed) with its
    first character in upper case, and no ellipsis. *)
Theorem short_message_is_its_title (message : string) :
  let cleaned := trim (replaceSpaceRuns false message) in
  cleaned <> "" ->
  List.length (split " " cleaned) <= 6 ->
  generateTitleFromMessage message = capitalize cleaned.
Proof.
  intros cleaned Hne Hlen. rewrite generateTitle_unfold. cbv zeta.
  fold cleaned. destruct cleaned as [|c r] eqn:E; [contradiction|].
  cbn [truthy negb]. rewrite firstn_all2 by exact Hlen.
  rewrite (join_split " " (String c r)).
  destruct (6 <? List.length (split " " (String c r))) eqn:L.
  - apply Nat.ltb_lt in L. lia.
  - apply append_nil_r.
Qed.

Lemma short_message_is_its_title_witness :
  generateTitleFromMessage "  explain   photosynthesis briefly "
  = capitalize "explain photosynthesis briefly".
Proof.
  apply (short_message_is_its_title "  explain   photosynthesis briefly ").
  - discriminate.
  - vm_compute. lia.
Defined.

(** ** Retitling *)

Lemma find_retitled (cid t : string) (l : list Conversation) (c : Conversation) :
  find (fun conv => String.eqb (id conv) cid) l = Some c ->
  find (fun conv => String.eqb (id conv) cid)
       (map (fun conv => if String.eqb (id conv) cid
                         then withTitle t conv else conv) l)
  = Some (withTitle t c).
Proof.
  intros Hf. rewrite AppTheory.find_map_same_id.
  - rewrite Hf. simpl. apply find_some in Hf as [_ Hid]. simpl in Hid.
    now rewrite Hid.
  - intros conv. destruct (String.eqb (id conv) cid); reflexivity.
Qed.

(** X10.  The title is not always assigned once: when the first message
    generates the default title itself (the message "new chat" does), the
    update is sent but the conversation still has the default title, so the
    next message retitles it, also through the handler of a render that
    shows the state after the first update. *)
Theorem default_title_can_be_reassigned
        (a : AppState) (cid first second : string) (c : Conversation) :
  find (fun conv => String.eqb (id conv) cid) (conversations a) = Some c ->
  title c = DEFAULT_CONVERSATION_TITLE ->
  generateTitleFromMessage first = DEFAULT_CONVERSATION_TITLE ->
  let a1 := fst (updateConversationTitle (conversations a) cid first a) in
  snd (updateConversationTitle (conversations a) cid first a)
    = [ConversationsUpdateTitle cid DEFAULT_CONVERSATION_TITLE] /\
  find (fun conv => String.eqb (id conv) cid) (conversations a1)
    = Some (withTitle DEFAULT_CONVERSATION_TITLE c) /\
  snd (updateConversationTitle (conversations a1) cid second a1)
    = [ConversationsUpdateTitle cid (generateTitleFromMessage second)] /\
  find (fun conv => String.eqb (id conv) cid)
       (conversations
          (fst (updateConversationTitle (conversations a1) cid second a1)))
    = Some (withTitle (generateTitleFromMessage second) c).
Proof.
  intros Hf Ht Hg a1.
  pose proof (AppTheory.updateConversationTitle_default _ a cid first c Hf Ht)
    as E.
  rewrite Hg in E.
  assert (F : find (fun conv => String.eqb (id conv) cid) (conversations a1)
              = Some (withTitle DEFAULT_CONVERSATION_TITLE c)).
  { subst a1. rewrite E. simpl. apply find_retitled, Hf. }
  pose proof (AppTheory.updateConversationTitle_default _ a1 cid second _ F
                eq_refl) as E2.
  split; [rewrite E; reflexivity|]. split; [exact F|].
  split; [rewrite E2; reflexivity|].
  rewrite E2. simpl. rewrite (find_retitled cid _ _ _ F). reflexivity.
Qed.

Lemma default_title_can_be_reassigned_witness :
  let a1 := fst (updateConversationTitle
                   (conversations AppSpec.freshlyCreated) "c1" "new chat"
                   AppSpec.freshlyCreated) in
  snd (updateConversationTitle (conversations AppSpec.freshlyCreated) "c1"
         "new chat" AppSpec.freshlyCreated)
    = [ConversationsUpdateTitle "c1" DEFAULT_CONVERSATION_TITLE] /\
  find (fun conv => String.eqb (id conv) "c1") (conversations a1)
    = Some (withTitle DEFAULT_CONVERSATION_TITLE AppSpec.freshRow) /\
  snd (updateConversationTitle (conversations a1) "c1" "what is entropy" a1)
    = [ConversationsUpdateTitle "c1"
         (generateTitleFromMessage "what is entropy")] /\
  find (fun conv => String.eqb (id conv) "c1")
       (conversations
          (fst (updateConversationTitle (conversations a1) "c1"
                  "what is entropy" a1)))
    = Some (withTitle (generateTitleFromMessage "what is entropy")
              AppSpec.freshRow).
Proof.
  apply (default_title_can_be_reassigned AppSpec.freshlyCreated "c1"
           "new chat" "what is entropy" AppSpec.freshRow); reflexivity.
Defined.

(** X11.  [updateConversationTitle] changes nothing but titles of the
    conversation it is called for: whatever list the handler's render
    showed, for any id and message the list keeps its length, its ids and
    creation times in order, every conversation with another id is
    untouched, and the user, the active id, the modal mode and the sidebar
    flag are as before.  For an id that the handler's render did not show it
    changes and sends nothing. *)
Theorem title_update_is_local
        (rendered : list Conversation) (a : AppState) (cid message : string) :
  let a1 := fst (updateConversationTitle rendered cid message a) in
  map id (conversations a1) = map id (conversations a) /\
  map created_at (conversations a1) = map created_at (conversations a) /\
  filter (fun conv => negb (String.eqb (id conv) cid)) (conversations a1)
    = filter (fun conv => negb (String.eqb (id conv) cid)) (conversations a) /\
  user a1 = user a /\ activeConversationId a1 = activeConversationId a /\
  authMode a1 = authMode a /\ isSidebarOpen a1 = isSidebarOpen a /\
  (find (fun conv => String.eqb (id conv) cid) rendered = None ->
   updateConversationTitle rendered cid message a = (a, [])).
Proof.
  unfold updateConversationTitle.
  destruct (find (fun conv => String.eqb (id conv) cid) rendered)
    as [c|]; [|repeat split; reflexivity].
  destruct (negb (String.eqb (title c) DEFAULT_CONVERSATION_TITLE));
    [repeat split; try reflexivity; discriminate|].
  simpl. repeat split; try discriminate.
  - rewrite map_map. apply map_ext. intros conv.
    destruct (String.eqb (id conv) cid); reflexivity.
  - rewrite map_map. apply map_ext. intros conv.
    destruct (String.eqb (id conv) cid); reflexivity.
  - induction (conversations a) as [|conv l IH]; [reflexivity|].
    simpl. destruct (String.eqb (id conv) cid) eqn:E; simpl; rewrite E; simpl.
    + exact IH.
    + now rewrite IH.
Qed.

(** X12.  Creating a conversation needs a user: without one nothing is
    asked and nothing changes.  With a user the insert is requested with
    the default title; if it answers with a row, that row is put first,
    the older conversations follow unchanged, and the row is the active
    conversation; if it fails the state is unchanged. *)
Theorem created_conversation_is_active
        (created : option Conversation) (a : AppState) :
  (user a = None -> handleCreateConversation created a = (a, [])) /\
  (forall u, user a = Some u ->
     snd (handleCreateConversation created a)
       = [ConversationsInsert (Auth.id u) DEFAULT_CONVERSATION_TITLE] /\
     match created with
     | None => fst (handleCreateConversation created a) = a
     | Some c =>
         let a1 := fst (handleCreateConversation created a) in
         conversations a1 = c :: conversations a /\
         activeConversationId a1 = Some (id c) /\
         activeConversation a1 = Some c /\
         user a1 = user a
     end).
Proof.
  unfold handleCreateConversation. split.
  - intros H. now rewrite H.
  - intros u H. rewrite H. split; [reflexivity|].
    destruct created as [c|]; [|reflexivity].
    unfold activeConversation. simpl. rewrite String.eqb_refl.
    repeat split; try reflexivity. congruence.
Qed.

(** ** Signing in and out *)

(** X13.  [handleAuthenticate] is all or nothing for the component: when it
    throws, whatever the mode and the provider's answer, the user, the
    modal mode, the sidebar flag and the conversations are unchanged (the
    modal stays open); when it returns with a mode set, the user is set,
    the modal is closed and the sidebar is closed; with no mode it does
    nothing at all. *)
Theorem authenticate_all_or_nothing
        {W : Type} (p : Auth.Provider W) (payload : AuthPayload) (s : Sys W) :
  match handleAuthenticate p payload s with
  | (inl _, s1) => app s1 = app s
  | (inr _, s1) =>
      match authMode (app s) with
      | None => s1 = s
      | Some _ =>
          (exists u, user (app s1) = Some u) /\
          authMode (app s1) = None /\
          isSidebarOpen (app s1) = false /\
          conversations (app s1) = conversations (app s) /\
          activeConversationId (app s1) = activeConversationId (app s)
      end
  end.
Proof.
  unfold handleAuthenticate, Eff.bind, Eff.get, liftAuth, modifyApp,
    Eff.modify, Eff.throw, Eff.ret.
  destruct (authMode (app s)) as [[|]|] eqn:Hm; [| |reflexivity].
  - destruct (Auth.signIn p _ (world s)) as [[e|u] w]; simpl; [reflexivity|].
    repeat split. eauto.
  - destruct (payloadName payload) as [n|]; [|reflexivity].
    destruct (truthy n); [|reflexivity].
    destruct (Auth.signUp p _ (world s)) as [[e|u] w]; simpl; [reflexivity|].
    repeat split. eauto.
Qed.

(** X14.  In sign-up mode a payload without a name, or with an empty name,
    is refused by the component itself: the error about the missing name
    is thrown and the provider is not asked anything. *)
Theorem sign_up_without_name_asks_nothing
        {W : Type} (p : Auth.Provider W) (payload : AuthPayload) (s : Sys W) :
  authMode (app s) = Some signup ->
  truthyOpt (payloadName payload) = false ->
  handleAuthenticate p payload s =
  (inl (ErrorObj
          "Please share your name so we can personalize your study space."),
   s).
Proof.
  intros Hm Hn.
  unfold handleAuthenticate, Eff.bind, Eff.get. rewrite Hm.
  destruct (payloadName payload) as [n|]; simpl in *.
  - rewrite Hn. reflexivity.
  - reflexivity.
Qed.

Lemma sign_up_without_name_asks_nothing_witness :
  handleAuthenticate AuthSpec.rejecting
    {| payloadName := Some ""; payloadEmail := "ada@example.org";
       payloadPassword := "secret" |}
    (mkSys (setAuthMode (Some signup) AppSpec.signedIn) (Auth.mkWorld tt []))
  = (inl (ErrorObj
            "Please share your name so we can personalize your study space."),
     mkSys (setAuthMode (Some signup) AppSpec.signedIn) (Auth.mkWorld tt [])).
Proof.
  apply (sign_up_without_name_asks_nothing AuthSpec.rejecting
           {| payloadName := Some ""; payloadEmail := "ada@example.org";
              payloadPassword := "secret" |}
           (mkSys (setAuthMode (Some signup) AppSpec.signedIn)
              (Auth.mkWorld tt []))); reflexivity.
Defined.

(** X15.  Logging out clears the user, the conversations and the active id
    and closes the sidebar, but only if the provider signs out: when it
    answers with an error, [handleLogout] throws that error and the
    component is left exactly as it was, still signed in. *)
Theorem logout_clears_or_keeps_all
        {W : Type} (sp : AuthSession.SessionProvider W) (s : Sys W) :
  match AuthSession.auth_signOut sp (Auth.ext (world s)) with
  | (Some e, _) =>
      fst (handleLogout sp s) = inl e /\ app (snd (handleLogout sp s)) = app s
  | (None, _) =>
      fst (handleLogout sp s) = inr tt /\
      let a1 := app (snd (handleLogout sp s)) in
      user a1 = None /\ conversations a1 = [] /\
      activeConversationId a1 = None /\ isSidebarOpen a1 = false /\
      activeConversation a1 = None /\ authMode a1 = authMode (app s)
  end.
Proof.
  unfold handleLogout, AuthSession.signOut, AuthSession.ask, liftAuth,
    modifyApp, Eff.bind, Eff.modify, Eff.throw, Eff.ret.
  destruct (AuthSession.auth_signOut sp (Auth.ext (world s))) as [[e|] x];
    simpl; repeat split; reflexivity.
Qed.

(** X16.  The start-up lookup never throws: on any retrieval error, or when
    the provider knows no user, it leaves the component as it is; otherwise
    it sets the user to the provider's user, with the email defaulting to
    the empty string and the name taken from the metadata only when it is
    a string. *)
Theorem initialize_never_throws
        {W : Type} (sp : AuthSession.SessionProvider W) (s : Sys W) :
  let r := fst (AuthSession.auth_getUser sp (Auth.ext (world s))) in
  fst (initialize sp s) = inr tt /\
  match Auth.authError r, Auth.dataUser r with
  | None, Some u =>
      user (app (snd (initialize sp s))) = Some (Auth.mapUser u) /\
      Auth.id (Auth.mapUser u) = Auth.userId u /\
      (Auth.userEmail u = None -> Auth.email (Auth.mapUser u) = "") /\
      (Auth.metadataName u = Auth.MetaOther -> Auth.name (Auth.mapUser u) = None)
  | _, _ => app (snd (initialize sp s)) = app s
  end.
Proof.
  unfold initialize, AuthSession.getCurrentUser, AuthSession.ask, liftAuth,
    modifyApp, Eff.bind, Eff.modify, Eff.ret.
  destruct (AuthSession.auth_getUser sp (Auth.ext (world s))) as [r x]; simpl.
  destruct (Auth.authError r); simpl; [split; reflexivity|].
  destruct (Auth.dataUser r) as [u|]; simpl; [|split; reflexivity].
  unfold Auth.mapUser. simpl.
  repeat split; intros H; rewrite H; reflexivity.
Qed.

End AppShellTheory.

(* ===================================================================== *)
(** * Further properties of the authentication adapter *)
(* ===================================================================== *)

Module AuthSessionTheory.
Import Js Auth AuthSpec AuthSession.

(** X17.  [signIn] makes exactly one request, the password sign-in, and
    never writes a profile.  It throws the provider's error if there is
    one, throws its own "Login failed" error when the provider answers
    with neither an error nor a user, and otherwise returns the mapped
    user. *)
Theorem signIn_outcomes
        {W : Type} (p : Provider W) (payload : SignInPayload) (w : World W) :
  let r := fst (auth_signInWithPassword p (signInEmail payload)
                  (signInPassword payload) (ext w)) in
  calls (snd (signIn p payload w))
    = (calls w ++ [AuthSignInWithPassword (signInEmail payload)
                     (signInPassword payload)])%list /\
  ext (snd (signIn p payload w))
    = snd (auth_signInWithPassword p (signInEmail payload)
             (signInPassword payload) (ext w)) /\
  fst (signIn p payload w) =
  match authError r, dataUser r with
  | Some e, _ => inl e
  | None, None => inl (ErrorObj "Login failed. Please try again.")
  | None, Some u => inr (mapUser u)
  end.
Proof.
  unfold signIn, Eff.bind, request.
  destruct (auth_signInWithPassword p (signInEmail payload)
              (signInPassword payload) (ext w)) as [r x]; simpl.
  destruct (authError r); [repeat split; reflexivity|].
  destruct (dataUser r); repeat split; reflexivity.
Qed.

(** X18.  When the account is created but the profile write fails,
    [signUp] throws the profile error and returns no user, although the
    sign-up request has been answered with a user: the account exists
    upstream, the caller sees a failed sign-up. *)
Theorem signUp_profile_failure_after_account
        {W : Type} (p : Provider W) (payload : SignUpPayload) (w : World W)
        (u : ProviderUser) (e : JsError) :
  authError (signUpAnswer p payload w) = None ->
  dataUser (signUpAnswer p payload w) = Some u ->
  truthy (payloadName payload) = true ->
  fst (profiles_upsert p (userId u) (payloadName payload)
         (ext (afterSignUp p payload w))) = Some e ->
  fst (signUp p payload w) = inl e /\
  calls (snd (signUp p payload w)) =
  (calls w ++ [AuthSignUp (payloadEmail payload) (payloadPassword payload)
                 (payloadName payload);
               ProfilesUpsert (userId u) (payloadName payload)])%list.
Proof.
  unfold signUpAnswer, afterSignUp, signUp, Eff.bind, Eff.when, request.
  destruct (auth_signUp p (payloadEmail payload) (payloadPassword payload)
              (payloadName payload) (ext w)) as [r x]; simpl.
  intros He Hu Hn Hp. rewrite He, Hu, Hn. simpl.
  destruct (profiles_upsert p (userId u) (payloadName payload) x) as [pe y].
  simpl in *. subst pe. simpl. rewrite <- app_assoc. split; reflexivity.
Qed.

Lemma signUp_profile_failure_after_account_witness :
  fst (signUp profileDown ada (mkWorld 0 []))
    = inl (Thrown "permission denied for table profiles") /\
  calls (snd (signUp profileDown ada (mkWorld 0 []))) =
  [AuthSignUp "ada@example.org" "secret" "Ada"; ProfilesUpsert "u1" "Ada"].
Proof.
  apply (signUp_profile_failure_after_account profileDown ada (mkWorld 0 [])
           {| userId := "u1"; userEmail := Some "ada@example.org";
              metadataName := MetaString "Ada" |}
           (Thrown "permission denied for table profiles")); reflexivity.
Defined.

(** X19.  A sign-up that the provider accepts returns the mapped user.  With
    a non-empty name the profile is written once, after the sign-up and
    under the new user's id; with an empty name no profile is written. *)
Theorem signUp_success
        {W : Type} (p : Provider W) (payload : SignUpPayload) (w : World W)
        (u : ProviderUser) :
  authError (signUpAnswer p payload w) = None ->
  dataUser (signUpAnswer p payload w) = Some u ->
  (truthy (payloadName payload) = true ->
   fst (profiles_upsert p (userId u) (payloadName payload)
          (ext (afterSignUp p payload w))) = None) ->
  fst (signUp p payload w) = inr (mapUser u) /\
  calls (snd (signUp p payload w)) =
  (calls w ++
   AuthSignUp (payloadEmail payload) (payloadPassword payload)
     (payloadName payload)
   :: (if truthy (payloadName payload)
       then [ProfilesUpsert (userId u) (payloadName payload)]
       else []))%list.
Proof.
  unfold signUpAnswer, afterSignUp, signUp, Eff.bind, Eff.when, request.
  destruct (auth_signUp p (payloadEmail payload) (payloadPassword payload)
              (payloadName payload) (ext w)) as [r x]; simpl.
  intros He Hu Hp. rewrite He, Hu.
  destruct (truthy (payloadName payload)); simpl.
  - specialize (Hp eq_refl).
    destruct (profiles_upsert p (userId u) (payloadName payload) x) as [pe y].
    simpl in *. subst pe. simpl. rewrite <- app_assoc. split; reflexivity.
  - split; reflexivity.
Qed.

Lemma signUp_success_witness :
  fst (signUp welcoming ada (mkWorld 0 []))
    = inr {| id := "u1"; email := "ada@example.org"; name := Some "Ada" |} /\
  calls (snd (signUp welcoming ada (mkWorld 0 []))) =
  [AuthSignUp "ada@example.org" "secret" "Ada"; ProfilesUpsert "u1" "Ada"].
Proof.
  apply (signUp_success welcoming ada (mkWorld 0 [])
           {| userId := "u1"; userEmail := Some "ada@example.org";
              metadataName := MetaString "Ada" |}); reflexivity.
Defined.

End AuthSessionTheory.

(* ===================================================================== *)
(** * Further properties of the chat component *)
(* ===================================================================== *)

Module ChatBotMountTheory.
Import Js ChatBot ChatBotSpec ChatBotMount.

(** ** Sending *)

(** Apart from the staged list, [uploadAttachments] leaves the component
    alone. *)
Lemma uploadAttachments_comp
      {W : Type} (svc : Services W) (props : ChatBotProps) (s : Sys W) :
  let s1 := snd (uploadAttachments svc props s) in
  messages (comp s1) = messages (comp s) /\
  input (comp s1) = input (comp s) /\
  isLoading (comp s1) = isLoading (comp s) /\
  isHistoryLoading (comp s1) = isHistoryLoading (comp s) /\
  chatRef (comp s1) = chatRef (comp s).
Proof.
  destruct (userId props) as [uid|] eqn:Hu.
  - destruct (truthy uid) eqn:Ht.
    + rewrite (ChatBotTheory.uploadAttachments_run svc props uid s Hu Ht).
      pose proof (ChatBotTheory.uploadFrom_cases svc uid
                    (fst (date_now svc (ext s))) (pendingAttachments (comp s))
                    0 (afterClock svc s)) as H.
      destruct (uploadFrom svc uid (fst (date_now svc (ext s))) 0
                  (pendingAttachments (comp s)) (afterClock svc s))
        as [[e|pairs] s1].
      * destruct H as [_ Hc]. simpl in *. rewrite Hc. repeat split.
      * destruct H as [_ Hc].
        destruct (ChatBotTheory.revokeAll_comp (pendingAttachments (comp s)) s1)
          as [_ Hr].
        simpl in *. rewrite Hr, Hc. repeat split.
    + unfold uploadAttachments. rewrite Hu, Ht. simpl. repeat split.
  - unfold uploadAttachments. rewrite Hu. simpl. repeat split.
Qed.

Ltac flags :=
  split; [assumption | split; [assumption | split; [assumption|]]].

(** What the body of a send does to the transcript and the flags. *)
Lemma sendBody_shape
      {W : Type} (svc : Services W) (props : ChatBotProps)
      (trimmedInput : string) (s : Sys W) :
  match sendBody svc props trimmedInput s with
  | (r, s1) =>
      isLoading (comp s1) = isLoading (comp s) /\
      isHistoryLoading (comp s1) = isHistoryLoading (comp s) /\
      chatRef (comp s1) = chatRef (comp s) /\
      match r with
      | inr _ =>
          exists atts reply,
            messages (comp s1) =
            (messages (comp s) ++
             [userMessageOf trimmedInput atts;
              ChatMessage.mk ChatMessage.model reply None])%list
      | inl _ =>
          messages (comp s1) = messages (comp s) \/
          exists atts,
            messages (comp s1) =
            (messages (comp s) ++ [userMessageOf trimmedInput atts])%list
      end
  end.
Proof.
  unfold sendBody.
  unfold Eff.bind at 1. unfold Eff.get.
  unfold Eff.bind at 1.
  assert (U : exists (r0 : JsError + option Uploaded) (s0 : Sys W),
             match pendingAttachments (comp s) with
             | [] => Eff.ret None
             | _ :: _ =>
                 if negb (canPersistConversation props)
                 then Eff.throw
                        (ErrorObj
                           "Please sign in to upload files and keep them in your chat history.")
                 else Eff.bind (uploadAttachments svc props)
                        (fun u => Eff.ret (Some u))
             end s = (r0, s0) /\
             messages (comp s0) = messages (comp s) /\
             isLoading (comp s0) = isLoading (comp s) /\
             isHistoryLoading (comp s0) = isHistoryLoading (comp s) /\
             chatRef (comp s0) = chatRef (comp s)).
  { destruct (pendingAttachments (comp s)).
    - eexists; eexists; split; [reflexivity | repeat split].
    - destruct (negb (canPersistConversation props)).
      + eexists; eexists; split; [reflexivity | repeat split].
      + unfold Eff.bind.
        destruct (uploadAttachments_comp svc props s) as (H1 & _ & H3 & H4 & H5).
        destruct (uploadAttachments svc props s) as [[e|u] s0]; simpl in *;
          eexists; eexists; (split; [reflexivity | repeat split; assumption]). }
  destruct U as (r0 & s0 & E & Hm & Hl & Hh & Hc).
  rewrite E. destruct r0 as [e|uploaded]; simpl.
  - flags. left. assumption.
  - unfold Eff.bind, modifyComp, Eff.modify, Eff.when, request, Eff.ret,
      Eff.throw.
    simpl.
    destruct (canPersistConversation props); simpl.
    + destruct (messages_insert svc _ (ext s0)) as [u1 x1]; simpl.
      destruct (chat_sendMessage svc _ x1) as [[e|text] x2]; simpl.
      * flags. right. eexists. rewrite Hm. reflexivity.
      * destruct (messages_insert svc _ x2) as [u2 x3]; simpl.
        flags. eexists; eexists.
        rewrite Hm, <- app_assoc. reflexivity.
    + destruct (chat_sendMessage svc _ (ext s0)) as [[e|text] x2]; simpl.
      * flags. right. eexists. rewrite Hm. reflexivity.
      * flags. eexists; eexists.
        rewrite Hm, <- app_assoc. reflexivity.
Qed.

(** [handleSendMessage] in one step. *)
Lemma handleSendMessage_run
      {W : Type} (svc : Services W) (props : ChatBotProps) (s : Sys W) :
  handleSendMessage svc props s =
  if nothingToSend (comp s) then (inr tt, s)
  else if cannotSend (comp s) then (inr tt, s)
  else match sendBody svc props (trim (input (comp s))) (locked s) with
       | (inr _, s1) => (inr tt, unlocked s1)
       | (inl e, s1) => (inr tt, unlocked (withBubble e s1))
       end.
Proof.
  unfold handleSendMessage, nothingToSend, cannotSend, locked.
  unfold Eff.bind at 1. unfold Eff.get.
  destruct (negb (truthy (trim (input (comp s)))) &&
            (List.length (pendingAttachments (comp s)) =? 0)); [reflexivity|].
  destruct (isLoading (comp s) ||
            negb match chatRef (comp s) with Some _ => true | None => false end);
    [reflexivity|].
  unfold Eff.bind, modifyComp, Eff.modify, Eff.finally, Eff.tryCatch. simpl.
  destruct (sendBody svc props (trim (input (comp s)))
              (mkSys (setIsLoading true (comp s)) (ext s) (calls s)))
    as [[e|[]] s1]; reflexivity.
Qed.

(** X20.  [handleSendMessage] never throws and always gives the sending
    flag back as it found it, whatever the services answer; while a send is
    in flight or no chat session exists it ignores the event altogether. *)
Theorem send_never_throws_and_unlocks
        {W : Type} (svc : Services W) (props : ChatBotProps) (s : Sys W) :
  fst (handleSendMessage svc props s) = inr tt /\
  isLoading (comp (snd (handleSendMessage svc props s))) = isLoading (comp s) /\
  chatRef (comp (snd (handleSendMessage svc props s))) = chatRef (comp s) /\
  (isLoading (comp s) = true \/ chatRef (comp s) = None ->
   handleSendMessage svc props s = (inr tt, s)).
Proof.
  rewrite handleSendMessage_run.
  destruct (nothingToSend (comp s)); [now repeat split|].
  unfold cannotSend.
  destruct (isLoading (comp s)) eqn:L; [now repeat split|].
  destruct (chatRef (comp s)) as [chat|] eqn:C; [|now repeat split].
  cbn [orb negb].
  pose proof (sendBody_shape svc props (trim (input (comp s))) (locked s)) as Hb.
  destruct (sendBody svc props (trim (input (comp s))) (locked s))
    as [[e|u] s1].
  - destruct Hb as (_ & _ & Hc & _). simpl in *.
    split; [reflexivity|]. split; [reflexivity|]. split; [congruence|].
    intros [H|H]; discriminate.
  - destruct Hb as (_ & _ & Hc & _). simpl in *.
    split; [reflexivity|]. split; [reflexivity|]. split; [congruence|].
    intros [H|H]; discriminate.
Qed.

(** X21.  The transcript is append-only under [handleSendMessage]: the old
    messages stay in place and at most two are added.  A send that passes
    the guards adds either one model-role message (it failed before the
    user message was shown), or the user message followed by one model-role
    message, the reply or the error text; so whatever happens the last
    message added is the model's. *)
Theorem send_is_append_only
        {W : Type} (svc : Services W) (props : ChatBotProps) (s : Sys W) :
  let before := messages (comp s) in
  let after := messages (comp (snd (handleSendMessage svc props s))) in
  after = before \/
  (exists text,
     after = (before ++ [ChatMessage.mk ChatMessage.model text None])%list) \/
  (exists atts text,
     after = (before ++
              [userMessageOf (trim (input (comp s))) atts;
               ChatMessage.mk ChatMessage.model text None])%list).
Proof.
  cbv zeta. rewrite handleSendMessage_run.
  destruct (nothingToSend (comp s)); [left; reflexivity|].
  destruct (cannotSend (comp s)); [left; reflexivity|].
  pose proof (sendBody_shape svc props (trim (input (comp s))) (locked s)) as Hb.
  destruct (sendBody svc props (trim (input (comp s))) (locked s))
    as [[e|u] s1]; destruct Hb as (_ & _ & _ & Hm); simpl in *.
  - destruct Hm as [Hm|(atts & Hm)]; rewrite Hm.
    + right. left. eexists. reflexivity.
    + right. right. eexists; eexists. rewrite <- app_assoc. reflexivity.
  - destruct Hm as (atts & reply & Hm). rewrite Hm.
    right. right. eexists; eexists. reflexivity.
Qed.

Lemma append_empty (a : string) : a ++ "" = a.
Proof.
  induction a as [|x a IH]; simpl; [reflexivity | now rewrite IH].
Qed.

(** X22.  A guest (no memory, or no user) who sends staged files is told to
    sign in: the only effect is one model-role message with that text.
    Nothing is uploaded, persisted or sent to the model, the files stay
    staged and the input keeps its text. *)
Theorem guest_upload_is_refused
        {W : Type} (svc : Services W) (props : ChatBotProps) (s : Sys W) :
  canPersistConversation props = false ->
  pendingAttachments (comp s) <> [] ->
  cannotSend (comp s) = false ->
  handleSendMessage svc props s =
  (inr tt,
   withBubble
     (ErrorObj
        "Please sign in to upload files and keep them in your chat history.")
     s).
Proof.
  intros Hp Hn Hc. rewrite handleSendMessage_run, Hc.
  unfold nothingToSend.
  destruct (pendingAttachments (comp s)) as [|item rest] eqn:E;
    [contradiction|].
  rewrite andb_false_r.
  unfold sendBody, Eff.bind, Eff.get, locked. simpl. rewrite E, Hp. simpl.
  unfold unlocked, withBubble. simpl.
  unfold cannotSend in Hc. apply orb_false_iff in Hc as [Hl _].
  destruct s as [c x l]. destruct c. simpl in *. subst. reflexivity.
Qed.

Lemma guest_upload_is_refused_witness :
  handleSendMessage cloud guest (mkSys staged 0 []) =
  (inr tt,
   withBubble
     (ErrorObj
        "Please sign in to upload files and keep them in your chat history.")
     (mkSys staged 0 [])).
Proof.
  apply (guest_upload_is_refused cloud guest (mkSys staged 0 []));
    [reflexivity | discriminate | reflexivity].
Defined.

(** X23.  A text-only send shows the trimmed text as the user message,
    clears the input and sends exactly that text to the model.  With
    persistence the user row is written before the model is asked, whatever
    that write answers, and the model row after the reply; when the model
    fails, its error text is shown after the user message and no model row
    is written, so the stored history then ends with the user's message. *)
Theorem text_send_requests
        {W : Type} (svc : Services W) (props : ChatBotProps) (s : Sys W)
        (t : string) :
  pendingAttachments (comp s) = [] ->
  trim (input (comp s)) = t ->
  truthy t = true ->
  cannotSend (comp s) = false ->
  let userRow := {| rowUserId := userId props; rowRole := ChatMessage.user;
                    rowContent := t; rowAttachments := None |} in
  let x1 := if canPersistConversation props
            then snd (messages_insert svc userRow (ext s)) else ext s in
  let s1 := snd (handleSendMessage svc props s) in
  input (comp s1) = "" /\
  match fst (chat_sendMessage svc t x1) with
  | inr reply =>
      messages (comp s1) =
      (messages (comp s) ++
       [ChatMessage.mk ChatMessage.user t None;
        ChatMessage.mk ChatMessage.model reply None])%list /\
      calls s1 =
      (calls s ++
       if canPersistConversation props
       then [MessagesInsert userRow; ChatSendMessage t;
             MessagesInsert {| rowUserId := userId props;
                               rowRole := ChatMessage.model;
                               rowContent := reply;
                               rowAttachments := None |}]
       else [ChatSendMessage t])%list
  | inl e =>
      messages (comp s1) =
      (messages (comp s) ++
       [ChatMessage.mk ChatMessage.user t None; errorBubble e])%list /\
      calls s1 =
      (calls s ++
       if canPersistConversation props
       then [MessagesInsert userRow; ChatSendMessage t]
       else [ChatSendMessage t])%list
  end.
Proof.
  intros Hp Ht Htr Hc. cbv zeta. rewrite handleSendMessage_run, Hc.
  unfold nothingToSend. rewrite Ht, Htr. cbn [negb andb].
  unfold sendBody, Eff.bind, Eff.get, locked. simpl. rewrite Hp. simpl.
  unfold promptFor, orElse. rewrite Htr, append_empty.
  unfold Eff.when, request, modifyComp, Eff.modify, Eff.ret, Eff.throw.
  simpl.
  destruct (canPersistConversation props); simpl.
  - destruct (messages_insert svc _ (ext s)) as [u1 x1]; simpl.
    destruct (chat_sendMessage svc t x1) as [[e|reply] x2]; simpl.
    + rewrite <- !app_assoc. repeat split.
    + destruct (messages_insert svc _ x2) as [u2 x3]; simpl.
      rewrite <- !app_assoc. repeat split.
  - destruct (chat_sendMessage svc t (ext s)) as [[e|reply] x2]; simpl.
    + rewrite <- !app_assoc. repeat split.
    + rewrite <- !app_assoc. repeat split.
Qed.

Lemma text_send_requests_witness :
  let s := mkSys (setInput "  What is osmosis?  " ready) 0 [] in
  let userRow := {| rowUserId := Some "u1"; rowRole := ChatMessage.user;
                    rowContent := "What is osmosis?";
                    rowAttachments := None |} in
  let s1 := snd (handleSendMessage cloud ada s) in
  input (comp s1) = "" /\
  messages (comp s1) =
  (messages ready ++
   [ChatMessage.mk ChatMessage.user "What is osmosis?" None;
    ChatMessage.mk ChatMessage.model "Echo: What is osmosis?" None])%list /\
  calls s1 =
  [MessagesInsert userRow; ChatSendMessage "What is osmosis?";
   MessagesInsert {| rowUserId := Some "u1"; rowRole := ChatMessage.model;
                     rowContent := "Echo: What is osmosis?";
                     rowAttachments := None |}].
Proof.
  apply (text_send_requests cloud ada
           (mkSys (setInput "  What is osmosis?  " ready) 0 [])
           "What is osmosis?"); reflexivity.
Defined.

(** ** Loading history: the requests *)

Lemma resolveAttachments_calls {W : Type} (svc : Services W)
      (l : list PersistedAttachment.t) : forall s : Sys W,
  calls (snd (resolveAttachments svc l s)) =
  (calls s ++
   map (fun a => StorageCreateSignedUrl ATTACHMENT_BUCKET
                   (PersistedAttachment.storagePath a) SIGNED_URL_TTL_SECONDS) l)%list.
Proof.
  induction l as [|a l IH]; intros s; simpl.
  - now rewrite app_nil_r.
  - unfold Eff.bind. rewrite ChatBotTheory.resolveAttachment_run.
    specialize (IH (afterSigning svc a s)).
    destruct (resolveAttachments svc l (afterSigning svc a s)) as [[e|atts] s1];
      simpl in *; rewrite IH, <- app_assoc; reflexivity.
Qed.

Lemma resolveEntries_calls {W : Type} (svc : Services W) (data : list Entry) :
  forall s : Sys W,
  calls (snd (resolveEntries svc data s)) = (calls s ++ signingRequests data)%list.
Proof.
  unfold signingRequests.
  induction data as [|e data IH]; intros s; simpl.
  - now rewrite app_nil_r.
  - unfold Eff.bind, resolveEntry. unfold Eff.bind.
    destruct (entryAttachments e) as [persisted|].
    + pose proof (resolveAttachments_calls svc persisted s) as Hc.
      destruct (ChatBotTheory.resolveAttachments_total svc persisted s)
        as (atts & s1 & E & _ & _).
      rewrite E in *. simpl in *.
      specialize (IH s1).
      destruct (resolveEntries svc data s1) as [[e'|msgs] s2]; simpl in *;
        rewrite IH, Hc, map_app, app_assoc; reflexivity.
    + simpl. specialize (IH s).
      destruct (resolveEntries svc data s) as [[e'|msgs] s2]; simpl in *;
        exact IH.
Qed.

(** X24.  [fetchHistory] never touches the component.  It reads the rows of
    the user first; if that fails it throws the error and signs nothing; if
    no rows come back it returns the empty history.  Otherwise it returns
    one message per row and makes exactly one signing request per stored
    attachment, in row and attachment order, with the 24-hour validity. *)
Theorem fetch_history_requests
        {W : Type} (svc : Services W) (currentUserId : string) (s : Sys W) :
  let r := fst (messages_select svc currentUserId (ext s)) in
  let s1 := snd (fetchHistory svc currentUserId s) in
  comp s1 = comp s /\
  SIGNED_URL_TTL_SECONDS = 86400%Z /\
  match selectError r, selectData r with
  | Some e, _ =>
      fst (fetchHistory svc currentUserId s) = inl e /\
      calls s1 = (calls s ++ [MessagesSelect currentUserId])%list
  | None, None =>
      fst (fetchHistory svc currentUserId s) = inr [] /\
      calls s1 = (calls s ++ [MessagesSelect currentUserId])%list
  | None, Some data =>
      (exists msgs, fst (fetchHistory svc currentUserId s) = inr msgs /\
                    List.length msgs = List.length data) /\
      calls s1 =
      (calls s ++ MessagesSelect currentUserId :: signingRequests data)%list
  end.
Proof.
  unfold fetchHistory, Eff.bind, request.
  destruct (messages_select svc currentUserId (ext s)) as [r x]. simpl.
  split; [|split; [reflexivity|]].
  - destruct (selectError r); [reflexivity|].
    destruct (selectData r) as [data|]; [|reflexivity].
    match goal with
    | |- context [resolveEntries svc data ?st] =>
        destruct (ChatBotTheory.resolveEntries_total svc data st)
          as (msgs & s' & E & _ & C)
    end.
    rewrite E. exact C.
  - destruct (selectError r); [split; reflexivity|].
    destruct (selectData r) as [data|]; [|split; reflexivity].
    match goal with
    | |- context [resolveEntries svc data ?st] =>
        pose proof (resolveEntries_calls svc data st) as Hc;
        destruct (ChatBotTheory.resolveEntries_total svc data st)
          as (msgs & s' & E & F & _)
    end.
    rewrite E in *. simpl in *. split.
    + exists msgs. split; [reflexivity|].
      symmetry. eapply Forall2_length. exact F.
    + rewrite Hc, <- app_assoc. reflexivity.
Qed.

(** ** File names and storage paths *)

(** X25.  A sanitized file name has the length of the original and consists
    of letters, digits, dots, hyphens and underscores only, so it holds no
    slash and no blank; sanitizing is idempotent, and a name that is
    already made of letters, digits, dots and hyphens is kept as it is. *)
Theorem sanitizeName_is_safe (name : string) :
  allSafe (sanitizeName name) = true /\
  String.length (sanitizeName name) = String.length name /\
  sanitizeName (sanitizeName name) = sanitizeName name /\
  (allKept name = true -> sanitizeName name = name) /\
  AppShell.countChar "/" (sanitizeName name) = 0 /\
  AppShell.countChar " " (sanitizeName name) = 0.
Proof.
  induction name as [|c name (IH1 & IH2 & IH3 & IH4 & IH5 & IH6)].
  - repeat split.
  - cbn [sanitizeName allKept].
    destruct (keptInName c) eqn:K.
    + cbn [sanitizeName allSafe String.length AppShell.countChar andb].
      unfold safeInPath. rewrite K, IH1, IH2, IH3, IH5, IH6.
      assert (Hs : Ascii.eqb c "/" = false /\ Ascii.eqb c " " = false).
      { clear -K. destruct c as [[] [] [] [] [] [] [] []];
          try discriminate K; split; reflexivity. }
      destruct Hs as [Hs1 Hs2]. rewrite Hs1, Hs2.
      repeat split. intros H. now rewrite (IH4 H).
    + cbn [sanitizeName allSafe String.length AppShell.countChar andb].
      unfold safeInPath. rewrite IH1, IH2, IH3, IH5, IH6.
      repeat split. discriminate.
Qed.

(** ** Uploading: requests and releases *)

Lemma revokeAll_calls {W : Type} (items : list PendingAttachment.t) :
  forall s : Sys W,
  calls (snd (revokeAll items s)) = (calls s ++ revocations items)%list /\
  ext (snd (revokeAll items s)) = ext s.
Proof.
  unfold revocations.
  induction items as [|item rest IH]; intros s; simpl.
  - now rewrite app_nil_r.
  - unfold Eff.bind, perform.
    destruct (IH (mkSys (comp s) (ext s)
                    (calls s ++ [RevokeObjectURL
                                   (PendingAttachment.previewUrl item)])%list))
      as [H1 H2].
    rewrite H1, H2. simpl. rewrite <- app_assoc. split; reflexivity.
Qed.

Lemma filter_revocations_app (a b : list Call) :
  forallb notRevocation b = true ->
  filter isRevocation (a ++ b) = filter isRevocation a.
Proof.
  intros H. rewrite filter_app.
  assert (E : filter isRevocation b = []).
  { induction b as [|c b IH]; [reflexivity|].
    simpl in *. apply andb_true_iff in H as [Hc Hb].
    unfold notRevocation in Hc. apply negb_true_iff in Hc.
    rewrite Hc. apply IH, Hb. }
  rewrite E. apply app_nil_r.
Qed.

(** The requests of the loop: all of them on success, a prefix of storage
    requests on failure. *)
Lemma uploadFrom_calls {W : Type} (svc : Services W) (uid : string)
      (timestamp : Z) (pending : list PendingAttachment.t) :
  forall (index : nat) (s : Sys W),
  match uploadFrom svc uid timestamp index pending s with
  | (inr _, s1) =>
      calls s1 = (calls s ++ uploadRequests uid timestamp index pending)%list
  | (inl _, s1) =>
      exists reqs, calls s1 = (calls s ++ reqs)%list /\
                   forallb notRevocation reqs = true
  end.
Proof.
  induction pending as [|item rest IH]; intros index s.
  - simpl. now rewrite app_nil_r.
  - simpl. unfold Eff.bind.
    assert (H1 : match uploadOne svc uid timestamp index item s with
                 | (inr _, s1) =>
                     calls s1 =
                     (calls s ++
                      [StorageUpload ATTACHMENT_BUCKET
                         (storagePathFor uid timestamp index
                            (File.name (PendingAttachment.file item)))
                         (PendingAttachment.file item);
                       StorageCreateSignedUrl ATTACHMENT_BUCKET
                         (storagePathFor uid timestamp index
                            (File.name (PendingAttachment.file item)))
                         SIGNED_URL_TTL_SECONDS])%list
                 | (inl _, s1) =>
                     exists reqs, calls s1 = (calls s ++ reqs)%list /\
                                  forallb notRevocation reqs = true
                 end).
    { unfold uploadOne, Eff.bind, request. simpl.
      destruct (storage_upload svc _ _ _ (ext s)) as [[e|] x1]; simpl.
      - eexists. split; reflexivity.
      - destruct (storage_createSignedUrl svc _ _ _ x1) as [r x2]; simpl.
        destruct (signedError r); simpl.
        + eexists. rewrite <- app_assoc. split; reflexivity.
        + destruct (signedUrl r) as [u|]; simpl.
          * destruct (truthy u); simpl.
            -- now rewrite <- app_assoc.
            -- eexists. rewrite <- app_assoc. split; reflexivity.
          * eexists. rewrite <- app_assoc. split; reflexivity. }
    destruct (uploadOne svc uid timestamp index item s) as [[e|pr] s1].
    + exact H1.
    + specialize (IH (S index) s1).
      destruct (uploadFrom svc uid timestamp (S index) rest s1)
        as [[e|others] s2].
      * destruct IH as (reqs & E & F). eexists. rewrite E, H1, <- app_assoc.
        split; [reflexivity|]. simpl. exact F.
      * simpl. rewrite IH, H1, <- app_assoc. reflexivity.
Qed.

(** X26.  A successful upload makes, after reading the clock, one upload
    and one signing request per staged file, in staging order (the upload
    into the attachments bucket, the signing for 24 hours), and then
    releases every preview URL of the batch exactly once, in order.  A
    failed upload releases no preview URL and leaves the staged list as it
    was. *)
Theorem upload_requests_and_releases
        {W : Type} (svc : Services W) (props : ChatBotProps) (uid : string)
        (s : Sys W) :
  userId props = Some uid ->
  truthy uid = true ->
  let pending := pendingAttachments (comp s) in
  let timestamp := fst (date_now svc (ext s)) in
  match uploadAttachments svc props s with
  | (inr _, s1) =>
      calls s1 =
      (calls s ++ DateNow :: uploadRequests uid timestamp 0 pending ++
       revocations pending)%list
  | (inl _, s1) =>
      filter isRevocation (calls s1) = filter isRevocation (calls s) /\
      pendingAttachments (comp s1) = pending
  end.
Proof.
  intros Hu Ht pending timestamp.
  rewrite (ChatBotTheory.uploadAttachments_run svc props uid s Hu Ht).
  fold pending timestamp.
  pose proof (uploadFrom_calls svc uid timestamp pending 0 (afterClock svc s))
    as Hc.
  pose proof (ChatBotTheory.uploadFrom_cases svc uid timestamp pending 0
                (afterClock svc s)) as Hk.
  destruct (uploadFrom svc uid timestamp 0 pending (afterClock svc s))
    as [[e|pairs] s1].
  - destruct Hc as (reqs & E & F). destruct Hk as [_ Hk]. split.
    + rewrite E. simpl. rewrite <- app_assoc.
      apply filter_revocations_app. simpl. exact F.
    + simpl in Hk. now rewrite Hk.
  - destruct (revokeAll_calls pending s1) as [Hr _].
    simpl. rewrite Hr, Hc. simpl. rewrite <- !app_assoc. reflexivity.
Qed.

Lemma upload_requests_and_releases_witness :
  match uploadAttachments cloud ada (mkSys staged 0 []) with
  | (inr _, s1) =>
      calls s1 =
      (DateNow :: uploadRequests "u1" 1700000000000 0 (pendingAttachments staged)
       ++ revocations (pendingAttachments staged))%list
  | (inl _, s1) =>
      filter isRevocation (calls s1) = [] /\
      pendingAttachments (comp s1) = pendingAttachments staged
  end.
Proof.
  exact (upload_requests_and_releases cloud ada "u1" (mkSys staged 0 [])
           eq_refl eq_refl).
Defined.

(** ** Staging files *)

Lemma stageFiles_run {W : Type} (b : Browser W) (files : list File.t) :
  forall s : Sys W,
  exists selected s1,
    stageFiles b files s = (inr selected, s1) /\
    map PendingAttachment.file selected = files /\
    comp s1 = comp s /\ calls s1 = calls s.
Proof.
  induction files as [|f rest IH]; intros s; simpl.
  - exists [], s. repeat split.
  - unfold Eff.bind, ask.
    destruct (createObjectURL b f (ext s)) as [u x]. simpl.
    destruct (IH (mkSys (comp s) x (calls s))) as (sel & s1 & E & F & C & L).
    rewrite E. eexists; eexists. split; [reflexivity|].
    simpl. rewrite F. repeat split; assumption.
Qed.

(** X27.  Selecting files appends one staged attachment per file, in
    selection order and without dropping duplicates, after the ones already
    staged; a selection without a file list does nothing.  Removing an
    attachment releases its preview URL once and drops from the staged list
    every entry with that preview URL, keeping the others in order; if the
    URL is not staged the list is unchanged. *)
Theorem staging_appends_and_removes
        {W : Type} (b : Browser W) (files : list File.t)
        (attachment : PendingAttachment.t) (s : Sys W) :
  handleFileSelect b None s = (inr tt, s) /\
  (let s1 := snd (handleFileSelect b (Some files) s) in
   fst (handleFileSelect b (Some files) s) = inr tt /\
   calls s1 = calls s /\
   exists selected,
     pendingAttachments (comp s1)
       = (pendingAttachments (comp s) ++ selected)%list /\
     map PendingAttachment.file selected = files) /\
  (let s2 := snd (handleRemoveAttachment attachment s) in
   fst (handleRemoveAttachment attachment s) = inr tt /\
   calls s2 = (calls s ++
               [RevokeObjectURL (PendingAttachment.previewUrl attachment)])%list /\
   ext s2 = ext s /\
   (forall item, In item (pendingAttachments (comp s2)) <->
                 In item (pendingAttachments (comp s)) /\
                 PendingAttachment.previewUrl item
                   <> PendingAttachment.previewUrl attachment) /\
   ((forall item, In item (pendingAttachments (comp s)) ->
                  PendingAttachment.previewUrl item
                    <> PendingAttachment.previewUrl attachment) ->
    pendingAttachments (comp s2) = pendingAttachments (comp s))).
Proof.
  split; [reflexivity|]. split.
  - unfold handleFileSelect, Eff.bind, Eff.get, modifyComp, Eff.modify.
    destruct (stageFiles_run b files s) as (sel & s1 & E & F & C & L).
    rewrite E. simpl. rewrite C.
    split; [reflexivity|]. split; [exact L|].
    exists sel. split; [reflexivity | exact F].
  - unfold handleRemoveAttachment, Eff.bind, Eff.get, modifyComp, Eff.modify,
      perform. simpl.
    split; [reflexivity|]. split; [reflexivity|]. split; [reflexivity|].
    split.
    + intros item. rewrite filter_In.
      split; intros [H1 H2]; (split; [exact H1|]).
      * apply negb_true_iff, String.eqb_neq in H2. exact H2.
      * apply negb_true_iff, String.eqb_neq. exact H2.
    + intros H. induction (pendingAttachments (comp s)) as [|item l IH];
        [reflexivity|].
      simpl.
      assert (E : String.eqb (PendingAttachment.previewUrl item)
                    (PendingAttachment.previewUrl attachment) = false).
      { apply String.eqb_neq, H. left. reflexivity. }
      rewrite E. simpl. f_equal. apply IH.
      intros it Hit. apply H. right. exact Hit.
Qed.

(** ** Storage paths identify their file *)

Lemma digitsAux_acc (fuel : nat) : forall (n : N) (acc : string),
  digitsAux fuel n acc = digitsAux fuel n "" ++ acc.
Proof.
  induction fuel as [|f IH]; intros n acc; [reflexivity|].
  cbn [digitsAux]. destruct (N.ltb n 10); [reflexivity|].
  rewrite (IH _ (String _ acc)), (IH _ (String _ "")).
  rewrite VoiceSessionTheory.append_assoc. reflexivity.
Qed.

Lemma digit_value (n : N) :
  N_of_ascii (ascii_of_N (48 + N.modulo n 10)) = (48 + N.modulo n 10)%N.
Proof.
  apply N_ascii_embedding.
  pose proof (N.mod_upper_bound n 10). lia.
Qed.

Lemma digitsAux_digits (fuel : nat) : forall (n : N) (acc : string),
  allDigits acc = true -> allDigits (digitsAux fuel n acc) = true.
Proof.
  induction fuel as [|f IH]; intros n acc H; [exact H|].
  cbn [digitsAux].
  assert (D : allDigits (String (ascii_of_N (48 + N.modulo n 10)) acc) = true).
  { cbn [allDigits]. rewrite H. unfold isDigit. rewrite digit_value.
    assert (B : (N.modulo n 10 < 10)%N) by (apply N.mod_upper_bound; lia).
    apply andb_true_iff; split; [|reflexivity].
    revert B. generalize (N.modulo n 10). intros m B.
    apply andb_true_iff; split; apply N.leb_le; lia. }
  destruct (N.ltb n 10); [exact D | apply IH, D].
Qed.

Lemma readDigits_app (a b : string) : forall v : N,
  readDigits (a ++ b) v = readDigits b (readDigits a v).
Proof.
  induction a as [|c a IH]; intros v; [reflexivity | apply IH].
Qed.

Lemma digitsAux_read (fuel : nat) : forall n : N,
  (n < 2 ^ N.of_nat fuel)%N -> 0 < fuel ->
  readDigits (digitsAux fuel n "") 0 = n.
Proof.
  induction fuel as [|f IH]; intros n Hn Hf; [lia|].
  cbn [digitsAux]. destruct (N.ltb n 10) eqn:L.
  - apply N.ltb_lt in L. cbn [readDigits]. rewrite digit_value.
    rewrite N.mod_small by exact L. lia.
  - apply N.ltb_ge in L.
    rewrite digitsAux_acc, readDigits_app. cbn [readDigits].
    rewrite digit_value.
    rewrite Nat2N.inj_succ, N.pow_succ_r' in Hn.
    assert (Hf' : 0 < f).
    { destruct f; [|lia]. simpl in Hn. lia. }
    rewrite IH; [| |exact Hf'].
    + replace (48 + N.modulo n 10 - 48)%N with (N.modulo n 10)
        by (generalize (N.modulo n 10); intros; lia).
      symmetry. apply N.div_mod. lia.
    + apply N.Div0.div_lt_upper_bound.
      revert Hn. generalize (2 ^ N.of_nat f)%N. intros q Hn. lia.
Qed.

(** Rendering a natural number gives digits that read back as the number. *)
Lemma numberToString_read (n : N) :
  allDigits (numberToString (Z.of_N n)) = true /\
  readDigits (numberToString (Z.of_N n)) 0 = n.
Proof.
  destruct n as [|p]; [split; reflexivity|].
  simpl Z.of_N. unfold numberToString. split.
  - apply digitsAux_digits. reflexivity.
  - apply digitsAux_read; [|lia].
    rewrite Nat2N.inj_succ, N2Nat.id.
    apply N.log2_spec. lia.
Qed.

Lemma digits_before_dash (a : string) : forall (b x y : string),
  allDigits a = true -> allDigits b = true ->
  a ++ "-" ++ x = b ++ "-" ++ y -> a = b /\ x = y.
Proof.
  induction a as [|c a IH]; intros b x y Ha Hb E.
  - destruct b as [|d b]; simpl in *.
    + injection E as E. split; [reflexivity | exact E].
    + injection E as Ec _. subst d. simpl in Hb. discriminate Hb.
  - destruct b as [|d b]; simpl in *.
    + injection E as Ec _. subst c. discriminate Ha.
    + injection E as Ec E. subst d.
      apply andb_true_iff in Ha as [_ Ha].
      apply andb_true_iff in Hb as [_ Hb].
      destruct (IH b x y Ha Hb E) as [H1 H2]. subst. split; reflexivity.
Qed.

Lemma append_cancel_l (p a b : string) : p ++ a = p ++ b -> a = b.
Proof.
  induction p as [|c p IH]; simpl; intros E; [exact E|].
  injection E as E. apply IH, E.
Qed.

(** For one user a storage path determines the upload timestamp, the index
    of the file in its batch and the sanitized file name. *)
Lemma storagePathFor_injective
      (uid : string) (t1 t2 : Z) (i j : nat) (name1 name2 : string) :
  (0 <= t1)%Z -> (0 <= t2)%Z ->
  storagePathFor uid t1 i name1 = storagePathFor uid t2 j name2 ->
  t1 = t2 /\ i = j /\ sanitizeName name1 = sanitizeName name2.
Proof.
  intros H1 H2 E. unfold storagePathFor in E.
  apply append_cancel_l in E.
  change ("/" ++ ?x) with (String "/" x) in E.
  injection E as E.
  destruct (numberToString_read (Z.to_N t1)) as [D1 R1].
  destruct (numberToString_read (Z.to_N t2)) as [D2 R2].
  rewrite Z2N.id in D1, D2, R1, R2 by assumption.
  destruct (digits_before_dash _ _ _ _ D1 D2 E) as [Et E'].
  destruct (numberToString_read (N.of_nat i)) as [D3 R3].
  destruct (numberToString_read (N.of_nat j)) as [D4 R4].
  rewrite nat_N_Z in D3, D4, R3, R4.
  destruct (digits_before_dash _ _ _ _ D3 D4 E') as [Ei En].
  split; [|split; [|exact En]].
  - rewrite Et in R1. rewrite R1 in R2. apply Z2N.inj; assumption.
  - rewrite Ei in R3. rewrite R3 in R4. apply Nat2N.inj, R4.
Qed.

(** X28.  Storage paths of one user never collide: two files of one batch
    have different paths whatever their names (the index differs), and so
    have files of batches started at different times (the timestamp
    differs). *)
Theorem storage_paths_never_collide
        (uid : string) (t1 t2 : Z) (i j : nat) (name1 name2 : string) :
  (0 <= t1)%Z -> (0 <= t2)%Z ->
  t1 <> t2 \/ i <> j ->
  String.eqb (storagePathFor uid t1 i name1) (storagePathFor uid t2 j name2)
  = false.
Proof.
  intros H1 H2 Hd. apply String.eqb_neq. intros E.
  destruct (storagePathFor_injective uid t1 t2 i j name1 name2 H1 H2 E)
    as (Et & Ei & _).
  destruct Hd as [Hd|Hd]; contradiction.
Qed.

Lemma storage_paths_never_collide_witness :
  String.eqb (storagePathFor "u1" 1700000000000 0 "notes.pdf")
             (storagePathFor "u1" 1700000000000 1 "notes.pdf") = false.
Proof.
  apply (storage_paths_never_collide "u1" 1700000000000 1700000000000 0 1
           "notes.pdf" "notes.pdf"); [lia | lia | right; discriminate].
Defined.

(** ** Mounting *)

(** [fetchHistory] leaves the component alone and releases nothing. *)
Lemma fetchHistory_frame
      {W : Type} (svc : Services W) (uid : string) (s : Sys W) :
  comp (snd (fetchHistory svc uid s)) = comp s /\
  (exists reqs, calls (snd (fetchHistory svc uid s)) = (calls s ++ reqs)%list /\
                forallb notRevocation reqs = true) /\
  (forall e, selectError (fst (messages_select svc uid (ext s))) = Some e ->
             fst (fetchHistory svc uid s) = inl e).
Proof.
  unfold fetchHistory, Eff.bind, request.
  destruct (messages_select svc uid (ext s)) as [r x]. simpl.
  destruct (selectError r) as [e|].
  - simpl. split; [reflexivity|]. split.
    + eexists. split; reflexivity.
    + intros e' H. now injection H as ->.
  - destruct (selectData r) as [data|].
    + match goal with
      | |- context [resolveEntries svc data ?st] =>
          pose proof (resolveEntries_calls svc data st) as Hc;
          destruct (ChatBotTheory.resolveEntries_total svc data st)
            as (msgs & s' & E & _ & C)
      end.
      rewrite E in *. simpl in *. split; [exact C|]. split.
      * eexists. rewrite Hc, <- app_assoc. split; [reflexivity|].
        simpl. unfold signingRequests. rewrite forallb_forall.
        intros c Hin. apply in_map_iff in Hin as (a & <- & _). reflexivity.
      * discriminate.
    + simpl. split; [reflexivity|]. split.
      * eexists. split; reflexivity.
      * discriminate.
Qed.

Lemma filter_none (reqs : list Call) :
  forallb notRevocation reqs = true -> filter isRevocation reqs = [].
Proof.
  intros H. pose proof (filter_revocations_app [] reqs H) as E. exact E.
Qed.

Lemma filter_revocations_all (items : list PendingAttachment.t) :
  filter isRevocation (revocations items) = revocations items.
Proof.
  unfold revocations.
  induction items as [|i l IH]; [reflexivity|]. simpl. now rewrite IH.
Qed.

(** X29.  Mounting the chat never throws and always ends with the greeting
    as the first message, the staged list empty and every preview URL that
    was staged released exactly once.  Without persistence (guest mode, or
    no user) the greeting is the only message and no backend request is
    made; with persistence the history follows the greeting, a failed
    history read leaves the greeting alone, and the history-loading flag is
    cleared either way. *)
Theorem mounting_always_greets
        {W : Type} (svc : Services W) (b : Browser W) (props : ChatBotProps)
        (s : Sys W) :
  let s1 := snd (initializeChat svc b props s) in
  fst (initializeChat svc b props s) = inr tt /\
  (exists history,
     messages (comp s1) = greetingMessage props :: history) /\
  pendingAttachments (comp s1) = [] /\
  filter isRevocation (calls s1) =
    (filter isRevocation (calls s) ++
     revocations (pendingAttachments (comp s)))%list /\
  (canPersistConversation props = false ->
   messages (comp s1) = [greetingMessage props] /\
   calls s1 = (calls s ++ revocations (pendingAttachments (comp s)))%list) /\
  (canPersistConversation props = true ->
   isHistoryLoading (comp s1) = false /\
   forall uid e,
     userId props = Some uid ->
     selectError
       (fst (messages_select svc uid
               (snd (chats_create b (systemInstruction props) (ext s)))))
       = Some e ->
     messages (comp s1) = [greetingMessage props]).
Proof.
  cbv zeta.
  destruct (initializeChat svc b props s) as [r s1] eqn:E. cbn [fst snd].
  unfold initializeChat, Eff.bind, ask, Eff.get, modifyComp, Eff.modify,
    Eff.finally, Eff.tryCatch, Eff.ret in E.
  destruct (chats_create b (systemInstruction props) (ext s)) as [created x0].
  cbn [snd].
  assert (Hcan : canPersistConversation props =
                 match userId props with
                 | Some uid => hasMemory props && truthy uid
                 | None => false
                 end).
  { unfold canPersistConversation. destruct (userId props); simpl;
      [reflexivity | apply andb_false_r]. }
  destruct (userId props) as [uid|];
    [destruct (hasMemory props && truthy uid)|];
    rewrite Hcan; clear Hcan.
  - (* history is read *)
    destruct created as [e0|chat]; simpl in E;
      match type of E with
      | context [fetchHistory svc uid ?st] =>
          destruct (fetchHistory_frame svc uid st)
            as (Hcomp & (reqs & Hreq & Hno) & Herr);
          destruct (fetchHistory svc uid st) as [[e|history] s2]
      end;
      simpl in E, Hcomp, Hreq, Herr;
      rewrite ChatBotTheory.revokeAll_run in E; simpl in E;
      injection E as <- <-; simpl; rewrite Hcomp, Hreq; simpl;
      (split; [reflexivity|]);
      (split; [eexists; reflexivity|]);
      (split; [reflexivity|]);
      (split; [rewrite !filter_app, (filter_none reqs Hno),
                 filter_revocations_all, app_nil_r; reflexivity|]);
      (split; [discriminate|]);
      intros _; (split; [reflexivity|]);
      intros uid' e' Huid He; injection Huid as <-;
      try reflexivity;
      specialize (Herr e' He); discriminate Herr.
  - (* signed in without memory, or with an empty id *)
    destruct created as [e0|chat]; simpl in E;
      rewrite ChatBotTheory.revokeAll_run in E; simpl in E;
      injection E as <- <-; simpl;
      (split; [reflexivity|]);
      (split; [eexists; reflexivity|]);
      (split; [reflexivity|]);
      (split; [rewrite filter_app, filter_revocations_all; reflexivity|]);
      (split; [intros _; split; reflexivity | discriminate]).
  - (* no user *)
    destruct created as [e0|chat]; simpl in E;
      rewrite ChatBotTheory.revokeAll_run in E; simpl in E;
      injection E as <- <-; simpl;
      (split; [reflexivity|]);
      (split; [eexists; reflexivity|]);
      (split; [reflexivity|]);
      (split; [rewrite filter_app, filter_revocations_all; reflexivity|]);
      (split; [intros _; split; reflexivity | discriminate]).
Qed.

End ChatBotMountTheory.

(* ===================================================================== *)
(** * The sign-in form in front of the application's handler *)
(* ===================================================================== *)

Module AuthModalTheory.
Import Js App AuthModal.

Lemma trim_blank (s : string) : AppShell.allSpace s = true -> trim s = "".
Proof.
  unfold trim. induction s as [|c s IH]; intros H; [reflexivity|].
  simpl in *. apply andb_true_iff in H as [Hc Hs].
  rewrite Hc. apply IH, Hs.
Qed.

(** X30.  Submitting the form in front of [handleAuthenticate], with the
    modal shown for the mode of the application: the fields are never
    changed, and the submit either ends with an error line and the
    application's cells as they were (the modal stays open), or with no
    error line, the submitting flag cleared, the modal closed and a user
    set.  An incomplete form asks the provider nothing.  A sign-up name made
    of blanks only passes the form's own test, is trimmed to the empty
    string and is then refused by the application: its message about the
    missing name is the error line, and the provider is asked nothing. *)
Theorem submit_closes_or_explains
        {W : Type} (p : Auth.Provider W) (mode : AuthMode) (m : ModalState)
        (s : Sys W) :
  authMode (app s) = Some mode ->
  let m1 := fst (handleSubmit mode (handleAuthenticate p) m s) in
  let s1 := snd (handleSubmit mode (handleAuthenticate p) m s) in
  formState m1 = formState m /\
  (((exists text, error m1 = Some text) /\ app s1 = app s) \/
   (error m1 = None /\ isSubmitting m1 = false /\
    authMode (app s1) = None /\ exists u, user (app s1) = Some u)) /\
  (incomplete mode (formState m) = true ->
   s1 = s /\ error m1 = Some "Please complete all required fields." /\
   isSubmitting m1 = isSubmitting m) /\
  (incomplete mode (formState m) = false -> isSubmitting m1 = false) /\
  (mode = signup ->
   incomplete mode (formState m) = false ->
   AppShell.allSpace (name (formState m)) = true ->
   s1 = s /\
   error m1 =
   Some "Please share your name so we can personalize your study space.").
Proof.
  intros Hm. cbv zeta.
  destruct (handleSubmit mode (handleAuthenticate p) m s) as [m1 s1] eqn:E.
  cbn [fst snd].
  destruct m as [f err sub].
  unfold handleSubmit, setIsSubmitting, setError in E.
  cbn [formState error isSubmitting] in *.
  destruct (incomplete mode f) eqn:Hi.
  - injection E as <- <-. cbn.
    split; [reflexivity|]. split; [left; split; [eauto | reflexivity]|].
    split; [intros _; repeat split|]. split; discriminate.
  - unfold handleAuthenticate, Eff.bind, Eff.get in E. rewrite Hm in E.
    unfold liftAuth, modifyApp, Eff.modify, Eff.throw, Eff.ret, payloadOf in E.
    cbn [payloadName payloadEmail payloadPassword] in E.
    destruct mode.
    + match type of E with
      | context [Auth.signIn p ?pl ?w0] =>
          destruct (Auth.signIn p pl w0) as [[e|u] w]
      end; cbn in E;
        injection E as <- <-; cbn;
        (split; [reflexivity|]);
        (split; [try (left; split; [eauto | reflexivity]);
                 right; repeat split; eauto|]);
        (split; [discriminate|]); (split; [reflexivity|]); discriminate.
    + destruct (truthy (trim (name f))) eqn:Ht.
      * match type of E with
        | context [Auth.signUp p ?pl ?w0] =>
            destruct (Auth.signUp p pl w0) as [[e|u] w]
        end; cbn in E;
          injection E as <- <-; cbn;
          (split; [reflexivity|]);
          (split; [try (left; split; [eauto | reflexivity]);
                   right; repeat split; eauto|]);
          (split; [discriminate|]); (split; [reflexivity|]);
          intros _ _ Hb; rewrite (trim_blank _ Hb) in Ht; discriminate Ht.
      * cbn in E. injection E as <- <-. cbn.
        split; [reflexivity|].
        split; [left; split; [eauto | reflexivity]|].
        split; [discriminate|]. split; [reflexivity|].
        intros _ _ _. split; reflexivity.
Qed.

Lemma submit_closes_or_explains_witness :
  snd (handleSubmit signup (handleAuthenticate AuthSpec.rejecting) blankName
         (mkSys (setAuthMode (Some signup) AppSpec.signedIn)
            (Auth.mkWorld tt [])))
  = mkSys (setAuthMode (Some signup) AppSpec.signedIn) (Auth.mkWorld tt []) /\
  error (fst (handleSubmit signup (handleAuthenticate AuthSpec.rejecting)
                blankName
                (mkSys (setAuthMode (Some signup) AppSpec.signedIn)
                   (Auth.mkWorld tt []))))
  = Some "Please share your name so we can personalize your study space.".
Proof.
  apply (submit_closes_or_explains AuthSpec.rejecting signup blankName
           (mkSys (setAuthMode (Some signup) AppSpec.signedIn)
              (Auth.mkWorld tt []))); reflexivity.
Defined.

End AuthModalTheory.
